(** * Cosmic Orrery: the Kepler-432 lattice, the orrery and its systems

    A shallow embedding of [kepler-432.ts] (hash decoding, orbital
    mapping, harmonics, colour bands, body construction, gravitational
    pull, Lagrange points), of [cosmic-orrery.ts] (adding code and
    constellations, the gravitational field, statistics, export and
    import, clearing), and of the state and the numbers of
    [orrery-visualization.ts], [ritual-activation.ts],
    [music-of-spheres.ts] and [sacred-geometry.ts] (bodies, trails,
    resonance and animation frames; ritual thresholds and fade-outs;
    oscillators and volumes; the Sierpinski fractal).  The calls into
    the audio library are parameters, and the JSON text of an exported
    state is represented by the values it denotes.

    JavaScript numbers are IEEE 754 binary64 values.  They are modelled
    with the Standard Library's executable specification of binary
    floating point ([SpecFloat], precision 53, maximal exponent 1024),
    so every arithmetic step of the source is a rounded operation here
    too. *)

From Stdlib Require Import String Ascii.
From Stdlib Require Import ZArith List Bool Lia.
From Stdlib Require Import Reals Lra Psatz.
From Stdlib Require Import Floats.SpecFloat.
Import ListNotations.

Local Open Scope Z_scope.

(** ** Binary64 arithmetic *)

Module F64.

Definition prec : Z := 53.
Definition emax : Z := 1024.

Definition float := spec_float.

Definition add : float -> float -> float := SFadd prec emax.
Definition sub : float -> float -> float := SFsub prec emax.
Definition mul : float -> float -> float := SFmul prec emax.
Definition div : float -> float -> float := SFdiv prec emax.
Definition sqrt : float -> float := SFsqrt prec emax.
Definition opp : float -> float := SFopp.

Definition ltb : float -> float -> bool := SFltb.
Definition leb : float -> float -> bool := SFleb.
Definition eqb : float -> float -> bool := SFeqb.

Definition pzero : float := S754_zero false.
Definition nzero : float := S754_zero true.
Definition pinf : float := S754_infinity false.
Definition ninf : float := S754_infinity true.
Definition nan : float := S754_nan.

(** The Number value of a mathematical integer (exact below 2^53). *)
Definition of_Z (z : Z) : float := binary_normalize prec emax z 0 false.

(** A decimal literal [n/d] denotes the double nearest to it; the
    correctly rounded quotient of two exact integers is that double. *)
Definition lit (n d : Z) : float := div (of_Z n) (of_Z d).

Definition is_nan (x : float) : bool :=
  match x with S754_nan => true | _ => false end.

Definition is_finite (x : float) : bool :=
  match x with
  | S754_zero _ | S754_finite _ _ _ => true
  | _ => false
  end.

Definition is_zero (x : float) : bool :=
  match x with S754_zero _ => true | _ => false end.

Definition valid (x : float) : bool := valid_binary prec emax x.

(** The doubles 1, and the literals [10/11] and [1.1] in normal form. *)
Definition one : float := S754_finite false 4503599627370496 (-52).
Definition lit_10_11 : float := S754_finite false 8188362958855447 (-53).
Definition lit_11_10 : float := S754_finite false 4953959590107546 (-52).

(** [Math.PI], the double 0x400921FB54442D18. *)
Definition PI : float := S754_finite false 7074237752028440 (-51).

(** The [%] operator on Numbers (ECMAScript Number::remainder): the
    result is exact, computed by truncating division, and carries the
    sign of the dividend. *)
Definition rem (n d : float) : float :=
  match n, d with
  | S754_nan, _ | _, S754_nan => S754_nan
  | S754_infinity _, _ => S754_nan
  | _, S754_zero _ => S754_nan
  | _, S754_infinity _ => n
  | S754_zero _, _ => n
  | S754_finite sn mn en, S754_finite _ md ed =>
      let e := Z.min en ed in
      let a := Zpos (fst (shl_align mn en e)) in
      let b := Zpos (fst (shl_align md ed e)) in
      binary_normalize prec emax (cond_Zopp sn (Z.rem a b)) e sn
  end.

(** Truncation of a finite Number towards zero, as a mathematical
    integer (0 for NaN and the infinities, as in ToIntegerOrInfinity
    followed by the modulo step of the typed-array conversions). *)
Definition trunc (x : float) : Z :=
  match x with
  | S754_finite s m e =>
      cond_Zopp s (match e with
                   | Zneg p => Z.shiftr (Zpos m) (Zpos p)
                   | _ => Z.shiftl (Zpos m) e
                   end)
  | _ => 0
  end.

End F64.

(** ** Real-number reading of floats

    The value of a mantissa and exponent, the position of a real
    number between two neighbouring multiples of a power of two, and
    what it means for a float to be the rounding of a real: the
    vocabulary of the rounding lemmas below. *)

Module Rounding.

Definition bpow (e : Z) : R := powerRZ 2 e.
Definition F2R (m e : Z) : R := (IZR m * bpow e)%R.

(** [x] lies in the cell [[m * 2^e, (m+1) * 2^e)], on its left edge
    exactly when the location is [loc_Exact]. *)
Definition inb (m e : Z) (l : location) (x : R) : Prop :=
  (F2R m e <= x < F2R (m + 1) e)%R
  /\ (l = loc_Exact -> x = F2R m e)
  /\ (l <> loc_Exact -> (F2R m e < x)%R).

Definition fexp64 (e : Z) : Z := fexp 53 1024 e.

Definition canonical (m e : Z) : Prop := e = fexp64 (Zdigits2 m + e).

(** [v] is a rounding of the non-negative real [x]: it is ordered
    with respect to every canonical float the way [x] is. *)
Definition rounds_to (x v : R) : Prop :=
  (0 <= v)%R /\
  forall mb eb, 0 < mb -> canonical mb eb ->
    ((F2R mb eb <= x)%R -> (F2R mb eb <= v)%R)
    /\ ((x <= F2R mb eb)%R -> (v <= F2R mb eb)%R).

(** The float [f] carries sign [s] and magnitude [v] (an infinity
    when [v] is beyond the finite range). *)
Definition represents (s : bool) (v : R) (f : spec_float) : Prop :=
  (v = 0%R /\ f = S754_zero s)
  \/ (exists m e, f = S754_finite s m e /\ bounded 53 1024 m e = true
                  /\ v = F2R (Zpos m) e)
  \/ ((bpow 1024 <= v)%R /\ f = S754_infinity s).

Ltac shr_flags r s Hex Hin :=
  destruct r, s; cbn [orb loc_of_shr_record] in *;
  [ pose proof (Hin ltac:(discriminate))
  | pose proof (Hin ltac:(discriminate))
  | pose proof (Hin ltac:(discriminate))
  | pose proof (Hex eq_refl) ];
  (split;
   [ lra
   | split; intros Hl;
     [ try discriminate Hl; try lra
     | try lra; try (exfalso; apply Hl; reflexivity) ] ]).

(** Replace each [bpow] of a negative literal by the inverse of the
    power it denotes; [lem] is the lemma that says so. *)
Ltac bpow_num lem :=
  repeat match goal with
    | |- context [bpow (Zneg ?p)] =>
        rewrite (lem p);
        let v := eval vm_compute in (2 ^ Zpos p) in
        change (2 ^ Zpos p) with v
    end.

End Rounding.

(** ** The [Math] functions the lattice calls

    ECMA-262 fixes the value of [Math.sin], [Math.cos] and [Math.pow]
    at the special arguments and leaves the remaining values
    implementation-approximated.  The approximated part is an interface
    the host supplies; the fixed cases are written out. *)

Class MathImpl : Type := {
  sin_approx : F64.float -> F64.float;
  cos_approx : F64.float -> F64.float;
  pow_approx : F64.float -> F64.float -> F64.float
}.

Module JSMath.
Import F64.

Definition sin {M : MathImpl} (x : float) : float :=
  match x with
  | S754_nan | S754_infinity _ => nan
  | S754_zero _ => x
  | S754_finite _ _ _ => sin_approx x
  end.

Definition cos {M : MathImpl} (x : float) : float :=
  match x with
  | S754_nan | S754_infinity _ => nan
  | S754_zero _ => of_Z 1
  | S754_finite _ _ _ => cos_approx x
  end.

(** Number::exponentiate, for the bases the special cases of which the
    lattice can reach: a NaN exponent or base, a zero exponent, and
    the base [+0].  Every other pair is delegated. *)
Definition pow {M : MathImpl} (base exponent : float) : float :=
  match exponent with
  | S754_nan => nan
  | S754_zero _ => of_Z 1
  | _ =>
      match base with
      | S754_nan => nan
      | S754_zero false =>
          if ltb pzero exponent then pzero else pinf
      | _ => pow_approx base exponent
      end
  end.

Definition sqrt : float -> float := F64.sqrt.
Definition PI : float := F64.PI.

End JSMath.

(** ** Strings, [parseInt] and the typed-array views *)

Module JS.
Import F64.

(** A String value is a sequence of UTF-16 code units. *)
Definition code_unit := N.
Definition jsstring := list code_unit.

Definition str (s : String.string) : jsstring :=
  map Ascii.N_of_ascii (String.list_ascii_of_string s).

Fixpoint starts_with (p s : jsstring) : bool :=
  match p, s with
  | [], _ => true
  | c :: p', d :: s' => N.eqb c d && starts_with p' s'
  | _ :: _, [] => false
  end.

(** [s.substr(start, len)] for non-negative integer arguments. *)
Definition substr (s : jsstring) (start len : nat) : jsstring :=
  firstn len (skipn start s).

(** WhiteSpace and LineTerminator code points (StrWhiteSpaceChar). *)
Definition is_white_space (c : code_unit) : bool :=
  existsb (N.eqb c)
    [9; 10; 11; 12; 13; 32; 160; 5760; 8232; 8233; 8239; 8287; 12288;
     65279]%N
  || (N.leb 8192 c && N.leb c 8202).

Fixpoint trim_start (s : jsstring) : jsstring :=
  match s with
  | c :: s' => if is_white_space c then trim_start s' else s
  | [] => []
  end.

Definition hex_digit (c : code_unit) : option Z :=
  if (N.leb 48 c && N.leb c 57)%N then Some (Z.of_N c - 48)
  else if (N.leb 97 c && N.leb c 102)%N then Some (Z.of_N c - 87)
  else if (N.leb 65 c && N.leb c 70)%N then Some (Z.of_N c - 55)
  else None.

(** The longest prefix of radix-16 digits, as the list of its digit
    values. *)
Fixpoint hex_run (s : jsstring) : list Z :=
  match s with
  | c :: s' =>
      match hex_digit c with
      | Some d => d :: hex_run s'
      | None => []
      end
  | [] => []
  end.

Definition hex_value (ds : list Z) : Z :=
  fold_left (fun acc d => 16 * acc + d) ds 0.

(** Code units of the characters [parseInt] looks for. *)
Definition PLUS : code_unit := 43%N.
Definition MINUS : code_unit := 45%N.
Definition DIGIT_0 : code_unit := 48%N.
Definition UPPER_X : code_unit := 88%N.
Definition LOWER_X : code_unit := 120%N.

Definition strip_0x (s : jsstring) : jsstring :=
  match s with
  | c1 :: c2 :: s' =>
      if N.eqb c1 DIGIT_0 && (N.eqb c2 LOWER_X || N.eqb c2 UPPER_X)
      then s' else s
  | _ => s
  end.

(** [parseInt(s, 16)]: leading white space is skipped, then an
    optional sign, then an optional [0x]/[0X]; the longest run of
    hexadecimal digits that follows is the value, and an empty run
    gives NaN. *)
Definition parseInt16 (s : jsstring) : float :=
  let S := trim_start s in
  let negative :=
    match S with c :: _ => N.eqb c MINUS | [] => false end in
  let S :=
    match S with
    | c :: S' => if N.eqb c PLUS || N.eqb c MINUS then S' else S
    | [] => S
    end in
  let S := strip_0x S in
  match hex_run S with
  | [] => nan
  | ds =>
      let mathInt := hex_value ds in
      if Z.eqb mathInt 0 then (if negative then nzero else pzero)
      else of_Z (if negative then - mathInt else mathInt)
  end.

(** ToBoolean on a Number, and [x || y] on Numbers. *)
Definition truthy (x : float) : bool :=
  negb (is_nan x || is_zero x).

Definition or_else (x y : float) : float := if truthy x then x else y.

(** ToUint8: the value a [Uint8Array] element takes on assignment. *)
Definition ToUint8 (x : float) : Z := (trunc x) mod 256.

(** In-bounds element assignment on a typed array; an out-of-bounds
    index leaves the array unchanged. *)
Fixpoint array_set (a : list Z) (i : nat) (v : Z) : list Z :=
  match a, i with
  | [], _ => []
  | _ :: a', O => v :: a'
  | x :: a', S i' => x :: array_set a' i' v
  end.

(** [new DataView(buffer).getUint32(offset, true)]: four bytes, least
    significant first.  (Every call of the lattice is in bounds; an
    absent byte reads as 0 here.) *)
Definition getUint32_le (buf : list Z) (offset : nat) : Z :=
  nth offset buf 0
  + 2 ^ 8 * nth (offset + 1) buf 0
  + 2 ^ 16 * nth (offset + 2) buf 0
  + 2 ^ 24 * nth (offset + 3) buf 0.

End JS.

#[local] Abbreviation float := F64.float.

(** ** Abrupt completions

    A JavaScript call either returns or throws.  The only library call
    of the lattice that can throw is [Array.prototype.reduce], which
    raises a [TypeError] on an empty array when no initial value is
    passed.  [LibraryError] stands for an exception raised inside a
    library the orrery calls (Tone.js). *)

Inductive js_error : Type :=
| TypeError
| InvalidInput
| LibraryError.

Inductive completion (A : Type) : Type :=
| Normal (a : A)
| Throw (e : js_error).

Arguments Normal {A} a.
Arguments Throw {A} e.

Definition bind {A B : Type} (c : completion A) (k : A -> completion B)
  : completion B :=
  match c with
  | Normal a => k a
  | Throw e => Throw e
  end.

Notation "x <- c ;; k" := (bind c (fun x => k))
  (at level 61, c at next level, right associativity).

Definition Array_reduce {A : Type} (f : A -> A -> A) (initialValue : option A)
  (a : list A) : completion A :=
  match initialValue, a with
  | Some v, _ => Normal (fold_left f a v)
  | None, x :: a' => Normal (fold_left f a' x)
  | None, [] => Throw TypeError
  end.

(** [a.map((x, i) => f x i)]. *)
Fixpoint Array_map_from {A B : Type} (f : A -> nat -> B) (i : nat) (a : list A)
  : list B :=
  match a with
  | [] => []
  | x :: a' => f x i :: Array_map_from f (S i) a'
  end.

Definition Array_map {A B : Type} (f : A -> nat -> B) (a : list A) : list B :=
  Array_map_from f 0 a.

(** ** Data model ([kepler-432.ts]) *)

Record OrbitalCoordinates : Type := {
  r : float;
  theta : float;
  phi : float;
  x : float;
  y : float;
  z : float;
  period : float;
  velocity : float;
  eccentricity : float
}.

(** [THREE.Color], by its three channels. *)
Record Color : Type := { red : float; green : float; blue : float }.

Record CelestialBody : Type := {
  cid : JS.jsstring;
  soul : JS.jsstring;
  coordinates : OrbitalCoordinates;
  harmonics : list float;
  luminosity : float;
  color : Color;
  melody : list float
}.

(** [THREE.Vector3] with [distanceTo], as three.js defines it: the
    square root of [dx*dx + dy*dy + dz*dz]. *)
Module Vector3.
Import F64.

Record t : Type := { vx : float; vy : float; vz : float }.

Definition distanceToSquared (a b : t) : float :=
  let dx := sub (vx a) (vx b) in
  let dy := sub (vy a) (vy b) in
  let dz := sub (vz a) (vz b) in
  add (add (mul dx dx) (mul dy dy)) (mul dz dz).

Definition distanceTo (a b : t) : float :=
  JSMath.sqrt (distanceToSquared a b).
End Vector3.

(** ** The lattice *)

Module Kepler432Lattice.
Import F64 JS.

Definition BASE_ORBITS : float := of_Z 432.

(** [hash.replace(/^(bafkrei|Qm|phash:)/, '')] *)
Definition strip_prefix (hash : jsstring) : jsstring :=
  if starts_with (str "bafkrei") hash then skipn 7 hash
  else if starts_with (str "Qm") hash then skipn 2 hash
  else if starts_with (str "phash:") hash then skipn 6 hash
  else hash.

(** The [for] loop of [hashToBuffer], from index [i]; [fuel] bounds
    the number of iterations. *)
Fixpoint fill_bytes (fuel : nat) (cleanHash : jsstring) (i : nat)
  (bytes : list Z) : list Z :=
  match fuel with
  | O => bytes
  | S fuel' =>
      if (i <? Nat.min (length cleanHash) 64)%nat then
        let byte := or_else (parseInt16 (substr cleanHash i 2)) pzero in
        fill_bytes fuel' cleanHash (i + 2)
          (array_set bytes (i / 2) (ToUint8 byte))
      else bytes
  end.

Definition hashToBuffer (hash : jsstring) : list Z :=
  let cleanHash := strip_prefix hash in
  fill_bytes 32 cleanHash 0 (repeat 0 32).

Section WithMath.
Context {M : MathImpl}.

(** The period and velocity lines shared by [hashToOrbit] and
    [sphericalToOrbital]. *)
Definition orbit_period (r : float) : float :=
  mul (JSMath.sqrt (JSMath.pow r (of_Z 3))) BASE_ORBITS.

Definition orbit_velocity (r period : float) : float :=
  div (mul (mul (of_Z 2) JSMath.PI) r) period.

(** [getUint32] returns an integer below [2^32], which a double holds
    exactly, so [view.getUint32(k, true) % n] is the integer remainder;
    it is taken in [Z] before the conversion to a double. *)
Definition hashToOrbit (hash : jsstring) : OrbitalCoordinates :=
  let view := hashToBuffer hash in
  let r := div (of_Z (getUint32_le view 0 mod 1000)) (of_Z 1000) in
  let theta :=
    mul (mul (div (of_Z (getUint32_le view 4 mod 10000)) (of_Z 10000))
           (of_Z 2)) JSMath.PI in
  let phi :=
    mul (mul (div (of_Z (getUint32_le view 8 mod 10000)) (of_Z 10000))
           (of_Z 2)) JSMath.PI in
  let eccentricity :=
    mul (div (of_Z (getUint32_le view 12 mod 100)) (of_Z 100))
      (lit 5 10) in
  let period := orbit_period r in
  let velocity := orbit_velocity r period in
  let x := mul (mul r (JSMath.sin phi)) (JSMath.cos theta) in
  let y := mul (mul r (JSMath.sin phi)) (JSMath.sin theta) in
  let z := mul r (JSMath.cos phi) in
  {| r := r; theta := theta; phi := phi; x := x; y := y; z := z;
     period := period; velocity := velocity;
     eccentricity := eccentricity |}.

Definition orbitalHarmonics (coordinates : OrbitalCoordinates)
  (eigenvalues : list float) : list float :=
  let baseFreq := of_Z 432 in
  let radiusScale := div (of_Z 1) (add (of_Z 1) (r coordinates)) in
  Array_map (fun eigen i =>
    let orbitalModifier :=
      mul (JSMath.sin (add (theta coordinates) (of_Z (Z.of_nat i))))
          (JSMath.cos (add (phi coordinates) (of_Z (Z.of_nat i)))) in
    let keplerFactor := JSMath.pow (r coordinates) (opp (lit 15 10)) in
    mul (mul (mul (mul baseFreq eigen) radiusScale)
           (add (of_Z 1) (mul orbitalModifier (lit 1 10))))
        keplerFactor) eigenvalues.

Definition rgb (a b c : float) : Color :=
  {| red := a; green := b; blue := c |}.

Definition orbitalColor (coordinates : OrbitalCoordinates) : Color :=
  let r := r coordinates in
  if ltb r (lit 2 10) then rgb (lit 7 10) (lit 7 10) (of_Z 1)
  else if ltb r (lit 4 10) then rgb (of_Z 1) (of_Z 1) (of_Z 1)
  else if ltb r (lit 6 10) then rgb (of_Z 1) (of_Z 1) (lit 7 10)
  else if ltb r (lit 8 10) then rgb (of_Z 1) (lit 7 10) (lit 4 10)
  else rgb (of_Z 1) (lit 4 10) (lit 4 10).

Definition createCelestialBody (cid proteinHash : jsstring)
  (eigenvalues : list float) : completion CelestialBody :=
  let coordinates := hashToOrbit proteinHash in
  let harmonics := orbitalHarmonics coordinates eigenvalues in
  let color := orbitalColor coordinates in
  sum <- Array_reduce add (Some pzero) eigenvalues ;;
  let complexity := div sum (of_Z (Z.of_nat (length eigenvalues))) in
  let luminosity := div (of_Z 1) (add (of_Z 1) complexity) in
  Normal {| cid := cid; soul := proteinHash; coordinates := coordinates;
            harmonics := eigenvalues; luminosity := luminosity;
            color := color; melody := harmonics |}.

Definition position (body : CelestialBody) : Vector3.t :=
  {| Vector3.vx := x (coordinates body);
     Vector3.vy := y (coordinates body);
     Vector3.vz := z (coordinates body) |}.

Definition gravitationalPull (body1 body2 : CelestialBody) : float :=
  let pos1 := position body1 in
  let pos2 := position body2 in
  let distance := Vector3.distanceTo pos1 pos2 in
  if eqb distance pzero then pinf
  else
    let G := of_Z 1 in
    let mass1 := luminosity body1 in
    let mass2 := luminosity body2 in
    div (mul (mul G mass1) mass2) (mul distance distance).

Definition two_pi : float := mul (of_Z 2) JSMath.PI.

Definition sphericalToOrbital (r theta phi : float) : OrbitalCoordinates :=
  let period := orbit_period r in
  let velocity := orbit_velocity r period in
  {| r := r;
     theta := rem theta two_pi;
     phi := rem phi two_pi;
     x := mul (mul r (JSMath.sin phi)) (JSMath.cos theta);
     y := mul (mul r (JSMath.sin phi)) (JSMath.sin theta);
     z := mul r (JSMath.cos phi);
     period := period;
     velocity := velocity;
     eccentricity := pzero |}.

Definition findLagrangePoints (primaryBody : CelestialBody)
  : list OrbitalCoordinates :=
  let r := r (coordinates primaryBody) in
  let theta := theta (coordinates primaryBody) in
  let phi := phi (coordinates primaryBody) in
  let points := [] in
  let points := points ++ [sphericalToOrbital (mul r (lit 9 10)) theta phi] in
  let points := points ++ [sphericalToOrbital (mul r (lit 11 10)) theta phi] in
  let points := points ++ [sphericalToOrbital r (add theta JSMath.PI) phi] in
  let points :=
    points ++ [sphericalToOrbital r
                 (add theta (div JSMath.PI (of_Z 3))) phi] in
  let points :=
    points ++ [sphericalToOrbital r
                 (sub theta (div JSMath.PI (of_Z 3))) phi] in
  points.

End WithMath.
End Kepler432Lattice.

(** ** Maps with string keys *)

Module JSMap.
Import JS.

(** [Map<string, V>]: insertion-ordered, one entry per key. *)
Definition t (V : Type) := list (jsstring * V).

Definition key_eqb (a b : jsstring) : bool :=
  if list_eq_dec N.eq_dec a b then true else false.

Fixpoint get {V : Type} (m : t V) (k : jsstring) : option V :=
  match m with
  | [] => None
  | (k', v) :: m' => if key_eqb k k' then Some v else get m' k
  end.

Fixpoint set {V : Type} (m : t V) (k : jsstring) (v : V) : t V :=
  match m with
  | [] => [(k, v)]
  | (k', v') :: m' =>
      if key_eqb k k' then (k, v) :: m' else (k', v') :: set m' k v
  end.
End JSMap.


(** ** A concrete host

    Low-order polynomial stand-ins for the approximated part of
    [Math.sin], [Math.cos] and [Math.pow], so that the lattice can be
    evaluated on test vectors.  No statement below depends on how good
    they are. *)

Module RefMath.
Import F64.

Definition sin_poly (x : float) : float :=
  let x2 := mul x x in
  mul x (sub (of_Z 1)
           (mul (div x2 (of_Z 6))
              (sub (of_Z 1) (div x2 (of_Z 20))))).

Definition cos_poly (x : float) : float :=
  let x2 := mul x x in
  sub (of_Z 1)
    (mul (div x2 (of_Z 2)) (sub (of_Z 1) (div x2 (of_Z 12)))).

(** The two exponents the lattice uses: [3] and [-1.5]. *)
Definition pow_cases (x y : float) : float :=
  if eqb y (of_Z 3) then mul (mul x x) x
  else if eqb y (opp (lit 15 10)) then div (of_Z 1) (mul x (sqrt x))
  else nan.

#[export] Instance host : MathImpl :=
  {| sin_approx := sin_poly; cos_approx := cos_poly;
     pow_approx := pow_cases |}.
End RefMath.

(** ** Test inputs *)

Definition zero_hash : JS.jsstring :=
  JS.str "0000000000000000000000000000000000000000000000000000000000000000".

(** The CID of the lattice's own [testVector]. *)
Definition testCID : JS.jsstring :=
  JS.str "QmYwAPJzv5CZsnA625s3Xf2nemtYgPpHdWEz79ojWnPbdG".

Definition vector2_eigenvalues : list float :=
  [F64.of_Z 1; F64.lit 5 10; F64.lit 25 100; F64.lit 125 1000].


(** The primary of the Lagrange test vector: [r = 0.4], [theta = 1.0]
    (the other fields do not enter [findLagrangePoints]). *)
Definition lagrange_primary : CelestialBody :=
  {| cid := JS.str "primary";
     soul := JS.str "primary";
     coordinates :=
       {| r := F64.lit 4 10; theta := F64.of_Z 1; phi := F64.pzero;
          x := F64.pzero; y := F64.pzero; z := F64.pzero;
          period := F64.pzero; velocity := F64.pzero;
          eccentricity := F64.pzero |};
     harmonics := [F64.of_Z 1];
     luminosity := F64.lit 5 10;
     color := {| red := F64.of_Z 1; green := F64.of_Z 1; blue := F64.of_Z 1 |};
     melody := [] |}.

(** ** Vocabulary of the statements *)

(** The byte a two-character slice decodes to in [hashToBuffer]:
    [parseInt(pair, 16) || 0], stored into a [Uint8Array]. *)
Definition decode_pair (pair : JS.jsstring) : Z :=
  JS.ToUint8 (JS.or_else (JS.parseInt16 pair) F64.pzero).

(** A slice that is exactly two hexadecimal digits. *)
Definition is_hex_pair (pair : JS.jsstring) : bool :=
  match pair with
  | [c1; c2] =>
      match JS.hex_digit c1, JS.hex_digit c2 with
      | Some _, Some _ => true
      | _, _ => false
      end
  | _ => false
  end.

(** What [hashToOrbit] computes from the remainder [k] of a word: the
    radius from [k = w0 % 1000], an angle from [k = w % 10000], the
    eccentricity from [k = w3 % 100]. *)
Definition radius_of (k : Z) : float := F64.div (F64.of_Z k) (F64.of_Z 1000).

Definition angle_of (k : Z) : float :=
  F64.mul (F64.mul (F64.div (F64.of_Z k) (F64.of_Z 10000)) (F64.of_Z 2))
    JSMath.PI.

Definition eccentricity_of (k : Z) : float :=
  F64.mul (F64.div (F64.of_Z k) (F64.of_Z 100)) (F64.lit 5 10).

(** The values a byte can take. *)
Definition byte_values : list Z := map Z.of_nat (seq 0 256).

(** The mean the factory computes: [reduce((a, b) => a + b, 0) / length]. *)
Definition mean (eigenvalues : list float) : float :=
  F64.div (fold_left F64.add eigenvalues F64.pzero)
    (F64.of_Z (Z.of_nat (length eigenvalues))).

Definition finite_position (c : OrbitalCoordinates) : bool :=
  F64.is_finite (x c) && F64.is_finite (y c) && F64.is_finite (z c).

Definition origin : OrbitalCoordinates :=
  {| r := F64.pzero; theta := F64.pzero; phi := F64.pzero;
     x := F64.pzero; y := F64.pzero; z := F64.pzero;
     period := F64.pzero; velocity := F64.pzero;
     eccentricity := F64.pzero |}.

(** A primary beyond [r = 10/11], and a body built by the factory. *)
Definition outer_primary : CelestialBody :=
  {| cid := JS.str "outer";
     soul := JS.str "outer";
     coordinates :=
       {| r := F64.lit 91 100; theta := F64.pzero; phi := F64.pzero;
          x := F64.pzero; y := F64.pzero; z := F64.lit 91 100;
          period := F64.pzero; velocity := F64.pzero;
          eccentricity := F64.pzero |};
     harmonics := [F64.of_Z 3];
     luminosity := F64.lit 25 100;
     color := {| red := F64.of_Z 1; green := F64.of_Z 1; blue := F64.of_Z 1 |};
     melody := [] |}.

Definition sample_eigenvalues : list float := [F64.of_Z 1].

Definition sample_body : CelestialBody :=
  match
    Kepler432Lattice.createCelestialBody (M := RefMath.host) testCID testCID
      sample_eigenvalues
  with
  | Normal body => body
  | Throw _ => lagrange_primary
  end.

(** A hash whose first word is 999 (bytes e7 03 00 00): [r = 0.999]. *)
Definition far_hash : JS.jsstring := JS.str "e7030000".

(** ** More of the host language

    Values that may be [undefined], [Math.abs], [Math.min], [Math.max],
    [String.prototype.includes], the rest of the [Map] interface, the
    indexed form of [reduce], and the conversion a [Float32Array]
    applies on assignment. *)

Module JSMore.
Import F64 JS.

Inductive jsval : Type :=
| Undefined
| Number (f : float).

Definition ToNumber (v : jsval) : float :=
  match v with
  | Undefined => nan
  | Number f => f
  end.

(** [a + b] when neither operand is a string or an object. *)
Definition plus (a b : jsval) : float := add (ToNumber a) (ToNumber b).

Definition abs : float -> float := SFabs.

(** [Math.max(...args)]: NaN if any argument is NaN; otherwise the
    largest, with [+0] above [-0]. *)
Definition Math_max (args : list float) : float :=
  if existsb is_nan args then nan
  else
    fold_left (fun highest number =>
                 match number, highest with
                 | S754_zero false, S754_zero true => number
                 | _, _ => if ltb highest number then number else highest
                 end) args ninf.

Definition Math_min (args : list float) : float :=
  if existsb is_nan args then nan
  else
    fold_left (fun lowest number =>
                 match number, lowest with
                 | S754_zero true, S754_zero false => number
                 | _, _ => if ltb number lowest then number else lowest
                 end) args pinf.

(** [s.includes(sub)] *)
Fixpoint includes (s sub : jsstring) : bool :=
  starts_with sub s
  || match s with
     | [] => false
     | _ :: s' => includes s' sub
     end.

(** [a.reduce((acc, x, i) => f acc x i, init)] *)
Fixpoint reduce_from {A B : Type} (f : B -> A -> nat -> B) (i : nat)
  (a : list A) (acc : B) : B :=
  match a with
  | [] => acc
  | x :: a' => reduce_from f (S i) a' (f acc x i)
  end.

Definition Array_reduce_indexed {A B : Type} (f : B -> A -> nat -> B)
  (initialValue : B) (a : list A) : B :=
  reduce_from f 0 a initialValue.

(** The value a [Float32Array] element takes on assignment: the
    nearest binary32 value (ties to even), read back as a double. *)
Definition fround (x : float) : float :=
  match x with
  | S754_finite s m e =>
      match binary_round 24 128 s m e with
      | S754_finite s' m' e' => binary_round prec emax s' m' e'
      | y => y
      end
  | _ => x
  end.

(** Element read and in-bounds element write on a typed array (an
    out-of-bounds read gives [undefined], an out-of-bounds write is
    ignored). *)
Definition typed_get (a : list float) (i : nat) : jsval :=
  match nth_error a i with
  | Some v => Number v
  | None => Undefined
  end.

Fixpoint typed_set (a : list float) (i : nat) (v : float) : list float :=
  match a, i with
  | [], _ => []
  | _ :: a', O => v :: a'
  | x :: a', S i' => x :: typed_set a' i' v
  end.

Definition Float32Array_set (a : list float) (i : nat) (v : jsval)
  : list float :=
  typed_set a i (fround (ToNumber v)).

End JSMore.

Module JSMapMore.
Import JS.

Definition has {V : Type} (m : JSMap.t V) (k : jsstring) : bool :=
  match JSMap.get m k with
  | Some _ => true
  | None => false
  end.

Fixpoint delete {V : Type} (m : JSMap.t V) (k : jsstring) : JSMap.t V :=
  match m with
  | [] => []
  | (k', v) :: m' =>
      if JSMap.key_eqb k k' then m' else (k', v) :: delete m' k
  end.

Definition size {V : Type} (m : JSMap.t V) : nat := length m.
Definition keys {V : Type} (m : JSMap.t V) : list jsstring := map fst m.
Definition values {V : Type} (m : JSMap.t V) : list V := map snd m.
End JSMapMore.

(** ** The music system ([music-of-spheres.ts]): the numbers it
    derives from a body *)

Module MusicOfSpheres.
Import F64 JS.

Inductive OscillatorType : Type := sine | triangle | sawtooth | square.

Definition getOscillatorType (body : CelestialBody) : OscillatorType :=
  let r := r (coordinates body) in
  if ltb r (lit 2 10) then sine
  else if ltb r (lit 4 10) then triangle
  else if ltb r (lit 6 10) then sawtooth
  else square.

(** The [volume] option of the synth [addCelestialVoice] creates:
    [-10 + body.luminosity * 10]. *)
Definition voice_volume (body : CelestialBody) : float :=
  add (opp (of_Z 10)) (mul (luminosity body) (of_Z 10)).

(** A voice, by the two options of its synth that depend on the
    body (the envelope is the same for every voice). *)
Record Voice : Type := {
  oscillator : OscillatorType;
  volume : float
}.

Record t : Type := {
  synths : JSMap.t Voice;
  isPlaying : bool
}.

Definition create : t := {| synths := []; isPlaying := false |}.

(** [addCelestialVoice], what it stores: the voice replaces any
    voice stored under the same cid.  (When the music is playing the
    chord of the body is started as well, which leaves this state as
    it is.  The calls into the audio library that come with it are in
    [CosmicOrrery.music_addCelestialVoice].) *)
Definition addCelestialVoice (m : t) (body : CelestialBody) : t :=
  {| synths :=
       JSMap.set (synths m) (cid body)
         {| oscillator := getOscillatorType body;
            volume := voice_volume body |};
     isPlaying := isPlaying m |}.

(** [playBirthChord]: the frequencies of the arpeggio,
    [body.melody.slice(0, 4)]. *)
Definition birth_frequencies (body : CelestialBody) : list float :=
  firstn 4 (melody body).

Definition stop (m : t) : t := {| synths := synths m; isPlaying := false |}.

Definition dispose (m : t) : t := {| synths := []; isPlaying := false |}.

End MusicOfSpheres.

(** ** Sacred geometry ([sacred-geometry.ts]): the Sierpinski fractal *)

Module SacredGeometry.
Import F64 JS.

(** [THREE.Vector3]'s [add] and [multiplyScalar], on a clone. *)
Definition vadd (a b : Vector3.t) : Vector3.t :=
  {| Vector3.vx := add (Vector3.vx a) (Vector3.vx b);
     Vector3.vy := add (Vector3.vy a) (Vector3.vy b);
     Vector3.vz := add (Vector3.vz a) (Vector3.vz b) |}.

Definition multiplyScalar (a : Vector3.t) (s : float) : Vector3.t :=
  {| Vector3.vx := mul (Vector3.vx a) s;
     Vector3.vy := mul (Vector3.vy a) s;
     Vector3.vz := mul (Vector3.vz a) s |}.

(** The two arrays the generator pushes to. *)
Record Buffers : Type := {
  points : list Vector3.t;
  sacredValues : list float
}.

(** [generateSierpinski], for a depth that is a natural number (the
    recursion stops at [depth === 0] only). *)
Fixpoint generateSierpinski (p1 p2 p3 : Vector3.t) (depth : nat)
  (sacred : float) (b : Buffers) : Buffers :=
  match depth with
  | O =>
      {| points := points b ++ [p1; p2; p3];
         sacredValues := sacredValues b ++ [sacred; sacred; sacred] |}
  | S depth' =>
      let m1 := multiplyScalar (vadd p1 p2) (lit 5 10) in
      let m2 := multiplyScalar (vadd p2 p3) (lit 5 10) in
      let m3 := multiplyScalar (vadd p3 p1) (lit 5 10) in
      let b := generateSierpinski p1 m1 m3 depth'
                 (mul sacred (lit 11 10)) b in
      let b := generateSierpinski m1 p2 m2 depth'
                 (mul sacred (lit 12 10)) b in
      generateSierpinski m3 m2 p3 depth' (mul sacred (lit 13 10)) b
  end.

(** The geometry of [createSierpinskiFractal(depth, color)]: the
    points and the [sacred] attribute, before the buffers convert
    them to 32-bit floats. *)
Definition createSierpinskiFractal (depth : nat) : Buffers :=
  let size := lit 4 10 in
  let v1 := {| Vector3.vx := pzero; Vector3.vy := size;
               Vector3.vz := pzero |} in
  let v2 := {| Vector3.vx := mul (opp size) (lit 866 1000);
               Vector3.vy := mul (opp size) (lit 5 10);
               Vector3.vz := pzero |} in
  let v3 := {| Vector3.vx := mul size (lit 866 1000);
               Vector3.vy := mul (opp size) (lit 5 10);
               Vector3.vz := pzero |} in
  generateSierpinski v1 v2 v3 depth (lit 5 10)
    {| points := []; sacredValues := [] |}.

End SacredGeometry.

(** ** Ritual activation ([ritual-activation.ts]) *)

Module RitualActivation.
Import F64 JS.

Inductive Pattern : Type := spiral | fractal | flower | cube.

Record RitualTrigger : Type := {
  resonanceThreshold : float;
  frequency : float;
  pattern : Pattern;
  color : jsstring;
  name : jsstring;
  description : jsstring
}.

(** The four entries of the [rituals] array. *)
Definition golden_awakening : RitualTrigger :=
  {| resonanceThreshold := lit 95 100; frequency := of_Z 432;
     pattern := spiral; color := str "#FFD700";
     name := str "Golden Awakening";
     description := str "The code achieves phi resonance" |}.

Definition love_frequency : RitualTrigger :=
  {| resonanceThreshold := lit 90 100; frequency := of_Z 528;
     pattern := flower; color := str "#00FF00";
     name := str "Love Frequency";
     description := str "Harmonic healing patterns emerge" |}.

Definition liberation : RitualTrigger :=
  {| resonanceThreshold := lit 85 100; frequency := of_Z 396;
     pattern := fractal; color := str "#FF00FF";
     name := str "Liberation";
     description := str "Breaking free from fear patterns" |}.

Definition divine_connection : RitualTrigger :=
  {| resonanceThreshold := lit 98 100; frequency := of_Z 963;
     pattern := cube; color := str "#FFFFFF";
     name := str "Divine Connection";
     description := str "Unity with the cosmic consciousness" |}.

Definition rituals : list RitualTrigger :=
  [golden_awakening; love_frequency; liberation; divine_connection].

(** The pattern object an active ritual holds: its kind, where it
    was placed and its colour. *)
Record ActivePattern : Type := {
  kind : Pattern;
  placed_at : Vector3.t;
  tint : jsstring
}.

(** The map of active rituals, the fade-outs that were started (each
    removes its key when its animation completes, in a later frame)
    and the [ritualActivated] events dispatched so far. *)
Record t : Type := {
  activeRituals : JSMap.t ActivePattern;
  fading : list jsstring;
  dispatched : list (RitualTrigger * Vector3.t)
}.

Definition create : t :=
  {| activeRituals := []; fading := []; dispatched := [] |}.

(** [`${soulId}-${ritual.name}`] *)
Definition ritualKey (soulId : jsstring) (ritual : RitualTrigger)
  : jsstring :=
  soulId ++ str "-" ++ name ritual.

Definition activateRitual (st : t) (key : jsstring) (ritual : RitualTrigger)
  (position : Vector3.t) : t :=
  {| activeRituals :=
       JSMap.set (activeRituals st) key
         {| kind := pattern ritual; placed_at := position;
            tint := color ritual |};
     fading := fading st;
     dispatched := dispatched st ++ [(ritual, position)] |}.

Definition deactivateRitual (st : t) (key : jsstring) : t :=
  match JSMap.get (activeRituals st) key with
  | Some _ =>
      {| activeRituals := activeRituals st;
         fading := fading st ++ [key];
         dispatched := dispatched st |}
  | None => st
  end.

(** The callback a fade-out runs when it completes. *)
Definition fade_complete (st : t) (key : jsstring) : t :=
  {| activeRituals := JSMapMore.delete (activeRituals st) key;
     fading := fading st;
     dispatched := dispatched st |}.

Definition check_one (soulId : jsstring) (resonance : float)
  (position : Vector3.t) (st : t) (ritual : RitualTrigger) : t :=
  let key := ritualKey soulId ritual in
  if leb (resonanceThreshold ritual) resonance then
    if negb (JSMapMore.has (activeRituals st) key)
    then activateRitual st key ritual position
    else st
  else
    if JSMapMore.has (activeRituals st) key
    then deactivateRitual st key
    else st.

Definition checkActivation (st : t) (soulId : jsstring) (resonance : float)
  (position : Vector3.t) : t :=
  fold_left (check_one soulId resonance position) rituals st.

Definition getActiveRitualCount (st : t) : nat :=
  JSMapMore.size (activeRituals st).

Record RitualInfo : Type := {
  info_name : jsstring;
  info_active : bool;
  info_threshold : float
}.

Definition getRitualInfo (st : t) : list RitualInfo :=
  map (fun ritual =>
         {| info_name := name ritual;
            info_active :=
              existsb (fun key => JSMore.includes key (name ritual))
                (JSMapMore.keys (activeRituals st));
            info_threshold := resonanceThreshold ritual |})
    rituals.

Definition clearAllRituals (st : t) : t :=
  {| activeRituals := []; fading := fading st; dispatched := dispatched st |}.

End RitualActivation.

(** ** The visualization ([orrery-visualization.ts]): bodies, trails,
    resonance and the animation frame *)

Module OrreryVisualization.
Import F64 JS JSMore.

(** What the visualization keeps per body: the mesh's position and
    scale, the body data, the trail's position array and the
    resonance (absent until the first frame).  The orbit line and
    the materials, which are written once and not read again, are
    left out. *)
Record Body : Type := {
  mesh_position : Vector3.t;
  mesh_scale : Vector3.t;
  data : CelestialBody;
  trail : list float;
  resonance : option float
}.

Record t : Type := {
  bodies : JSMap.t Body;
  time : float;
  ritualActivation : RitualActivation.t
}.

(** The state the constructor builds, before its first frame. *)
Definition create : t :=
  {| bodies := []; time := pzero;
     ritualActivation := RitualActivation.create |}.

(** [createTrail]: a [Float32Array] of 30 points, all zero. *)
Definition createTrail : list float := repeat pzero (30 * 3).

(** [calculateResonance] starts from [data.kohanist].  A
    [CelestialBody] is the object literal [createCelestialBody]
    returns, which has no such property, and nothing assigns one:
    the read gives [undefined]. *)
Definition kohanist (data : CelestialBody) : jsval := Undefined.

Definition sacredFreqs : list float :=
  [of_Z 432; of_Z 528; of_Z 396; of_Z 963; of_Z 639; of_Z 741; of_Z 852].

Definition closest_sacred (freq : float) : completion float :=
  Array_reduce
    (fun prev curr =>
       if ltb (abs (sub curr freq)) (abs (sub prev freq)) then curr
       else prev)
    None sacredFreqs.

Section WithMath.
Context {M : MathImpl}.

(** [addBody]: the mesh is placed at the body's Cartesian
    position, with the default scale. *)
Definition addBody (v : t) (cid proteinHash : jsstring)
  (eigenvalues : list float) : completion (t * CelestialBody) :=
  bodyData <-
    Kepler432Lattice.createCelestialBody cid proteinHash eigenvalues ;;
  let body :=
    {| mesh_position := Kepler432Lattice.position bodyData;
       mesh_scale := {| Vector3.vx := of_Z 1; Vector3.vy := of_Z 1;
                        Vector3.vz := of_Z 1 |};
       data := bodyData;
       trail := createTrail;
       resonance := None |} in
  Normal ({| bodies := JSMap.set (bodies v) cid body;
             time := time v;
             ritualActivation := ritualActivation v |},
          bodyData).

Definition harmonic_term (sum : completion float) (freq : float)
  (i : nat) : completion float :=
  sum <- sum ;;
  closest <- closest_sacred freq ;;
  let distance := div (abs (sub freq closest)) closest in
  Normal (add sum (div (sub (of_Z 1) distance)
                     (of_Z (Z.of_nat i + 1)))).

Definition calculateResonance (time : float) (data : CelestialBody)
  : completion float :=
  let resonance := kohanist data in
  harmonicSum <-
    Array_reduce_indexed harmonic_term (Normal pzero) (harmonics data) ;;
  let resonance :=
    div (plus resonance
           (Number (div harmonicSum
                      (of_Z (Z.of_nat (length (harmonics data)))))))
      (of_Z 2) in
  let resonance :=
    add resonance (mul (JSMath.sin (mul time (of_Z 2))) (lit 5 100)) in
  Normal (Math_max [pzero; Math_min [of_Z 1; resonance]]).

(** The downward loop of [updateTrail], from index [i]. *)
Fixpoint shift_trail (fuel : nat) (positions : list float) (i : nat)
  : list float :=
  match fuel with
  | O => positions
  | S fuel' =>
      if (3 <=? i)%nat then
        let positions :=
          Float32Array_set positions i (typed_get positions (i - 3)) in
        let positions :=
          Float32Array_set positions (i + 1)
            (typed_get positions (i - 2)) in
        let positions :=
          Float32Array_set positions (i + 2)
            (typed_get positions (i - 1)) in
        shift_trail fuel' positions (i - 3)
      else positions
  end.

Definition updateTrail (positions : list float) (at_position : Vector3.t)
  : list float :=
  let positions :=
    shift_trail (length positions) positions (length positions - 3) in
  let positions :=
    Float32Array_set positions 0 (Number (Vector3.vx at_position)) in
  let positions :=
    Float32Array_set positions 1 (Number (Vector3.vy at_position)) in
  Float32Array_set positions 2 (Number (Vector3.vz at_position)).

(** [data.harmonics[0]], as a Number. *)
Definition first_harmonic (data : CelestialBody) : float :=
  ToNumber (match harmonics data with
            | [] => Undefined
            | h :: _ => Number h
            end).

(** The callback of [updateOrbits] for one body. *)
Definition update_body (time : float) (cid : jsstring) (body : Body)
  (rituals : RitualActivation.t)
  : completion (Body * RitualActivation.t) :=
  let coords := coordinates (data body) in
  let angularVelocity := div (mul (of_Z 2) JSMath.PI) (period coords) in
  let currentAngle := mul time angularVelocity in
  let r :=
    mul (r coords)
      (add (of_Z 1) (mul (eccentricity coords) (JSMath.cos currentAngle)))
  in
  let position :=
    {| Vector3.vx := mul r (JSMath.cos (add currentAngle (theta coords)));
       Vector3.vy :=
         mul (mul r (JSMath.sin (add currentAngle (theta coords))))
           (lit 1 10);
       Vector3.vz :=
         mul (mul r (JSMath.sin (add currentAngle (theta coords))))
           (JSMath.sin (phi coords)) |} in
  let trail := updateTrail (trail body) position in
  resonance <- calculateResonance time (data body) ;;
  let rituals :=
    RitualActivation.checkActivation rituals cid resonance position in
  let pulse :=
    add (of_Z 1)
      (mul (JSMath.sin (mul (mul time (first_harmonic (data body)))
                          (lit 1 100)))
         (lit 1 10)) in
  let scale :=
    mul pulse (add (of_Z 1) (mul resonance (lit 2 10))) in
  Normal ({| mesh_position := position;
             mesh_scale := {| Vector3.vx := scale; Vector3.vy := scale;
                              Vector3.vz := scale |};
             data := data body;
             trail := trail;
             resonance := Some resonance |},
          rituals).

(** [this.bodies.forEach(...)] of [updateOrbits]: the bodies are
    updated in place, in map order, and the ritual state is
    threaded through. *)
Fixpoint update_all (time : float) (bs : JSMap.t Body)
  (rituals : RitualActivation.t)
  : completion (JSMap.t Body * RitualActivation.t) :=
  match bs with
  | [] => Normal ([], rituals)
  | (cid, body) :: bs' =>
      updated <- update_body time cid body rituals ;;
      rest <- update_all time bs' (snd updated) ;;
      Normal ((cid, fst updated) :: fst rest, snd rest)
  end.

Definition updateOrbits (v : t) : completion t :=
  updated <- update_all (time v) (bodies v) (ritualActivation v) ;;
  Normal {| bodies := fst updated;
            time := time v;
            ritualActivation := snd updated |}.

(** One animation frame: the clock advances by [0.001], then the
    orbits are updated.  (The controls, the animation of the
    ritual patterns and the render read this state and leave it
    as it is.) *)
Definition animate (v : t) : completion t :=
  updateOrbits {| bodies := bodies v;
                  time := add (time v) (lit 1 1000);
                  ritualActivation := ritualActivation v |}.

Fixpoint frames (n : nat) (v : t) : completion t :=
  match n with
  | O => Normal v
  | S n' => v' <- animate v ;; frames n' v'
  end.

End WithMath.

Definition getBody (v : t) (cid : jsstring) : option Body :=
  JSMap.get (bodies v) cid.

(** [this.bodies.get(cid)?.resonance] *)
Definition getResonance (v : t) (cid : jsstring) : option float :=
  match JSMap.get (bodies v) cid with
  | Some body => resonance body
  | None => None
  end.

Definition clear (v : t) : t :=
  {| bodies := [];
     time := time v;
     ritualActivation :=
       RitualActivation.clearAllRituals (ritualActivation v) |}.

End OrreryVisualization.

(** ** The audio library

    The music system builds its synths and plays its notes with
    Tone.js, which is not part of the repository.  A call into the
    library returns or throws (the library checks the numbers it is
    handed), and which of the two is the library's to decide: the
    calls are parameters of the model, one per method of
    [music-of-spheres.ts] that the orrery reaches, each with the values
    the method passes on (a call's answer is taken to depend on those
    values only).  No statement depends on a particular library. *)

Class ToneImpl : Type := {
(** [addCelestialVoice]: [new Tone.PolySynth(Tone.Synth, {oscillator:
    {type}, envelope, volume})] and [synth.connect], from the
    oscillator type and the volume. *)
PolySynth_voice : MusicOfSpheres.OscillatorType -> F64.float
                  -> completion unit;
(** [playCelestialChord]: the notes of [body.melody], the pattern
    and the volume LFO. *)
celestial_chord : CelestialBody -> completion unit;
(** [playBirthChord]: [new Tone.PolySynth(Tone.FMSynth)], and a
    note attacked and released for each of the frequencies. *)
birth_chord : list F64.float -> completion unit;
(** [playResonance]: [new Tone.DuoSynth({vibratoAmount, vibratoRate,
    harmonicity})] and the interval of the two first frequencies,
    from the two bodies and their pull. *)
resonance : CelestialBody -> CelestialBody -> F64.float
            -> completion unit
}.

(** Two libraries to evaluate with: one that accepts every call, and
    one that refuses a synth whose volume is not a finite number, a
    note that is not a finite frequency, and every resonance. *)
Module RefTone.
Import F64.

Definition quiet : ToneImpl :=
  {| PolySynth_voice := fun _ _ => Normal tt;
     celestial_chord := fun _ => Normal tt;
     birth_chord := fun _ => Normal tt;
     resonance := fun _ _ _ => Normal tt |}.

Definition strict : ToneImpl :=
  {| PolySynth_voice :=
       fun _ volume =>
         if is_finite volume then Normal tt else Throw LibraryError;
     celestial_chord :=
       fun body =>
         if forallb is_finite (melody body) then Normal tt
         else Throw LibraryError;
     birth_chord :=
       fun frequencies =>
         if forallb is_finite frequencies then Normal tt
         else Throw LibraryError;
     resonance := fun _ _ _ => Throw LibraryError |}.
End RefTone.

(** ** JSON

    [exportState] hands its state to [JSON.stringify] and
    [importState] reads its argument with [JSON.parse].  The text
    between the two is represented by the values it denotes.  A number
    position of the text holds a number or [null]: [JSON.stringify]
    writes [null] for NaN and for the infinities and [0] for [-0], and
    for every other double the shortest digits that read back as that
    double. *)

Module JSON.
Import F64.

Inductive number : Type :=
| null
| num (f : float).

(** [JSON.stringify] at a Number. *)
Definition stringify (x : float) : number :=
  match x with
  | S754_nan | S754_infinity _ => null
  | S754_zero _ => num pzero
  | S754_finite _ _ _ => num x
  end.

(** The Number that [*] and [+] (with a Number on the other side)
    read from a parsed element: [ToNumber(null)] is [+0]. *)
Definition ToNumber (v : number) : float :=
  match v with
  | null => pzero
  | num f => f
  end.

(** The nine numbers of an [OrbitalCoordinates] object. *)
Record coordinates : Type := {
  j_r : number;
  j_theta : number;
  j_phi : number;
  j_x : number;
  j_y : number;
  j_z : number;
  j_period : number;
  j_velocity : number;
  j_eccentricity : number
}.

Definition stringify_coordinates (c : OrbitalCoordinates) : coordinates :=
  {| j_r := stringify (r c);
     j_theta := stringify (theta c);
     j_phi := stringify (phi c);
     j_x := stringify (x c);
     j_y := stringify (y c);
     j_z := stringify (z c);
     j_period := stringify (period c);
     j_velocity := stringify (velocity c);
     j_eccentricity := stringify (eccentricity c) |}.
End JSON.

(** ** The orrery ([cosmic-orrery.ts])

    The three stores of an orrery: its own [bodies] map, the
    visualization's map (each entry by the body data it keeps), and the
    music system, which exists only when audio is enabled. *)

Module CosmicOrrery.
Import JS.

Record Orrery : Type := {
  bodies : JSMap.t CelestialBody;
  visualization : JSMap.t CelestialBody;
  music : option MusicOfSpheres.t
}.

(** [new CosmicOrrery(config)]; [audioEnabled] is
    [config.audioEnabled !== false]. *)
Definition create (audioEnabled : bool) : Orrery :=
  {| bodies := [];
     visualization := [];
     music := if audioEnabled then Some MusicOfSpheres.create else None |}.

(** One element of [state.bodies] in the JSON text.  [exportState]
    writes all five properties.  [importState] reads [cid], [soul] and
    [harmonics] of whatever [JSON.parse] returns: [e_soul] is [None]
    when the entry has no [soul], or one that is [null] or not a
    string, and [e_harmonics] is [None] when it has no [harmonics],
    or one that is [null] or not an array.  The entries covered are
    those whose [cid] is a string and whose [harmonics], when an
    array, holds numbers and [null]s; the coordinates and the
    luminosity of an entry are never read back. *)
Record Entry : Type := {
  e_cid : jsstring;
  e_soul : option jsstring;
  e_coordinates : JSON.coordinates;
  e_harmonics : option (list JSON.number);
  e_luminosity : JSON.number
}.

(** A method call on an orrery: the state it leaves and how it
    completes.  A call that throws leaves the changes made before the
    throw in place. *)
Definition call (A : Type) : Type := Orrery -> Orrery * completion A.

Definition ret {A : Type} (a : A) : call A := fun o => (o, Normal a).

Definition lift {A : Type} (c : completion A) : call A := fun o => (o, c).

Definition and_then {A B : Type} (c : call A) (k : A -> call B) : call B :=
  fun o =>
    match c o with
    | (o', Normal a) => k a o'
    | (o', Throw e) => (o', Throw e)
    end.

Notation "x <~ c ;; k" := (and_then c (fun x => k))
  (at level 61, c at next level, right associativity).

Definition bodies_set (k : jsstring) (body : CelestialBody) : call unit :=
  fun o =>
    ({| bodies := JSMap.set (bodies o) k body;
        visualization := visualization o;
        music := music o |}, Normal tt).

(** [if (this.music) { ... }]: the block runs on the music system
    when there is one. *)
Definition if_music
  (block : MusicOfSpheres.t -> MusicOfSpheres.t * completion unit)
  : call unit :=
  fun o =>
    match music o with
    | Some m =>
        let '(m', c) := block m in
        ({| bodies := bodies o;
            visualization := visualization o;
            music := Some m' |}, c)
    | None => (o, Normal tt)
    end.

Section WithHost.
Context {M : MathImpl} {T : ToneImpl}.

(** [OrreryVisualization.addBody]: builds the body data with its
    own lattice and stores it under [cid]. *)
Definition visualization_addBody (cid proteinHash : jsstring)
  (eigenvalues : list F64.float) : call CelestialBody :=
  bodyData <~
    lift (Kepler432Lattice.createCelestialBody cid proteinHash
            eigenvalues) ;;
  (fun o =>
     ({| bodies := bodies o;
         visualization := JSMap.set (visualization o) cid bodyData;
         music := music o |}, Normal bodyData)).

(** [MusicOfSpheres.addCelestialVoice] with its calls into the
    library: the synth is built first, and nothing is stored when
    that throws; then the voice is stored; then, when the music is
    playing, the chord of the body is started. *)
Definition music_addCelestialVoice (body : CelestialBody)
  (m : MusicOfSpheres.t) : MusicOfSpheres.t * completion unit :=
  match
    PolySynth_voice (MusicOfSpheres.getOscillatorType body)
      (MusicOfSpheres.voice_volume body)
  with
  | Throw e => (m, Throw e)
  | Normal _ =>
      let m := MusicOfSpheres.addCelestialVoice m body in
      (m, if MusicOfSpheres.isPlaying m then celestial_chord body
          else Normal tt)
  end.

(** [MusicOfSpheres.playBirthChord]: a synth of its own, which
    leaves the voices as they are. *)
Definition music_playBirthChord (body : CelestialBody)
  (m : MusicOfSpheres.t) : MusicOfSpheres.t * completion unit :=
  (m, birth_chord (MusicOfSpheres.birth_frequencies body)).

(** [addCode], from the hasher's result [(phash, eigenTop)] on;
    [contentId] is [cid || proteinHash].  The body goes to the
    visualization, then to the music system, then into the
    orrery's own map (the lines logged after that do not throw). *)
Definition addCode (proteinHash : jsstring)
  (eigenvalues : list F64.float) (cid : option jsstring)
  : call CelestialBody :=
  let contentId :=
    match cid with
    | Some (c :: cs) => c :: cs
    | _ => proteinHash
    end in
  body <~
    lift (Kepler432Lattice.createCelestialBody contentId proteinHash
            eigenvalues) ;;
  _ <~ visualization_addBody contentId proteinHash eigenvalues ;;
  _ <~ if_music (fun m =>
                   match music_addCelestialVoice body m with
                   | (m, Normal _) => music_playBirthChord body m
                   | (m, Throw e) => (m, Throw e)
                   end) ;;
  _ <~ bodies_set contentId body ;;
  ret body.

(** [exportState]: the [bodies] array of the text, one entry per
    body in map order, every number as [JSON.stringify] writes it
    (the timestamp is not part of any body). *)
Definition export_entry (kv : jsstring * CelestialBody) : Entry :=
  let '(cid, body) := kv in
  {| e_cid := cid;
     e_soul := Some (soul body);
     e_coordinates := JSON.stringify_coordinates (coordinates body);
     e_harmonics := Some (map JSON.stringify (harmonics body));
     e_luminosity := JSON.stringify (luminosity body) |}.

Definition exportState (o : Orrery) : list Entry :=
  map export_entry (bodies o).

(** [createCelestialBody(bodyData.cid, bodyData.soul,
    bodyData.harmonics)] on a parsed entry.  [hashToBuffer] calls
    [replace] on the soul and [orbitalHarmonics] calls [map] on the
    harmonics, each a [TypeError] on a value that has no such
    method.  The lattice reads the elements of the array in
    products and in a sum that starts from a number, where [null]
    is [+0]: the melody and the luminosity are those of the numbers
    read.  The [harmonics] of the body are given as the numbers
    read too; the array the program keeps holds a [null] where an
    element was [null], which a later [exportState] writes as
    [null] again. *)
Definition createCelestialBody_parsed (cid : jsstring)
  (soul : option jsstring) (harmonics : option (list JSON.number))
  : completion CelestialBody :=
  match soul, harmonics with
  | Some proteinHash, Some eigenvalues =>
      Kepler432Lattice.createCelestialBody cid proteinHash
        (map JSON.ToNumber eigenvalues)
  | _, _ => Throw TypeError
  end.

Definition visualization_addBody_parsed (bodyData : Entry)
  : call CelestialBody :=
  built <~
    lift (createCelestialBody_parsed (e_cid bodyData) (e_soul bodyData)
            (e_harmonics bodyData)) ;;
  (fun o =>
     ({| bodies := bodies o;
         visualization :=
           JSMap.set (visualization o) (e_cid bodyData) built;
         music := music o |}, Normal built)).

(** The body of the [for] loop of [importState]. *)
Definition import_entry (bodyData : Entry) : call unit :=
  _ <~ visualization_addBody_parsed bodyData ;;
  (fun o =>
     match music o with
     | Some _ =>
         (body <~
            lift (createCelestialBody_parsed (e_cid bodyData)
                    (e_soul bodyData) (e_harmonics bodyData)) ;;
          _ <~ if_music (music_addCelestialVoice body) ;;
          bodies_set (e_cid bodyData) body) o
     | None => (o, Normal tt)
     end).

(** [importState], from the array [state.bodies] on, for a text
    that parses to an object with such an array: the loop ends at
    the first entry that throws. *)
Fixpoint importState (state : list Entry) : call unit :=
  match state with
  | [] => ret tt
  | bodyData :: rest =>
      _ <~ import_entry bodyData ;;
      importState rest
  end.

(** A stored entry is the factory's output for its key and for
    the soul and harmonics it carries: what [addCode] and
    [importState] put in the maps. *)
Definition factory_built (kv : jsstring * CelestialBody) : Prop :=
  Kepler432Lattice.createCelestialBody (fst kv) (soul (snd kv))
    (harmonics (snd kv))
  = Normal (snd kv).

End WithHost.
End CosmicOrrery.

(** ** The rest of the orrery ([cosmic-orrery.ts]) *)

Module CosmicOrreryOps.
Import F64 JS CosmicOrrery.

(** [clear]: the visualization and the orrery's own map are emptied;
    the music system is stopped, which releases the voices' notes
    and keeps the voices. *)
Definition clear (o : Orrery) : Orrery :=
  {| bodies := [];
     visualization := [];
     music := option_map MusicOfSpheres.stop (music o) |}.

(** [dispose]: [clear], then [music.dispose()], which clears the
    voices. *)
Definition dispose (o : Orrery) : Orrery :=
  let o := clear o in
  {| bodies := bodies o;
     visualization := visualization o;
     music := option_map MusicOfSpheres.dispose (music o) |}.

Record Statistics : Type := {
  totalBodies : nat;
  totalMass : float;
  centerOfMass : Vector3.t;
  all_bodies : list CelestialBody
}.

(** The four running sums of [getStatistics]. *)
Record Sums : Type := {
  s_mass : float;
  s_x : float;
  s_y : float;
  s_z : float
}.

Definition accumulate (s : Sums) (body : CelestialBody) : Sums :=
  {| s_mass := add (s_mass s) (luminosity body);
     s_x := add (s_x s) (mul (x (coordinates body)) (luminosity body));
     s_y := add (s_y s) (mul (y (coordinates body)) (luminosity body));
     s_z := add (s_z s) (mul (z (coordinates body)) (luminosity body)) |}.

Definition getStatistics (o : Orrery) : Statistics :=
  let sums :=
    fold_left accumulate (JSMapMore.values (bodies o))
      {| s_mass := pzero; s_x := pzero; s_y := pzero; s_z := pzero |} in
  let totalMass := s_mass sums in
  {| totalBodies := JSMapMore.size (bodies o);
     totalMass := totalMass;
     centerOfMass :=
       {| Vector3.vx :=
            if ltb pzero totalMass then div (s_x sums) totalMass else pzero;
          Vector3.vy :=
            if ltb pzero totalMass then div (s_y sums) totalMass else pzero;
          Vector3.vz :=
            if ltb pzero totalMass then div (s_z sums) totalMass
            else pzero |};
     all_bodies := JSMapMore.values (bodies o) |}.

(** The index pairs [(i, j)], [i < j < n], in the order the two
    loops of [calculateGravitationalField] visit them. *)
Definition index_pairs (n : nat) : list (nat * nat) :=
  flat_map (fun i => map (pair i) (seq (i + 1) (n - (i + 1)))) (seq 0 n).

Section WithHost.
Context {M : MathImpl} {T : ToneImpl}.

(** One pass through the inner loop body: the line it logs, if
    any, and how it completes.  The log line is written before the
    resonance is played. *)
Definition field_step (audio : bool) (bodies : list CelestialBody)
  (ij : nat * nat) : list (nat * nat * float) * completion unit :=
  match nth_error bodies (fst ij), nth_error bodies (snd ij) with
  | Some bi, Some bj =>
      let pull := Kepler432Lattice.gravitationalPull bi bj in
      if ltb (lit 1 10) pull then
        ([(fst ij, snd ij, pull)],
         if audio then resonance bi bj pull else Normal tt)
      else ([], Normal tt)
  | _, _ => ([], Normal tt)
  end.

Fixpoint field_loop (audio : bool) (bodies : list CelestialBody)
  (pairs : list (nat * nat)) : list (nat * nat * float) * completion unit :=
  match pairs with
  | [] => ([], Normal tt)
  | ij :: rest =>
      match field_step audio bodies ij with
      | (logged, Normal _) =>
          let '(more, c) := field_loop audio bodies rest in
          (logged ++ more, c)
      | (logged, Throw e) => (logged, Throw e)
      end
  end.

(** [calculateGravitationalField]: the pairs for which the
    strong-gravity branch runs, in loop order, each with its pull,
    and how the call completes: a throw of [playResonance] ends
    both loops. *)
Definition calculateGravitationalField (o : Orrery)
  (bodies : list CelestialBody)
  : list (nat * nat * float) * completion unit :=
  field_loop (match music o with Some _ => true | None => false end)
    bodies (index_pairs (length bodies)).

(** [ProteinHasher.computeHash], of the package
    [@soul-forge/protein-hash]: the pair [(phash, eigenTop)] of
    its result. *)
Variable computeHash : jsstring -> jsstring * list float.




End WithHost.
End CosmicOrreryOps.
(** ** Vocabulary of the further statements *)

(** The scale of a mesh all three components of which are NaN. *)
Definition nan_scale : Vector3.t :=
  {| Vector3.vx := F64.nan; Vector3.vy := F64.nan; Vector3.vz := F64.nan |}.

(** The state of a trail array part-way through the downward loop of
    [updateTrail]: the elements from index [j] on already hold the
    value that was three places before them, the others are
    untouched. *)
Definition trail_shifted (old : list float) (j : nat) (cur : list float)
  : Prop :=
  length cur = length old
  /\ forall k, (k < length old)%nat ->
       nth_error cur k
       = if (k <? j)%nat then nth_error old k
         else option_map JSMore.fround (nth_error old (k - 3)).

(** The key [addCode] files a body under: [cid || proteinHash]. *)
Definition contentId_of (cid : option JS.jsstring) (proteinHash : JS.jsstring)
  : JS.jsstring :=
  match cid with
  | Some (c :: cs) => c :: cs
  | _ => proteinHash
  end.

(** The orrery's own map is well formed: no key occurs twice, and each
    entry is what the factory builds for its key from the soul and
    harmonics it carries. *)
Definition orrery_wf {M : MathImpl} (o : CosmicOrrery.Orrery) : Prop :=
  NoDup (map fst (CosmicOrrery.bodies o))
  /\ Forall CosmicOrrery.factory_built (CosmicOrrery.bodies o).

(** The states an orrery goes through, whatever the audio library
    does: a call that throws leaves the orrery in the state it had
    reached. *)
Inductive reachable {M : MathImpl} {T : ToneImpl}
  : CosmicOrrery.Orrery -> Prop :=
| reach_create audioEnabled : reachable (CosmicOrrery.create audioEnabled)
| reach_addCode o proteinHash eigenvalues cid :
    reachable o ->
    reachable (fst (CosmicOrrery.addCode proteinHash eigenvalues cid o))
| reach_importState o state :
    reachable o ->
    reachable (fst (CosmicOrrery.importState state o))
| reach_clear o : reachable o -> reachable (CosmicOrreryOps.clear o)
| reach_dispose o : reachable o -> reachable (CosmicOrreryOps.dispose o).

(** An orrery with audio that holds the body of the test CID (under a
    library that accepts its voice). *)
Definition one_body_orrery : CosmicOrrery.Orrery :=
  fst (CosmicOrrery.addCode (M := RefMath.host) (T := RefTone.quiet)
         testCID sample_eigenvalues None (CosmicOrrery.create true)).

(** A body whose eigenvalue list is empty, and an orrery without
    audio that holds it. *)
Definition dark_orrery : CosmicOrrery.Orrery :=
  fst (CosmicOrrery.addCode (M := RefMath.host) (T := RefTone.quiet)
         testCID [] None (CosmicOrrery.create false)).

(** A number that a JSON text carries as it is: finite, and not
    [-0]. *)
Definition json_exact (x : F64.float) : bool :=
  match x with
  | S754_zero false | S754_finite _ _ _ => true
  | _ => false
  end.

(** A parsed entry the import loop can build a body from: it has a
    soul that is a string and harmonics that are an array. *)
Definition importable (bodyData : CosmicOrrery.Entry) : bool :=
  match CosmicOrrery.e_soul bodyData, CosmicOrrery.e_harmonics bodyData with
  | Some _, Some _ => true
  | _, _ => false
  end.

(** Eigenvalues one of which is NaN, the body the factory builds from
    them, and an orrery without audio that holds it. *)
Definition clouded_eigenvalues : list F64.float := [F64.lit 5 10; F64.nan].

Definition clouded_body : CelestialBody :=
  match
    Kepler432Lattice.createCelestialBody (M := RefMath.host) testCID testCID
      clouded_eigenvalues
  with
  | Normal body => body
  | Throw _ => lagrange_primary
  end.

Definition clouded_orrery : CosmicOrrery.Orrery :=
  fst (CosmicOrrery.addCode (M := RefMath.host) (T := RefTone.quiet)
         testCID clouded_eigenvalues None (CosmicOrrery.create false)).

(** The body the factory builds from the hash [far_hash] and no
    eigenvalues: its luminosity is NaN. *)
Definition eclipsed_body : CelestialBody :=
  match
    Kepler432Lattice.createCelestialBody (M := RefMath.host) far_hash far_hash
      []
  with
  | Normal body => body
  | Throw _ => lagrange_primary
  end.

(** The real number a finite double denotes. *)
Definition value (f : F64.float) : R :=
  match f with
  | S754_finite s m e => Rounding.F2R (cond_Zopp s (Zpos m)) e
  | _ => 0%R
  end.

(** An angle of the first turn: a double in [0, 2*PI). *)
Definition in_turn (a : F64.float) : bool :=
  F64.valid a && F64.leb F64.pzero a
  && F64.ltb a Kepler432Lattice.two_pi.

(** [y] is the angle [x] reduced modulo [2*PI]: it lies in the first
    turn and differs from [x] by a whole number of turns. *)
Definition reduced_angle (x y : F64.float) : Prop :=
  F64.is_finite x = true
  /\ in_turn y = true
  /\ exists k : Z,
       value x = (value y + IZR k * value Kepler432Lattice.two_pi)%R.

(** The five colours of [orbitalColor]. *)
Definition hot_blue : Color :=
  Kepler432Lattice.rgb (F64.lit 7 10) (F64.lit 7 10) (F64.of_Z 1).
Definition white : Color :=
  Kepler432Lattice.rgb (F64.of_Z 1) (F64.of_Z 1) (F64.of_Z 1).
Definition yellow : Color :=
  Kepler432Lattice.rgb (F64.of_Z 1) (F64.of_Z 1) (F64.lit 7 10).
Definition orange : Color :=
  Kepler432Lattice.rgb (F64.of_Z 1) (F64.lit 7 10) (F64.lit 4 10).
Definition red_dwarf : Color :=
  Kepler432Lattice.rgb (F64.of_Z 1) (F64.lit 4 10) (F64.lit 4 10).

(** The colour band of the remainder [k] of the first word by 1000. *)
Definition band_color (k : Z) : Color :=
  if k <? 200 then hot_blue
  else if k <? 400 then white
  else if k <? 600 then yellow
  else if k <? 800 then orange
  else red_dwarf.

(** The comparisons of [orbitalColor] and [getOscillatorType] at the
    radius [k / 1000] agree with the comparisons of [k] with 200, 400,
    600 and 800. *)
Definition band_edges_agree (k : Z) : bool :=
  Bool.eqb (F64.ltb (radius_of k) (F64.lit 2 10)) (k <? 200)
  && Bool.eqb (F64.ltb (radius_of k) (F64.lit 4 10)) (k <? 400)
  && Bool.eqb (F64.ltb (radius_of k) (F64.lit 6 10)) (k <? 600)
  && Bool.eqb (F64.ltb (radius_of k) (F64.lit 8 10)) (k <? 800).

Definition remainders_1000 : list Z := map Z.of_nat (seq 0 1000).

Definition has_nan_position (c : OrbitalCoordinates) : bool :=
  F64.is_nan (x c) || F64.is_nan (y c) || F64.is_nan (z c).

(** A body whose Cartesian position has a NaN component. *)
Definition adrift_body : CelestialBody :=
  {| cid := JS.str "adrift";
     soul := JS.str "adrift";
     coordinates :=
       {| r := F64.lit 4 10; theta := F64.of_Z 1; phi := F64.pzero;
          x := F64.nan; y := F64.pzero; z := F64.pzero;
          period := F64.pzero; velocity := F64.pzero;
          eccentricity := F64.pzero |};
     harmonics := [F64.of_Z 1];
     luminosity := F64.lit 5 10;
     color := white;
     melody := [] |}.

(** A hash that agrees with the all-zero hash on its first 32
    characters only. *)
Definition zero_then_f_hash : JS.jsstring :=
  JS.str "00000000000000000000000000000000ffffffffffffffffffffffffffffffff".

(** The ritual state after a check of the test CID at resonance 1:
    all four of its rituals are active. *)
Definition awakened : RitualActivation.t :=
  RitualActivation.checkActivation RitualActivation.create testCID
    (F64.of_Z 1)
    {| Vector3.vx := F64.pzero; Vector3.vy := F64.pzero;
       Vector3.vz := F64.pzero |}.

(** Upper case for the hexadecimal letters: [a]-[f] become [A]-[F],
    every other code unit stays. *)
Definition hex_upper (c : JS.code_unit) : JS.code_unit :=
  if (N.leb 97 c && N.leb c 102)%N then (c - 32)%N else c.

(** A hash with lower-case hexadecimal letters, after a prefix. *)
Definition lower_hash_tail : JS.jsstring :=
  JS.str "deadbeef00c0ffee".

(** * Rounding facts

    What [binary_round_aux] and the arithmetic built on it compute, in
    terms of real values.  These are the properties of binary64
    arithmetic the claims about ranges and bounds rest on. *)

Module RoundingFacts.
Import Rounding.

Lemma bpow_gt_0 e : (0 < bpow e)%R.
Proof. apply powerRZ_lt; lra. Qed.

Lemma bpow_add a b : bpow (a + b) = (bpow a * bpow b)%R.
Proof. apply powerRZ_add; lra. Qed.

Lemma bpow_IZR n : 0 <= n -> bpow n = IZR (2 ^ n).
Proof.
  intros Hn. unfold bpow.
  rewrite <- (Z2Nat.id n) by assumption.
  rewrite <- pow_powerRZ, pow_IZR. reflexivity.
Qed.

Lemma bpow_le a b : a <= b -> (bpow a <= bpow b)%R.
Proof.
  intros H. replace b with (a + (b - a)) by lia.
  rewrite bpow_add, (bpow_IZR (b - a)) by lia.
  assert (0 < 2 ^ (b - a)) by (apply Z.pow_pos_nonneg; lia).
  assert (1 <= 2 ^ (b - a)) by lia.
  apply IZR_le in H1. pose proof (bpow_gt_0 a). nra.
Qed.

Lemma bpow_lt a b : a < b -> (bpow a < bpow b)%R.
Proof.
  intros H. replace b with (a + (b - a)) by lia.
  rewrite bpow_add, (bpow_IZR (b - a)) by lia.
  assert (2 ^ 1 <= 2 ^ (b - a)) by (apply Z.pow_le_mono_r; lia).
  apply IZR_le in H0. change (2 ^ 1) with 2 in H0.
  pose proof (bpow_gt_0 a). nra.
Qed.

Lemma bpow_succ e : bpow (e + 1) = (2 * bpow e)%R.
Proof. rewrite bpow_add. change (bpow 1) with (2 * 1)%R. lra. Qed.

Lemma F2R_shift m e n : 0 <= n -> F2R (m * 2 ^ n) e = F2R m (e + n).
Proof.
  intros H. unfold F2R. rewrite mult_IZR, bpow_add, (bpow_IZR n) by lia. ring.
Qed.

Lemma F2R_le m1 m2 e : m1 <= m2 -> (F2R m1 e <= F2R m2 e)%R.
Proof.
  intros H. unfold F2R. apply IZR_le in H. pose proof (bpow_gt_0 e). nra.
Qed.

Lemma F2R_lt m1 m2 e : m1 < m2 -> (F2R m1 e < F2R m2 e)%R.
Proof.
  intros H. unfold F2R. apply IZR_lt in H. pose proof (bpow_gt_0 e). nra.
Qed.

Lemma F2R_lt_inv m1 m2 e : (F2R m1 e < F2R m2 e)%R -> m1 < m2.
Proof.
  intros H. destruct (Z_lt_le_dec m1 m2) as [|Hle]; [assumption|].
  apply (F2R_le _ _ e) in Hle. lra.
Qed.

Lemma F2R_le_inv m1 m2 e : (F2R m1 e <= F2R m2 e)%R -> m1 <= m2.
Proof.
  intros H. destruct (Z_le_gt_dec m1 m2) as [|Hgt]; [assumption|].
  apply Z.gt_lt, (F2R_lt _ _ e) in Hgt. lra.
Qed.

Lemma F2R_succ m e : F2R (m + 1) e = (F2R m e + bpow e)%R.
Proof. unfold F2R. rewrite plus_IZR. ring. Qed.

Lemma digits2_pos_bounds p :
  2 ^ (Zpos (digits2_pos p) - 1) <= Zpos p < 2 ^ Zpos (digits2_pos p).
Proof.
  induction p as [p IH|p IH|]; cbn [digits2_pos].
  - rewrite Pos2Z.inj_succ. change (Zpos p~1) with (2 * Zpos p + 1).
    replace (Z.succ (Zpos (digits2_pos p)) - 1) with (Z.succ (Zpos (digits2_pos p) - 1)) by lia.
    rewrite !Z.pow_succ_r by lia.
    remember (2 ^ (Zpos (digits2_pos p) - 1)) as a; remember (2 ^ Zpos (digits2_pos p)) as b; clear Heqa Heqb; lia.
  - rewrite Pos2Z.inj_succ. change (Zpos p~0) with (2 * Zpos p).
    replace (Z.succ (Zpos (digits2_pos p)) - 1) with (Z.succ (Zpos (digits2_pos p) - 1)) by lia.
    rewrite !Z.pow_succ_r by lia.
    remember (2 ^ (Zpos (digits2_pos p) - 1)) as a; remember (2 ^ Zpos (digits2_pos p)) as b; clear Heqa Heqb; lia.
  - cbn. lia.
Qed.

Lemma Zdigits2_bounds m : 0 < m -> 2 ^ (Zdigits2 m - 1) <= m < 2 ^ Zdigits2 m.
Proof. destruct m; try lia. intros _. apply digits2_pos_bounds. Qed.

Lemma Zdigits2_pos m : 0 < m -> 0 < Zdigits2 m.
Proof. destruct m; simpl; lia. Qed.

Lemma Zdigits2_unique m d : 0 < m -> 2 ^ (d - 1) <= m < 2 ^ d -> Zdigits2 m = d.
Proof.
  intros Hm [H1 H2]. pose proof (Zdigits2_bounds m Hm) as [H3 H4].
  pose proof (Zdigits2_pos m Hm).
  assert (0 < d).
  { destruct (Z_lt_le_dec 0 d) as [|Hd]; auto. exfalso.
    destruct (Z.eq_dec d 0) as [->|]; [simpl in H2; lia|].
    rewrite Z.pow_neg_r in H2 by lia. lia. }
  destruct (Z.lt_trichotomy (Zdigits2 m) d) as [Hlt|[Heq|Hgt]]; [|assumption|].
  - assert (2 ^ Zdigits2 m <= 2 ^ (d - 1)) by (apply Z.pow_le_mono_r; lia). lia.
  - assert (2 ^ d <= 2 ^ (Zdigits2 m - 1)) by (apply Z.pow_le_mono_r; lia). lia.
Qed.

Lemma Zdigits2_div m n : 0 < m -> 0 <= n -> n < Zdigits2 m ->
  0 < m / 2 ^ n /\ Zdigits2 (m / 2 ^ n) = Zdigits2 m - n.
Proof.
  intros Hm Hn Hd. pose proof (Zdigits2_bounds m Hm) as [H1 H2].
  assert (Hp : 0 < 2 ^ n) by (apply Z.pow_pos_nonneg; lia).
  assert (Hlo : 2 ^ (Zdigits2 m - n - 1) <= m / 2 ^ n).
  { apply Z.div_le_lower_bound; [assumption|].
    rewrite <- Z.pow_add_r by lia. replace (n + (Zdigits2 m - n - 1)) with (Zdigits2 m - 1) by lia. assumption. }
  assert (Hhi : m / 2 ^ n < 2 ^ (Zdigits2 m - n)).
  { apply Z.div_lt_upper_bound; [assumption|].
    rewrite <- Z.pow_add_r by lia. replace (n + (Zdigits2 m - n)) with (Zdigits2 m) by lia. assumption. }
  assert (0 < 2 ^ (Zdigits2 m - n - 1)) by (apply Z.pow_pos_nonneg; lia).
  split; [lia|]. apply Zdigits2_unique; [lia|]. split; assumption.
Qed.

Lemma F2R_digits_lt m e : 0 < m -> (F2R m e < bpow (Zdigits2 m + e))%R.
Proof.
  intros Hm. pose proof (Zdigits2_bounds m Hm) as [_ H]. pose proof (Zdigits2_pos m Hm).
  rewrite bpow_add, bpow_IZR by lia. unfold F2R. apply IZR_lt in H. pose proof (bpow_gt_0 e). nra.
Qed.

Lemma F2R_digits_ge m e : 0 < m -> (bpow (Zdigits2 m - 1 + e) <= F2R m e)%R.
Proof.
  intros Hm. pose proof (Zdigits2_bounds m Hm) as [H _]. pose proof (Zdigits2_pos m Hm).
  rewrite bpow_add, bpow_IZR by lia. unfold F2R. apply IZR_le in H. pose proof (bpow_gt_0 e). nra.
Qed.

Lemma iter_pos_nat {A : Type} (f : A -> A) p x :
  iter_pos f p x = Nat.iter (Pos.to_nat p) f x.
Proof.
  revert x. induction p as [p IH|p IH|]; intros x; cbn [iter_pos].
  - rewrite !IH, Pos2Nat.inj_xI, <- Nat.iter_add.
    replace (2 * Pos.to_nat p)%nat with (Pos.to_nat p + Pos.to_nat p)%nat by lia.
    symmetry. apply Nat.iter_succ_r.
  - rewrite !IH, Pos2Nat.inj_xO, <- Nat.iter_add.
    f_equal. lia.
  - reflexivity.
Qed.

Lemma loc_of_shr_record_of_loc m l :
  loc_of_shr_record (shr_record_of_loc m l) = l.
Proof. destruct l as [|[]]; reflexivity. Qed.

Lemma shr_m_of_loc m l : shr_m (shr_record_of_loc m l) = m.
Proof. destruct l as [|[]]; reflexivity. Qed.

Lemma IZR_xO p : IZR (Zpos p~0) = (2 * IZR (Zpos p))%R.
Proof. change (Zpos p~0) with (2 * Zpos p). now rewrite mult_IZR. Qed.

Lemma IZR_xI p : IZR (Zpos p~1) = (2 * IZR (Zpos p) + 1)%R.
Proof. change (Zpos p~1) with (2 * Zpos p + 1). now rewrite plus_IZR, mult_IZR. Qed.

Lemma shr_1_inb mrs e x :
  0 <= shr_m mrs ->
  inb (shr_m mrs) e (loc_of_shr_record mrs) x ->
  0 <= shr_m (shr_1 mrs)
  /\ shr_m (shr_1 mrs) = shr_m mrs / 2
  /\ inb (shr_m (shr_1 mrs)) (e + 1) (loc_of_shr_record (shr_1 mrs)) x.
Proof.
  destruct mrs as [m r s]. cbn [shr_m]. intros Hm H.
  destruct H as ((Hlo & Hhi) & Hex & Hin).
  pose proof (bpow_gt_0 e) as Hb.
  unfold inb. rewrite !F2R_succ in *. unfold F2R in *. rewrite bpow_succ.
  destruct m as [|p|p]; [|destruct p as [p|p|]|lia].
  - split; [simpl; lia|]. split; [reflexivity|].
    cbn [shr_1 shr_m]. shr_flags r s Hex Hin.
  - split; [simpl; lia|]. split.
    { cbn [shr_1 shr_m]. apply (Z.div_unique _ _ _ 1); lia. }
    cbn [shr_1 shr_m]. rewrite IZR_xI in *. shr_flags r s Hex Hin.
  - split; [simpl; lia|]. split.
    { cbn [shr_1 shr_m]. apply (Z.div_unique _ _ _ 0); lia. }
    cbn [shr_1 shr_m]. rewrite IZR_xO in *. shr_flags r s Hex Hin.
  - split; [simpl; lia|]. split; [reflexivity|].
    cbn [shr_1 shr_m]. shr_flags r s Hex Hin.
Qed.

Lemma shr_iter_inb n mrs e x :
  0 <= shr_m mrs ->
  inb (shr_m mrs) e (loc_of_shr_record mrs) x ->
  let mrs' := Nat.iter n shr_1 mrs in
  0 <= shr_m mrs'
  /\ shr_m mrs' = shr_m mrs / 2 ^ Z.of_nat n
  /\ inb (shr_m mrs') (e + Z.of_nat n) (loc_of_shr_record mrs') x.
Proof.
  intros Hm H. induction n as [|n IH].
  - cbn [Nat.iter nat_rect]. rewrite Z.add_0_r. change (2 ^ Z.of_nat 0) with 1.
    rewrite Z.div_1_r. auto.
  - cbn zeta in *. rewrite Nat.iter_succ. destruct IH as (H0 & H1 & H2).
    destruct (shr_1_inb _ _ _ H0 H2) as (H3 & H4 & H5).
    split; [assumption|]. split.
    + rewrite H4, H1, Nat2Z.inj_succ, Z.pow_succ_r by lia.
      rewrite Z.div_div by (try apply Z.pow_pos_nonneg; lia).
      f_equal. ring.
    + replace (e + Z.of_nat (S n)) with (e + Z.of_nat n + 1) by lia. assumption.
Qed.

Lemma fexp64_eq e : fexp64 e = Z.max (e - 53) (-1074).
Proof. reflexivity. Qed.

Lemma shr_fexp_inb m e l x :
  0 <= m -> inb m e l x -> e <= fexp64 (Zdigits2 m + e) ->
  let '(mrs', e') := shr_fexp 53 1024 m e l in
  e' = fexp64 (Zdigits2 m + e)
  /\ shr_m mrs' = m / 2 ^ (e' - e)
  /\ inb (shr_m mrs') e' (loc_of_shr_record mrs') x.
Proof.
  intros Hm H He. unfold shr_fexp, shr. fold (fexp64 (Zdigits2 m + e)).
  remember (fexp64 (Zdigits2 m + e)) as e'.
  destruct (e' - e) as [|p|p] eqn:Hn; [| |lia].
  - replace e' with e by lia. rewrite Z.sub_diag, shr_m_of_loc, loc_of_shr_record_of_loc.
    change (2 ^ 0) with 1. rewrite Z.div_1_r. auto.
  - rewrite iter_pos_nat.
    assert (H0 : 0 <= shr_m (shr_record_of_loc m l)) by (rewrite shr_m_of_loc; lia).
    assert (H1 : inb (shr_m (shr_record_of_loc m l)) e
                   (loc_of_shr_record (shr_record_of_loc m l)) x)
      by (rewrite shr_m_of_loc, loc_of_shr_record_of_loc; assumption).
    destruct (shr_iter_inb (Pos.to_nat p) _ _ _ H0 H1) as (_ & H2 & H3).
    rewrite positive_nat_Z, shr_m_of_loc in *.
    split; [lia|]. split.
    + rewrite H2. f_equal. f_equal. lia.
    + replace e' with (e + Zpos p) by lia. assumption.
Qed.

Lemma canonical_mantissa_iff m e :
  canonical_mantissa 53 1024 m e = true <-> canonical (Zpos m) e.
Proof.
  unfold canonical_mantissa, canonical. cbn [Zdigits2].
  fold (fexp64 (Zpos (digits2_pos m) + e)). rewrite Z.eqb_eq. split; auto.
Qed.

Lemma canonical_digits m e : 0 < m -> canonical m e ->
  Zdigits2 m <= 53 /\ -1074 <= e /\ (-1074 < e -> Zdigits2 m = 53).
Proof.
  unfold canonical. rewrite fexp64_eq. intros Hm H. lia.
Qed.

(** No canonical float lies strictly between two neighbours of the
    rounding lattice. *)
Lemma float_lattice mb eb m1 e' E :
  0 < mb -> canonical mb eb -> 0 <= m1 ->
  e' = fexp64 E ->
  (e' = -1074 \/ (bpow (E - 1) <= F2R m1 e')%R) ->
  (F2R mb eb <= F2R m1 e')%R \/ (F2R (m1 + 1) e' <= F2R mb eb)%R.
Proof.
  intros Hmb Hc Hm1 He' Hlat.
  destruct (Z_le_gt_dec e' eb) as [Hle|Hgt].
  - replace eb with (e' + (eb - e')) by lia.
    rewrite <- F2R_shift by lia.
    destruct (Z_le_gt_dec (mb * 2 ^ (eb - e')) m1).
    + left. now apply F2R_le.
    + right. apply F2R_le. lia.
  - left. destruct (canonical_digits _ _ Hmb Hc) as (Hd & Hmin & _).
    destruct Hlat as [Hlat|Hlat]; [lia|].
    pose proof (F2R_digits_lt mb eb Hmb) as Hlt.
    assert (Zdigits2 mb + eb <= E - 1).
    { unfold canonical in Hc. rewrite fexp64_eq in *. lia. }
    pose proof (bpow_le _ _ H). lra.
Qed.

Lemma round_nearest_even_cases m l :
  (round_nearest_even m l = m \/ round_nearest_even m l = m + 1)
  /\ (l = loc_Exact -> round_nearest_even m l = m).
Proof.
  destruct l as [|[]]; cbn; try destruct (Z.even m); auto.
  all: split; auto; discriminate.
Qed.

Lemma finish_round s m e :
  0 < m -> canonical m e ->
  represents s (F2R m e)
    (match m with
     | 0 => S754_zero s
     | Zpos p => if e <=? 1024 - 53 then S754_finite s p e else S754_infinity s
     | Zneg _ => S754_nan
     end).
Proof.
  intros Hm Hc. destruct m as [|p|p]; try lia.
  destruct (canonical_digits _ _ Hm Hc) as (Hd & Hmin & Hn).
  destruct (Z.leb_spec e (1024 - 53)) as [Hle|Hgt].
  - right; left. exists p, e. split; [reflexivity|]. split; [|reflexivity].
    unfold bounded. apply andb_true_intro. split.
    + now apply canonical_mantissa_iff.
    + now apply Z.leb_le.
  - right; right. split; [|reflexivity].
    pose proof (F2R_digits_ge (Zpos p) e Hm) as H.
    assert (1024 <= Zdigits2 (Zpos p) - 1 + e) by lia.
    pose proof (bpow_le _ _ H0). lra.
Qed.

Theorem binary_round_aux_correct sx mx ex lx x :
  0 <= mx -> inb mx ex lx x -> ex <= fexp64 (Zdigits2 mx + ex) ->
  exists v, rounds_to x v
            /\ represents sx v (binary_round_aux 53 1024 sx mx ex lx).
Proof.
  intros Hmx Hx Hpre. unfold binary_round_aux.
  pose proof (shr_fexp_inb mx ex lx x Hmx Hx Hpre) as H1.
  destruct (shr_fexp 53 1024 mx ex lx) as [mrs' e'].
  destruct H1 as (He' & Hm1 & Hinb).
  set (d := Zdigits2 mx) in *. set (E := d + ex) in *.
  set (m1 := shr_m mrs') in *. set (l1 := loc_of_shr_record mrs') in *.
  destruct (round_nearest_even_cases m1 l1) as (Hm2 & Hm2ex).
  set (m2 := round_nearest_even m1 l1) in *.
  assert (Hn : 0 <= e' - ex) by lia.
  assert (Hd0 : mx = 0 -> d = 0) by (intros ->; reflexivity).
  assert (Hdb : 0 < mx -> 2 ^ (d - 1) <= mx < 2 ^ d /\ 0 < d).
  { intros Hp. split; [apply Zdigits2_bounds|apply Zdigits2_pos]; assumption. }
  assert (Hm1nn : 0 <= m1).
  { rewrite Hm1. apply Z.div_pos; [lia|]. apply Z.pow_pos_nonneg; lia. }
  (* the lattice condition *)
  assert (Hlat : e' = -1074 \/ (bpow (E - 1) <= F2R m1 e')%R).
  { destruct (Z_lt_le_dec (e' - ex) d) as [Hlt|Hge].
    - right. assert (Hmx' : 0 < mx) by lia.
      destruct (Zdigits2_div mx (e' - ex) Hmx' Hn Hlt) as (Hpos & Hdig).
      rewrite <- Hm1 in Hpos, Hdig. fold d in Hdig.
      pose proof (F2R_digits_ge m1 e' Hpos) as Hge. rewrite Hdig in Hge.
      replace (d - (e' - ex) - 1 + e') with (E - 1) in Hge by (unfold E; lia).
      exact Hge.
    - left. rewrite fexp64_eq in He'. unfold E in *. lia. }
  assert (Hrt : rounds_to x (F2R m2 e')).
  { destruct Hinb as ((Hlo & Hhi) & Hex & Hin). split.
    - unfold F2R. pose proof (bpow_gt_0 e'). assert (0 <= m2) by lia.
      apply IZR_le in H0. nra.
    - intros mb eb Hmb Hc.
      destruct (float_lattice mb eb m1 e' E Hmb Hc Hm1nn He' Hlat) as [HB|HB].
      + split; intros HBx.
        * assert (F2R m1 e' <= F2R m2 e')%R by (apply F2R_le; lia). lra.
        * destruct l1 as [|c] eqn:Hl1.
          -- rewrite Hm2ex by reflexivity. rewrite <- Hex by reflexivity. assumption.
          -- specialize (Hin ltac:(discriminate)). lra.
      + split; intros HBx.
        * lra.
        * assert (F2R m2 e' <= F2R (m1 + 1) e')%R by (apply F2R_le; lia). lra. }
  exists (F2R m2 e'). split; [exact Hrt|].
  destruct (Z_lt_le_dec (e' - ex) d) as [Hlt|Hge].
  - (* the shifted mantissa is positive *)
    assert (Hmx' : 0 < mx) by lia. destruct (Hdb Hmx') as (_ & Hdp).
    destruct (Zdigits2_div mx (e' - ex) Hmx' Hn Hlt) as (Hpos & Hdig).
    rewrite <- Hm1 in Hpos, Hdig. fold d in Hdig.
    assert (Hm2pos : 0 < m2) by lia.
    pose proof (Zdigits2_bounds m1 Hpos) as Hb1. rewrite Hdig in Hb1.
    assert (Hd2 : Zdigits2 m2 = d - (e' - ex)
                  \/ (Zdigits2 m2 = d - (e' - ex) + 1
                      /\ m2 = 2 ^ (d - (e' - ex)))).
    { destruct (Z_lt_le_dec m2 (2 ^ (d - (e' - ex)))) as [Hs|Hb].
      - left. apply Zdigits2_unique; [assumption|]. lia.
      - right. assert (m2 = 2 ^ (d - (e' - ex))) by lia. split; [|assumption].
        apply Zdigits2_unique; [assumption|]. rewrite H.
        replace (d - (e' - ex) + 1 - 1) with (d - (e' - ex)) by lia.
        split; [lia|]. apply Z.pow_lt_mono_r; lia. }
    assert (Hpre2 : e' <= fexp64 (Zdigits2 m2 + e')).
    { rewrite fexp64_eq in *. unfold E in *. lia. }
    assert (Hx2 : inb m2 e' loc_Exact (F2R m2 e')).
    { split; [|split]; [|reflexivity|congruence].
      split; [lra|]. apply F2R_lt. lia. }
    pose proof (shr_fexp_inb m2 e' loc_Exact _ (Z.lt_le_incl _ _ Hm2pos) Hx2 Hpre2) as H2.
    destruct (shr_fexp 53 1024 m2 e' loc_Exact) as [mrs'' e''].
    destruct H2 as (He'' & Hm3 & _).
    assert (Hn2 : e'' - e' = 0 \/ (e'' - e' = 1 /\ m2 = 2 ^ (d - (e' - ex)))).
    { rewrite fexp64_eq in *. unfold E in *. lia. }
    assert (Hm3v : shr_m mrs'' * 2 ^ (e'' - e') = m2 /\ 0 < shr_m mrs''
                   /\ Zdigits2 (shr_m mrs'') = Zdigits2 m2 - (e'' - e')).
    { rewrite Hm3. destruct Hn2 as [Hz|(Ho & Hp)].
      - rewrite Hz. change (2 ^ 0) with 1. rewrite Z.div_1_r. lia.
      - rewrite Ho. change (2 ^ 1) with 2.
        assert (Ha : m2 = 2 * 2 ^ (d - (e' - ex) - 1)).
        { rewrite Hp. rewrite <- Z.pow_succ_r by lia. f_equal. lia. }
        assert (Hb : 0 < 2 ^ (d - (e' - ex) - 1)) by (apply Z.pow_pos_nonneg; lia).
        assert (Hc : m2 / 2 = 2 ^ (d - (e' - ex) - 1)).
        { rewrite Ha. rewrite Z.mul_comm, Z.div_mul by lia. reflexivity. }
        rewrite Hc. split; [lia|]. split; [lia|].
        apply Zdigits2_unique; [lia|].
        destruct Hd2 as [Hd2|(Hd2 & _)].
        + pose proof (Zdigits2_bounds m2 Hm2pos) as Hb2. rewrite Hd2, Hp in Hb2. lia.
        + rewrite Hd2. replace (d - (e' - ex) + 1 - 1 - 1) with (d - (e' - ex) - 1) by lia.
          replace (d - (e' - ex) + 1 - 1) with (d - (e' - ex) - 1 + 1) by lia.
          split; [lia|]. apply Z.pow_lt_mono_r; lia. }
    destruct Hm3v as (Hv & Hm3pos & Hd3).
    assert (HF : F2R m2 e' = F2R (shr_m mrs'') e'').
    { rewrite <- Hv. rewrite F2R_shift by lia. f_equal. lia. }
    rewrite HF. apply finish_round; [assumption|].
    unfold canonical. rewrite Hd3. rewrite He'' at 1. f_equal. lia.
  - (* everything was shifted out: the subnormal lattice *)
    assert (He : e' = -1074) by (rewrite fexp64_eq in He'; unfold E in *; lia).
    assert (Hz : m1 = 0).
    { rewrite Hm1. destruct (Z.eq_dec mx 0) as [->|Hne]; [reflexivity|].
      assert (Hmx' : 0 < mx) by lia. destruct (Hdb Hmx') as (Hb & Hdp).
      apply Z.div_small. split; [lia|].
      assert (2 ^ d <= 2 ^ (e' - ex)) by (apply Z.pow_le_mono_r; lia). lia. }
    clear He' Hlat Hrt Hinb Hn Hge Hm1 Hdb. subst e'. destruct Hm2 as [Hm2|Hm2]; rewrite Hm2, Hz.
    + left. split; [unfold F2R; simpl; lra|]. reflexivity.
    + right; left. exists 1%positive, (-1074). repeat split.
Qed.

Lemma bounded_canonical m e :
  bounded 53 1024 m e = true -> canonical (Zpos m) e /\ e <= 971.
Proof.
  unfold bounded. intros H. apply andb_prop in H. destruct H as (H1 & H2).
  apply canonical_mantissa_iff in H1. apply Z.leb_le in H2. split; [assumption|lia].
Qed.

Lemma F2R_pos m e : 0 < m -> (0 < F2R m e)%R.
Proof.
  intros H. unfold F2R. apply IZR_lt in H. pose proof (bpow_gt_0 e). nra.
Qed.

Lemma bounded_lt_emax m e :
  bounded 53 1024 m e = true -> (F2R (Zpos m) e < bpow 1024)%R.
Proof.
  intros H. destruct (bounded_canonical _ _ H) as (Hc & He).
  destruct (canonical_digits (Zpos m) e ltac:(lia) Hc) as (Hd & _).
  pose proof (F2R_digits_lt (Zpos m) e ltac:(lia)) as Hlt.
  assert (Hle : Zdigits2 (Zpos m) + e <= 1024) by lia.
  pose proof (bpow_le _ _ Hle). lra.
Qed.

Lemma F2R_lt_of_exp m1 e1 m2 e2 :
  0 < m1 -> 0 < m2 -> canonical m1 e1 -> canonical m2 e2 -> e1 < e2 ->
  (F2R m1 e1 < F2R m2 e2)%R.
Proof.
  intros H1 H2 C1 C2 He.
  destruct (canonical_digits _ _ H1 C1) as (Hd1 & Hmin1 & _).
  destruct (canonical_digits _ _ H2 C2) as (_ & _ & Hn2).
  pose proof (F2R_digits_lt m1 e1 H1) as Hlt.
  pose proof (F2R_digits_ge m2 e2 H2) as Hge.
  assert (Hle : Zdigits2 m1 + e1 <= Zdigits2 m2 - 1 + e2) by lia.
  pose proof (bpow_le _ _ Hle). lra.
Qed.

Lemma canonical_unique m1 e1 m2 e2 :
  0 < m1 -> 0 < m2 -> canonical m1 e1 -> canonical m2 e2 ->
  F2R m1 e1 = F2R m2 e2 -> m1 = m2 /\ e1 = e2.
Proof.
  intros H1 H2 C1 C2 HF.
  destruct (Z.lt_trichotomy e1 e2) as [Hlt|[Heq|Hgt]].
  - pose proof (F2R_lt_of_exp _ _ _ _ H1 H2 C1 C2 Hlt). lra.
  - subst e2. split; [|reflexivity].
    apply Z.le_antisymm; apply (F2R_le_inv _ _ e1); lra.
  - pose proof (F2R_lt_of_exp _ _ _ _ H2 H1 C2 C1 Hgt). lra.
Qed.

(** Rounding a representable value returns its canonical float. *)
Lemma round_representable s mx ex lx mb eb :
  0 <= mx -> bounded 53 1024 mb eb = true ->
  inb mx ex lx (F2R (Zpos mb) eb) -> ex <= fexp64 (Zdigits2 mx + ex) ->
  binary_round_aux 53 1024 s mx ex lx = S754_finite s mb eb.
Proof.
  intros Hmx Hb Hx Hpre.
  destruct (binary_round_aux_correct s mx ex lx _ Hmx Hx Hpre) as (v & (Hv0 & Hrt) & Hrep).
  destruct (bounded_canonical _ _ Hb) as (Hc & He).
  destruct (Hrt (Zpos mb) eb ltac:(lia) Hc) as (Hlo & Hhi).
  assert (Hv : v = F2R (Zpos mb) eb) by (apply Rle_antisym; [apply Hhi|apply Hlo]; lra).
  pose proof (F2R_pos (Zpos mb) eb ltac:(lia)) as Hpos.
  pose proof (bounded_lt_emax _ _ Hb) as Hmax.
  destruct Hrep as [(Hz & _)|[(m & e & Hf & Hbd & Hve)|(Hinf & _)]]; try lra.
  destruct (bounded_canonical _ _ Hbd) as (Hc' & _).
  destruct (canonical_unique (Zpos m) e (Zpos mb) eb) as (Hm & Hee); try lia; try assumption.
  - lra.
  - rewrite Hf. inversion Hm. subst. reflexivity.
Qed.

Lemma Zpos_iter_xO m d : Zpos (Pos.iter xO m d) = Zpos m * 2 ^ Zpos d.
Proof.
  induction d as [|d IH] using Pos.peano_ind.
  - cbn [Pos.iter]. change (2 ^ 1) with 2. lia.
  - rewrite Pos.iter_succ, Pos2Z.inj_succ, Z.pow_succ_r by lia.
    change (Zpos (Pos.iter xO m d)~0) with (2 * Zpos (Pos.iter xO m d)).
    rewrite IH. ring.
Qed.

Lemma Zdigits2_shift m k : 0 < m -> 0 <= k -> Zdigits2 (m * 2 ^ k) = Zdigits2 m + k.
Proof.
  intros Hm Hk. pose proof (Zdigits2_bounds m Hm) as (H1 & H2).
  pose proof (Zdigits2_pos m Hm) as Hd.
  assert (Hp : 0 < 2 ^ k) by (apply Z.pow_pos_nonneg; lia).
  apply Zdigits2_unique; [nia|].
  replace (Zdigits2 m + k - 1) with (Zdigits2 m - 1 + k) by lia.
  rewrite !Z.pow_add_r by lia. split; nia.
Qed.

Lemma shl_align_spec m e e' :
  let '(m', e'') := shl_align m e e' in
  F2R (Zpos m') e'' = F2R (Zpos m) e
  /\ Zdigits2 (Zpos m') + e'' = Zdigits2 (Zpos m) + e
  /\ e'' = Z.min e e'.
Proof.
  unfold shl_align. destruct (e' - e) as [|p|p] eqn:Hd.
  - repeat split. lia.
  - repeat split. lia.
  - rewrite Zpos_iter_xO. split; [|split].
    + rewrite F2R_shift by lia. f_equal. lia.
    + rewrite Zdigits2_shift by lia. lia.
    + lia.
Qed.

Lemma binary_round_correct s m e :
  exists v, rounds_to (F2R (Zpos m) e) v
            /\ represents s v (binary_round 53 1024 s m e).
Proof.
  unfold binary_round.
  pose proof (shl_align_spec m e (fexp 53 1024 (Zpos (digits2_pos m) + e))) as H.
  destruct (shl_align m e (fexp 53 1024 (Zpos (digits2_pos m) + e))) as [mz ez].
  destruct H as (HF & Hd & He).
  apply binary_round_aux_correct; [lia| |].
  - rewrite <- HF. split; [|split]; [|reflexivity|congruence].
    split; [lra|]. apply F2R_lt. lia.
  - rewrite Hd. cbn [Zdigits2]. unfold fexp64. lia.
Qed.

Lemma binary_round_representable s m e mb eb :
  bounded 53 1024 mb eb = true -> F2R (Zpos m) e = F2R (Zpos mb) eb ->
  binary_round 53 1024 s m e = S754_finite s mb eb.
Proof.
  intros Hb HF. unfold binary_round.
  pose proof (shl_align_spec m e (fexp 53 1024 (Zpos (digits2_pos m) + e))) as H.
  destruct (shl_align m e (fexp 53 1024 (Zpos (digits2_pos m) + e))) as [mz ez].
  destruct H as (HF' & Hd & He).
  apply round_representable; [lia|assumption| |].
  - rewrite <- HF, <- HF'. split; [|split]; [|reflexivity|congruence].
    split; [lra|]. apply F2R_lt. lia.
  - rewrite Hd. cbn [Zdigits2]. unfold fexp64. lia.
Qed.

Lemma Zdigits2_mul_ge a b :
  0 < a -> 0 < b -> Zdigits2 a + Zdigits2 b - 1 <= Zdigits2 (a * b).
Proof.
  intros Ha Hb.
  pose proof (Zdigits2_bounds a Ha) as (A1 & _).
  pose proof (Zdigits2_bounds b Hb) as (B1 & _).
  pose proof (Zdigits2_bounds (a * b) ltac:(nia)) as (_ & C2).
  pose proof (Zdigits2_pos a Ha). pose proof (Zdigits2_pos b Hb).
  assert (Hp : 2 ^ (Zdigits2 a - 1 + (Zdigits2 b - 1)) <= a * b).
  { rewrite Z.pow_add_r by lia.
    assert (0 < 2 ^ (Zdigits2 a - 1)) by (apply Z.pow_pos_nonneg; lia).
    assert (0 < 2 ^ (Zdigits2 b - 1)) by (apply Z.pow_pos_nonneg; lia).
    nia. }
  assert (Hlt : 2 ^ (Zdigits2 a - 1 + (Zdigits2 b - 1)) < 2 ^ Zdigits2 (a * b)) by lia.
  apply Z.pow_lt_mono_r_iff in Hlt; try lia.
  pose proof (Zdigits2_pos (a * b) ltac:(nia)). lia.
Qed.

Lemma SFmul_finite_correct sa ma ea sb mb eb :
  bounded 53 1024 ma ea = true -> bounded 53 1024 mb eb = true ->
  exists v, rounds_to (F2R (Zpos ma) ea * F2R (Zpos mb) eb) v
            /\ represents (xorb sa sb) v
                 (SFmul 53 1024 (S754_finite sa ma ea) (S754_finite sb mb eb)).
Proof.
  intros Ha Hb. cbn [SFmul].
  destruct (bounded_canonical _ _ Ha) as (Ca & _).
  destruct (bounded_canonical _ _ Hb) as (Cb & _).
  destruct (canonical_digits (Zpos ma) ea ltac:(lia) Ca) as (Da & Ea & Na).
  destruct (canonical_digits (Zpos mb) eb ltac:(lia) Cb) as (Db & Eb & Nb).
  apply binary_round_aux_correct; [lia| |].
  - assert (HF : F2R (Zpos (ma * mb)) (ea + eb)
                 = (F2R (Zpos ma) ea * F2R (Zpos mb) eb)%R).
    { unfold F2R. rewrite Pos2Z.inj_mul, mult_IZR, bpow_add. ring. }
    rewrite <- HF. split; [|split]; [|reflexivity|congruence].
    split; [lra|]. apply F2R_lt. lia.
  - pose proof (Zdigits2_mul_ge (Zpos ma) (Zpos mb) ltac:(lia) ltac:(lia)) as Hd.
    pose proof (Zdigits2_pos (Zpos ma) ltac:(lia)).
    pose proof (Zdigits2_pos (Zpos mb) ltac:(lia)).
    rewrite Pos2Z.inj_mul, fexp64_eq.
    remember (Zdigits2 (Zpos ma * Zpos mb)) as dab.
    remember (Zdigits2 (Zpos ma)) as da. remember (Zdigits2 (Zpos mb)) as db.
    clear - Hd H H0 Da Ea Na Db Eb Nb. lia.
Qed.

Lemma SFadd_pos_correct ma ea mb eb :
  exists v, rounds_to (F2R (Zpos ma) ea + F2R (Zpos mb) eb) v
            /\ represents false v
                 (SFadd 53 1024 (S754_finite false ma ea) (S754_finite false mb eb)).
Proof.
  cbn [SFadd cond_Zopp].
  pose proof (shl_align_spec ma ea (Z.min ea eb)) as Ha.
  pose proof (shl_align_spec mb eb (Z.min ea eb)) as Hb.
  destruct (shl_align ma ea (Z.min ea eb)) as [ma' ea'].
  destruct (shl_align mb eb (Z.min ea eb)) as [mb' eb'].
  destruct Ha as (Fa & _ & Ea). destruct Hb as (Fb & _ & Eb).
  cbn [fst Z.add binary_normalize].
  assert (HF : F2R (Zpos (ma' + mb')) (Z.min ea eb)
               = (F2R (Zpos ma) ea + F2R (Zpos mb) eb)%R).
  { rewrite <- Fa, <- Fb.
    replace ea' with (Z.min ea eb) by lia. replace eb' with (Z.min ea eb) by lia.
    unfold F2R. rewrite Pos2Z.inj_add, plus_IZR. ring. }
  rewrite <- HF. apply binary_round_correct.
Qed.

Lemma new_location_exact n k :
  new_location n k = loc_Exact <-> k = 0.
Proof.
  unfold new_location, new_location_even, new_location_odd.
  destruct (Z.even n); destruct (Z.eqb_spec k 0); split; intros; try reflexivity;
    try assumption; try discriminate; try contradiction.
Qed.

Lemma Zdigits2_div_ge a b :
  0 < a -> 0 < b -> 0 < a / b -> Zdigits2 a - Zdigits2 b <= Zdigits2 (a / b).
Proof.
  intros Ha Hb Hq.
  pose proof (Zdigits2_bounds a Ha) as (A1 & _).
  pose proof (Zdigits2_bounds b Hb) as (_ & B2).
  pose proof (Zdigits2_bounds (a / b) Hq) as (_ & Q2).
  pose proof (Zdigits2_pos a Ha). pose proof (Zdigits2_pos b Hb).
  pose proof (Zdigits2_pos (a / b) Hq).
  pose proof (Z.mul_succ_div_gt a b Hb) as Hlt.
  assert (Hp : a < 2 ^ (Zdigits2 (a / b) + Zdigits2 b)).
  { rewrite Z.pow_add_r by lia.
    assert (0 < 2 ^ Zdigits2 (a / b)) by (apply Z.pow_pos_nonneg; lia).
    nia. }
  assert (Hlt2 : 2 ^ (Zdigits2 a - 1) < 2 ^ (Zdigits2 (a / b) + Zdigits2 b)) by lia.
  apply Z.pow_lt_mono_r_iff in Hlt2; lia.
Qed.

Lemma SFdiv_pos_correct sa ma ea sb mb eb :
  exists v, rounds_to (F2R (Zpos ma) ea / F2R (Zpos mb) eb) v
            /\ represents (xorb sa sb) v
                 (SFdiv 53 1024 (S754_finite sa ma ea) (S754_finite sb mb eb)).
Proof.
  cbn [SFdiv]. unfold SFdiv_core_binary. cbv zeta.
  remember (Zdigits2 (Zpos ma) + ea - (Zdigits2 (Zpos mb) + eb)) as T eqn:HT.
  remember (Z.min (fexp 53 1024 T) (ea - eb)) as e' eqn:He'.
  remember (ea - eb - e') as s eqn:Hse.
  change (fexp 53 1024 T) with (fexp64 T) in He'. rewrite fexp64_eq in He'.
  assert (Hs : 0 <= s) by lia.
  remember (match s with
            | 0 => Zpos ma
            | Zpos _ => Z.shiftl (Zpos ma) s
            | Zneg _ => 0
            end) as m' eqn:Hm'.
  assert (Hm'v : m' = Zpos ma * 2 ^ s).
  { rewrite Hm'. clear - Hs. destruct s as [|p|p]; [change (2 ^ 0) with 1; lia| |lia].
    apply Z.shiftl_mul_pow2. lia. }
  clear Hm'.
  pose proof (Z_div_mod m' (Zpos mb) ltac:(lia)) as Hdm.
  destruct (Z.div_eucl m' (Zpos mb)) as [q r].
  destruct Hdm as (Heq & Hr).
  assert (Hp2 : 0 < 2 ^ s) by (apply Z.pow_pos_nonneg; lia).
  assert (Hm'pos : 0 < m') by nia.
  assert (Hq0 : 0 <= q) by nia.
  assert (Hqd : q = m' / Zpos mb).
  { apply (Z.div_unique _ _ q r); [left; lia|lia]. }
  apply binary_round_aux_correct; [assumption| |].
  - (* location *)
    pose proof (bpow_gt_0 e') as Hbe. pose proof (bpow_gt_0 eb) as Hbb.
    assert (HM : (0 < IZR (Zpos mb))%R) by (apply IZR_lt; lia).
    assert (Hx : (F2R (Zpos ma) ea / F2R (Zpos mb) eb
                  = (IZR q + IZR r / IZR (Zpos mb)) * bpow e')%R).
    { replace ea with (s + e' + eb) by lia.
      unfold F2R. rewrite !bpow_add, (bpow_IZR s) by lia.
      assert (Hm'R : (IZR (Zpos ma) * IZR (2 ^ s) = IZR (Zpos mb) * IZR q + IZR r)%R).
      { rewrite <- !mult_IZR, <- plus_IZR. f_equal. lia. }
      field_simplify; [|lra|lra].
      replace (IZR (Zpos ma) * IZR (2 ^ s) * bpow e')%R
        with ((IZR (Zpos mb) * IZR q + IZR r) * bpow e')%R by (rewrite <- Hm'R; ring).
      field. lra. }
    rewrite Hx.
    assert (Hr0 : (0 <= IZR r / IZR (Zpos mb))%R).
    { apply Rle_mult_inv_pos; [apply IZR_le; lia|assumption]. }
    assert (Hr1 : (IZR r / IZR (Zpos mb) < 1)%R).
    { apply (Rmult_lt_reg_r (IZR (Zpos mb))); [assumption|].
      unfold Rdiv. rewrite Rmult_assoc, Rinv_l by lra.
      rewrite Rmult_1_r, Rmult_1_l. apply IZR_lt. lia. }
    unfold inb. rewrite F2R_succ. unfold F2R. split; [split; nra|]. split.
    + intros Hl. apply new_location_exact in Hl. subst r.
      unfold Rdiv. rewrite Rmult_0_l. ring.
    + intros Hl.
      assert (Hrne : r <> 0) by (intros ->; apply Hl, new_location_exact; reflexivity).
      assert (Hrp : (0 < IZR r / IZR (Zpos mb))%R).
      { apply Rdiv_lt_0_compat; [apply IZR_lt; lia|assumption]. }
      nra.
  - (* the quotient has enough digits *)
    assert (Hdq : Zdigits2 (Zpos ma) + s - Zdigits2 (Zpos mb) <= Zdigits2 q).
    { destruct (Z.eq_dec q 0) as [Hz|Hnz].
      - rewrite Hz. change (Zdigits2 0) with 0.
        assert (Hlt : m' < Zpos mb) by nia.
        pose proof (Zdigits2_bounds (Zpos ma) ltac:(lia)) as (A1 & _).
        pose proof (Zdigits2_bounds (Zpos mb) ltac:(lia)) as (_ & B2).
        pose proof (Zdigits2_pos (Zpos ma) ltac:(lia)).
        pose proof (Zdigits2_pos (Zpos mb) ltac:(lia)).
        assert (Hpw : 2 ^ (Zdigits2 (Zpos ma) - 1 + s) < 2 ^ Zdigits2 (Zpos mb)).
        { rewrite Z.pow_add_r by lia.
          assert (0 < 2 ^ (Zdigits2 (Zpos ma) - 1)) by (apply Z.pow_pos_nonneg; lia).
          nia. }
        apply Z.pow_lt_mono_r_iff in Hpw; [|lia|lia].
        clear - Hpw. lia.
      - assert (Hqp : 0 < m' / Zpos mb) by lia.
        pose proof (Zdigits2_div_ge m' (Zpos mb) Hm'pos ltac:(lia) Hqp) as Hd.
        rewrite <- Hqd in Hd. rewrite Hm'v, Zdigits2_shift in Hd by lia. lia. }
    rewrite fexp64_eq.
    remember (Zdigits2 q) as dq. remember (Zdigits2 (Zpos ma)) as da.
    remember (Zdigits2 (Zpos mb)) as db.
    clear - Hdq HT He' Hse. lia.
Qed.

Lemma SFcompare_pos m1 e1 m2 e2 :
  bounded 53 1024 m1 e1 = true -> bounded 53 1024 m2 e2 = true ->
  match SFcompare (S754_finite false m1 e1) (S754_finite false m2 e2) with
  | Some Lt => (F2R (Zpos m1) e1 < F2R (Zpos m2) e2)%R
  | Some Eq => F2R (Zpos m1) e1 = F2R (Zpos m2) e2
  | Some Gt => (F2R (Zpos m2) e2 < F2R (Zpos m1) e1)%R
  | None => False
  end.
Proof.
  intros H1 H2.
  destruct (bounded_canonical _ _ H1) as (C1 & _).
  destruct (bounded_canonical _ _ H2) as (C2 & _).
  cbn [SFcompare]. destruct (Z.compare_spec e1 e2) as [He|He|He].
  - subst e2. change (Pos.compare_cont Eq m1 m2) with (Pos.compare m1 m2).
    destruct (Pos.compare_spec m1 m2) as [Hm|Hm|Hm].
    + now subst.
    + apply F2R_lt. lia.
    + apply F2R_lt. lia.
  - apply F2R_lt_of_exp; try assumption; lia.
  - apply F2R_lt_of_exp; try assumption; lia.
Qed.

Lemma SFleb_pos_iff m1 e1 m2 e2 :
  bounded 53 1024 m1 e1 = true -> bounded 53 1024 m2 e2 = true ->
  SFleb (S754_finite false m1 e1) (S754_finite false m2 e2) = true
  <-> (F2R (Zpos m1) e1 <= F2R (Zpos m2) e2)%R.
Proof.
  intros H1 H2. pose proof (SFcompare_pos _ _ _ _ H1 H2) as H. unfold SFleb.
  destruct (SFcompare _ _) as [[]|]; try contradiction;
    split; intros; try reflexivity; try discriminate; lra.
Qed.

Lemma SFltb_pos_iff m1 e1 m2 e2 :
  bounded 53 1024 m1 e1 = true -> bounded 53 1024 m2 e2 = true ->
  SFltb (S754_finite false m1 e1) (S754_finite false m2 e2) = true
  <-> (F2R (Zpos m1) e1 < F2R (Zpos m2) e2)%R.
Proof.
  intros H1 H2. pose proof (SFcompare_pos _ _ _ _ H1 H2) as H. unfold SFltb.
  destruct (SFcompare _ _) as [[]|]; try contradiction;
    split; intros; try reflexivity; try discriminate; lra.
Qed.

Lemma binary_round_aux_opp s mx ex lx :
  binary_round_aux 53 1024 (negb s) mx ex lx
  = SFopp (binary_round_aux 53 1024 s mx ex lx).
Proof.
  unfold binary_round_aux.
  destruct (shr_fexp 53 1024 mx ex lx) as [mrs' e'].
  destruct (shr_fexp 53 1024 _ e' loc_Exact) as [mrs'' e''].
  destruct (shr_m mrs''); try reflexivity.
  destruct (e'' <=? 1024 - 53); reflexivity.
Qed.

Lemma F2R_mul m1 e1 m2 e2 :
  (F2R m1 e1 * F2R m2 e2)%R = F2R (m1 * m2) (e1 + e2).
Proof. unfold F2R. rewrite mult_IZR, bpow_add. ring. Qed.

Lemma F2R_one : F2R 4503599627370496 (-52) = 1%R.
Proof.
  change 4503599627370496 with (2 ^ 52). unfold F2R.
  rewrite <- bpow_IZR, <- bpow_add by lia. reflexivity.
Qed.

Lemma SFmul_one_l s m e :
  bounded 53 1024 m e = true ->
  SFmul 53 1024 (S754_finite false 4503599627370496 (-52)) (S754_finite s m e)
  = S754_finite s m e.
Proof.
  intros Hb. cbn [SFmul xorb].
  destruct (bounded_canonical _ _ Hb) as (Hc & _).
  apply round_representable; [lia|assumption| |].
  - assert (HF : F2R (Zpos (4503599627370496 * m)) (-52 + e) = F2R (Zpos m) e).
    { rewrite Pos2Z.inj_mul, <- F2R_mul, F2R_one. ring. }
    rewrite <- HF. split; [|split]; [|reflexivity|congruence].
    split; [lra|]. apply F2R_lt. lia.
  - rewrite Pos2Z.inj_mul. change (Zpos 4503599627370496) with (2 ^ 52).
    rewrite Z.mul_comm, Zdigits2_shift by lia. unfold canonical in Hc.
    rewrite fexp64_eq in *. lia.
Qed.

End RoundingFacts.

(** * Facts about the binary64 operations the lattice uses *)

Module F64Facts.
Import Rounding RoundingFacts F64.

Lemma of_Z_1 : of_Z 1 = one.
Proof. reflexivity. Qed.

Lemma valid_finite s m e :
  valid (S754_finite s m e) = bounded 53 1024 m e.
Proof. reflexivity. Qed.

Lemma mul_one_l x : valid x = true -> mul (of_Z 1) x = x.
Proof.
  destruct x as [s|s| |s m e]; intros Hv; try reflexivity.
  apply (SFmul_one_l s m e Hv).
Qed.

Lemma mul_comm x y : mul x y = mul y x.
Proof.
  destruct x as [sx|sx| |sx mx ex], y as [sy|sy| |sy my ey];
    unfold mul; cbn [SFmul]; rewrite ?(xorb_comm sx sy); try reflexivity.
  now rewrite (Pos.mul_comm mx my), (Z.add_comm ex ey).
Qed.

Lemma mul_opp_opp x : mul (opp x) (opp x) = mul x x.
Proof.
  destruct x as [[]|[]| |[] m e]; reflexivity.
Qed.

Lemma binary_round_opp s m e :
  binary_round 53 1024 (negb s) m e = SFopp (binary_round 53 1024 s m e).
Proof.
  unfold binary_round. destruct (shl_align m e _) as [mz ez].
  apply binary_round_aux_opp.
Qed.

Lemma binary_normalize_opp z e :
  binary_normalize 53 1024 (- z) e false
  = match z with
    | 0 => S754_zero false
    | _ => SFopp (binary_normalize 53 1024 z e false)
    end.
Proof.
  destruct z as [|p|p]; cbn [Z.opp binary_normalize]; try reflexivity.
  - apply (binary_round_opp false).
  - rewrite (binary_round_opp false).
    destruct (binary_round 53 1024 false p e) as [[]|[]| |[] ? ?]; reflexivity.
Qed.

(** [(a - b)^2] and [(b - a)^2] are the same float. *)
Lemma sub_square_sym a b : mul (sub a b) (sub a b) = mul (sub b a) (sub b a).
Proof.
  destruct a as [sa|sa| |sa ma ea], b as [sb|sb| |sb mb eb];
    try (destruct sa, sb; reflexivity); try (destruct sa; reflexivity);
    try (destruct sb; reflexivity); try reflexivity.
  unfold sub; cbn [SFsub]. rewrite (Z.min_comm eb ea).
  set (A := cond_Zopp sa (Zpos (fst (shl_align ma ea (Z.min ea eb))))).
  set (B := cond_Zopp sb (Zpos (fst (shl_align mb eb (Z.min ea eb))))).
  replace (B - A) with (- (A - B)) by lia.
  rewrite binary_normalize_opp.
  destruct (A - B) as [|p|p] eqn:Hd; [reflexivity| |];
    symmetry; apply mul_opp_opp.
Qed.

Lemma eqb_refl x : is_nan x = false -> eqb x x = true.
Proof.
  destruct x as [s|s| |s m e]; intros H; try discriminate; try reflexivity.
  - now destruct s.
  - unfold eqb, SFeqb. cbn [SFcompare].
    rewrite Z.compare_refl. change (Pos.compare_cont Eq m m) with (Pos.compare m m).
    rewrite Pos.compare_refl. now destruct s.
Qed.

Lemma F2R_pow2 k e : 0 <= k -> F2R (2 ^ k) e = bpow (k + e).
Proof.
  intros Hk. unfold F2R. now rewrite <- bpow_IZR, bpow_add by assumption.
Qed.

Lemma bpow_0 : bpow 0 = 1%R.
Proof. reflexivity. Qed.

Lemma canonical_one : canonical 4503599627370496 (-52).
Proof. reflexivity. Qed.

Lemma bounded_F2R_le_max m e :
  bounded 53 1024 m e = true ->
  (F2R (Zpos m) e <= F2R 9007199254740990 971)%R
  \/ (m = 9007199254740991%positive /\ e = 971).
Proof.
  intros Hb. destruct (bounded_canonical _ _ Hb) as (Hc & He).
  destruct (float_lattice (Zpos m) e 9007199254740990 971 1024) as [H|H];
    try assumption; try lia; try reflexivity.
  - right. change (1024 - 1) with (52 + 971).
    rewrite <- (F2R_pow2 52 971) by lia. apply F2R_le.
    apply Z.leb_le. reflexivity.
  - now left.
  - right. change (9007199254740990 + 1) with 9007199254740991 in H.
    destruct (canonical_digits (Zpos m) e ltac:(lia) Hc) as (Hd & _).
    pose proof (Zdigits2_bounds (Zpos m) ltac:(lia)) as (_ & Hm).
    assert (Hm' : Zpos m <= 9007199254740991).
    { assert (2 ^ Zdigits2 (Zpos m) <= 2 ^ 53) by (apply Z.pow_le_mono_r; lia).
      change (2 ^ 53) with 9007199254740992 in *. lia. }
    assert (Hle : (F2R (Zpos m) e <= F2R 9007199254740991 971)%R).
    { apply Rle_trans with (F2R 9007199254740991 e); [now apply F2R_le|].
      unfold F2R. pose proof (bpow_le e 971 He).
      assert (0 < IZR 9007199254740991)%R by (apply IZR_lt; lia). nra. }
    destruct (canonical_unique (Zpos m) e 9007199254740991 971) as (Hm1 & He1);
      try assumption; try lia; try reflexivity.
    lra.
Qed.

(** [1 + c] for a finite non-negative [c]: a finite float, at least 1. *)
Lemma add_one_ge m e :
  bounded 53 1024 m e = true ->
  exists my ey,
    add (of_Z 1) (S754_finite false m e) = S754_finite false my ey
    /\ bounded 53 1024 my ey = true
    /\ (1 <= F2R (Zpos my) ey)%R.
Proof.
  intros Hb.
  destruct (bounded_F2R_le_max m e Hb) as [Hle|(-> & ->)].
  - destruct (SFadd_pos_correct 4503599627370496 (-52) m e)
      as (v & (Hv0 & Hrt) & Hrep).
    rewrite F2R_one in Hrt.
    pose proof (F2R_pos (Zpos m) e ltac:(lia)) as Hpos.
    destruct (Hrt 4503599627370496 (-52) ltac:(lia) canonical_one) as (Hlo & _).
    rewrite F2R_one in Hlo. specialize (Hlo ltac:(lra)).
    destruct (Hrt 9007199254740991 971 ltac:(lia) ltac:(reflexivity)) as (_ & Hhi).
    assert (Hmax : (1 + F2R (Zpos m) e <= F2R 9007199254740991 971)%R).
    { change 9007199254740991 with (9007199254740990 + 1).
      rewrite F2R_succ. pose proof (bpow_le 0 971 ltac:(lia)) as H0.
      rewrite bpow_0 in H0. lra. }
    specialize (Hhi Hmax).
    pose proof (bounded_lt_emax 9007199254740991 971 ltac:(reflexivity)) as Hlt.
    destruct Hrep as [(Hz & _)|[(my & ey & Hf & Hbd & Hve)|(Hinf & _)]]; try lra.
    exists my, ey. split; [exact Hf|]. split; [assumption|lra].
  - exists 9007199254740991%positive, 971. split; [reflexivity|].
    split; [reflexivity|].
    apply Rle_trans with (F2R 1 0); [unfold F2R; rewrite bpow_0; lra|].
    apply Rle_trans with (F2R 9007199254740991 0); [apply F2R_le; lia|].
    unfold F2R. pose proof (bpow_le 0 971 ltac:(lia)).
    assert (0 < IZR 9007199254740991)%R by (apply IZR_lt; lia). nra.
Qed.

(** [1 / y] for a finite [y >= 1]: a finite positive float, at most 1. *)
Lemma inv_range my ey :
  bounded 53 1024 my ey = true -> (1 <= F2R (Zpos my) ey)%R ->
  exists ml el,
    div (of_Z 1) (S754_finite false my ey) = S754_finite false ml el
    /\ bounded 53 1024 ml el = true
    /\ (F2R (Zpos ml) el <= 1)%R.
Proof.
  intros Hb Hy.
  destruct (SFdiv_pos_correct false 4503599627370496 (-52) false my ey)
    as (v & (Hv0 & Hrt) & Hrep).
  rewrite F2R_one in Hrt.
  pose proof (bounded_lt_emax my ey Hb) as Hmax.
  pose proof (bpow_gt_0 1024) as Hp.
  assert (Hx1 : (1 / F2R (Zpos my) ey <= 1)%R).
  { unfold Rdiv. rewrite Rmult_1_l. apply Rle_trans with (/ 1)%R.
    - apply Rinv_le_contravar; lra.
    - rewrite Rinv_1. lra. }
  assert (Hx0 : (bpow (-1024) <= 1 / F2R (Zpos my) ey)%R).
  { unfold Rdiv. rewrite Rmult_1_l.
    replace (bpow (-1024)) with (/ bpow 1024)%R.
    - apply Rinv_le_contravar; lra.
    - apply (Rmult_eq_reg_l (bpow 1024)); [|lra].
      rewrite Rinv_r by lra. rewrite <- bpow_add. reflexivity. }
  destruct (Hrt 4503599627370496 (-52) ltac:(lia) canonical_one) as (_ & Hhi).
  rewrite F2R_one in Hhi. specialize (Hhi Hx1).
  destruct (Hrt (2 ^ 50) (-1074) ltac:(lia) ltac:(reflexivity)) as (Hlo & _).
  rewrite F2R_pow2 in Hlo by lia. specialize (Hlo Hx0).
  pose proof (bpow_gt_0 (50 + -1074)) as Hp'.
  pose proof (bpow_le 0 1024 ltac:(lia)) as H1. rewrite bpow_0 in H1.
  destruct Hrep as [(Hz & _)|[(ml & el & Hf & Hbd & Hve)|(Hinf & _)]]; try lra.
  exists ml, el. split; [exact Hf|]. split; [assumption|lra].
Qed.

(** The luminosity formula on a finite non-negative mean lies in (0, 1]. *)
Lemma luminosity_range c :
  valid c = true -> is_finite c = true -> leb pzero c = true ->
  ltb pzero (div (of_Z 1) (add (of_Z 1) c)) = true
  /\ leb (div (of_Z 1) (add (of_Z 1) c)) (of_Z 1) = true.
Proof.
  destruct c as [s|s| |s m e]; intros Hv Hf Hle; try discriminate.
  - split; reflexivity.
  - destruct s; [discriminate|].
    destruct (add_one_ge m e Hv) as (my & ey & Hy & Hby & Hy1).
    rewrite Hy.
    destruct (inv_range my ey Hby Hy1) as (ml & el & Hl & Hbl & Hl1).
    rewrite Hl. split; [reflexivity|].
    apply (proj2 (SFleb_pos_iff ml el 4503599627370496 (-52) Hbl ltac:(reflexivity))).
    rewrite F2R_one. exact Hl1.
Qed.

Lemma lit_10_11_eq : lit 10 11 = lit_10_11.
Proof. vm_compute. reflexivity. Qed.

Lemma lit_11_10_eq : lit 11 10 = lit_11_10.
Proof. vm_compute. reflexivity. Qed.

(** A float above the literal [10/11] is at least its successor. *)
Lemma above_10_11 m e :
  bounded 53 1024 m e = true ->
  (F2R 8188362958855447 (-53) < F2R (Zpos m) e)%R ->
  (F2R 8188362958855448 (-53) <= F2R (Zpos m) e)%R.
Proof.
  intros Hb Hlt. destruct (bounded_canonical _ _ Hb) as (Hc & _).
  destruct (float_lattice (Zpos m) e 8188362958855447 (-53) 0) as [H|H];
    try assumption; try lia; try reflexivity.
  - right. change (0 - 1) with (51 + -52 - 0).
    apply Rle_trans with (F2R (2 ^ 52) (-53)).
    + rewrite F2R_pow2 by lia. apply bpow_le. lia.
    + apply F2R_le. apply Z.leb_le. reflexivity.
  - lra.
Qed.

(** Multiplying any float above [10/11] by [1.1] gives at least 1. *)
Lemma mul_11_10_ge_1 r :
  valid r = true -> ltb (lit 10 11) r = true ->
  leb (of_Z 1) (mul r (lit 11 10)) = true.
Proof.
  rewrite lit_10_11_eq, lit_11_10_eq.
  destruct r as [s|s| |s m e]; intros Hv Hlt; try discriminate.
  - destruct s; [discriminate|reflexivity].
  - destruct s; [discriminate|].
    apply (proj1 (SFltb_pos_iff 8188362958855447 (-53) m e ltac:(reflexivity) Hv)) in Hlt.
    pose proof (above_10_11 m e Hv Hlt) as Hge.
    destruct (SFmul_finite_correct false m e false 4953959590107546 (-52) Hv
                ltac:(reflexivity)) as (v & (Hv0 & Hrt) & Hrep).
    assert (Hx : (1 <= F2R (Zpos m) e * F2R 4953959590107546 (-52))%R).
    { apply Rle_trans with (F2R 8188362958855448 (-53) * F2R 4953959590107546 (-52))%R.
      - rewrite F2R_mul, <- F2R_one.
        change (-52) with (-105 + 53) at 1. rewrite <- F2R_shift by lia.
        apply F2R_le. apply Z.leb_le. vm_compute. reflexivity.
      - pose proof (F2R_pos 4953959590107546 (-52) ltac:(lia)). nra. }
    destruct (Hrt 4503599627370496 (-52) ltac:(lia) canonical_one) as (Hlo & _).
    rewrite F2R_one in Hlo. specialize (Hlo Hx).
    change (mul (S754_finite false m e) lit_11_10)
      with (SFmul 53 1024 (S754_finite false m e)
              (S754_finite false 4953959590107546 (-52))).
    cbn [xorb] in Hrep.
    destruct Hrep as [(Hz & _)|[(mr & er & Hf & Hbd & Hve)|(Hinf & Hf)]]; try lra.
    + rewrite Hf.
      apply (proj2 (SFleb_pos_iff 4503599627370496 (-52) mr er ltac:(reflexivity) Hbd)).
      rewrite F2R_one. lra.
    + rewrite Hf. reflexivity.
Qed.

(** The literal [10/11] is the double just below the real 10/11: a
    valid float exceeds the one exactly when it exceeds the other. *)
Lemma above_10_11_real m e :
  bounded 53 1024 m e = true ->
  (10 / 11 < F2R (Zpos m) e)%R <->
  ltb (lit 10 11) (S754_finite false m e) = true.
Proof.
  intros Hb. rewrite lit_10_11_eq.
  assert (Hb53 : bpow (-53) = (/ 9007199254740992)%R).
  { apply (Rmult_eq_reg_l (bpow 53)); [|pose proof (bpow_gt_0 53); lra].
    rewrite <- bpow_add. rewrite (bpow_IZR 53) by lia.
    change (2 ^ 53) with 9007199254740992. change (bpow (53 + -53)) with 1%R.
    field. }
  assert (Hlo : (F2R 8188362958855447 (-53) < 10 / 11)%R).
  { unfold F2R. rewrite Hb53. lra. }
  assert (Hhi : (10 / 11 < F2R 8188362958855448 (-53))%R).
  { unfold F2R. rewrite Hb53. lra. }
  split; intros H.
  - apply (proj2 (SFltb_pos_iff 8188362958855447 (-53) m e ltac:(reflexivity) Hb)). lra.
  - apply (proj1 (SFltb_pos_iff 8188362958855447 (-53) m e ltac:(reflexivity) Hb)) in H.
    pose proof (above_10_11 m e Hb H). lra.
Qed.

End F64Facts.

(** * Ranges of the mapper's formulas *)

Module RangeFacts.
Import Rounding RoundingFacts F64 F64Facts.

Lemma bpow_neg_pos p : bpow (Zneg p) = (/ IZR (2 ^ Zpos p))%R.
Proof.
  apply (Rmult_eq_reg_l (bpow (Zpos p))); [|pose proof (bpow_gt_0 (Zpos p)); lra].
  rewrite <- bpow_add. rewrite (bpow_IZR (Zpos p)) by lia.
  replace (Zpos p + Zneg p) with 0 by lia. rewrite bpow_0.
  rewrite Rinv_r; [reflexivity|].
  apply not_0_IZR. pose proof (Z.pow_pos_nonneg 2 (Zpos p)). lia.
Qed.

Lemma represents_finite s v f :
  represents s v f -> (0 < v)%R -> (v < bpow 1024)%R ->
  exists m e, f = S754_finite s m e /\ bounded 53 1024 m e = true
              /\ v = F2R (Zpos m) e.
Proof.
  intros [(Hz & _)|[H|(Hinf & _)]] H0 H1; try lra. exact H.
Qed.

(** A rounded value lies between any two floats that enclose the
    exact value. *)
Lemma rounded_between x v s f mlo elo mhi ehi :
  rounds_to x v -> represents s v f ->
  canonical (Zpos mlo) elo -> bounded 53 1024 mhi ehi = true ->
  (F2R (Zpos mlo) elo <= x <= F2R (Zpos mhi) ehi)%R ->
  exists m e, f = S754_finite s m e /\ bounded 53 1024 m e = true
              /\ (F2R (Zpos mlo) elo <= F2R (Zpos m) e <= F2R (Zpos mhi) ehi)%R.
Proof.
  intros (Hv0 & Hrt) Hrep Hlo Hhi (Hx1 & Hx2).
  destruct (bounded_canonical _ _ Hhi) as (Chi & _).
  destruct (Hrt (Zpos mlo) elo ltac:(lia) Hlo) as (H1 & _).
  destruct (Hrt (Zpos mhi) ehi ltac:(lia) Chi) as (_ & H2).
  specialize (H1 Hx1). specialize (H2 Hx2).
  pose proof (F2R_pos (Zpos mlo) elo ltac:(lia)) as Hp.
  pose proof (bounded_lt_emax _ _ Hhi) as Hmax.
  destruct (represents_finite s v f Hrep) as (m & e & Hf & Hb & Hve); try lra.
  exists m, e. rewrite <- Hve. auto.
Qed.

(** Integers below 2^53 are doubles. *)
Lemma of_Z_pos k :
  0 < k < 2 ^ 53 ->
  exists m e, of_Z k = S754_finite false m e /\ bounded 53 1024 m e = true
              /\ F2R (Zpos m) e = IZR k.
Proof.
  intros Hk. destruct k as [|p|p]; try lia.
  pose proof (Zdigits2_bounds (Zpos p) ltac:(lia)) as (Hd1 & Hd2).
  pose proof (Zdigits2_pos (Zpos p) ltac:(lia)) as Hd0.
  set (d := Zdigits2 (Zpos p)) in *.
  assert (Hd : d <= 53).
  { destruct (Z_le_gt_dec d 53) as [|Hgt]; [assumption|].
    assert (2 ^ 53 <= 2 ^ (d - 1)) by (apply Z.pow_le_mono_r; lia). lia. }
  assert (Hpw : 0 < 2 ^ (53 - d)) by (apply Z.pow_pos_nonneg; lia).
  destruct (Zpos p * 2 ^ (53 - d)) as [|mb|mb] eqn:Hmb; try lia.
  assert (HF : F2R (Zpos mb) (d - 53) = IZR (Zpos p)).
  { rewrite <- Hmb. rewrite F2R_shift by lia.
    replace (d - 53 + (53 - d)) with 0 by lia. unfold F2R. rewrite bpow_0. ring. }
  assert (Hb : bounded 53 1024 mb (d - 53) = true).
  { unfold bounded. apply andb_true_intro. split.
    - apply canonical_mantissa_iff. unfold canonical.
      rewrite <- Hmb, Zdigits2_shift by lia. fold d. rewrite fexp64_eq. lia.
    - apply Z.leb_le. lia. }
  exists mb, (d - 53). split; [|split; assumption].
  unfold of_Z. cbn [binary_normalize].
  apply binary_round_representable; [assumption|].
  rewrite HF. unfold F2R. rewrite bpow_0. ring.
Qed.

Lemma leb_pzero_finite m e : leb pzero (S754_finite false m e) = true.
Proof. reflexivity. Qed.

Lemma div_between ma ea mb eb mlo elo mhi ehi :
  canonical (Zpos mlo) elo -> bounded 53 1024 mhi ehi = true ->
  (F2R (Zpos mlo) elo <= F2R (Zpos ma) ea / F2R (Zpos mb) eb
   <= F2R (Zpos mhi) ehi)%R ->
  exists m e,
    div (S754_finite false ma ea) (S754_finite false mb eb)
    = S754_finite false m e
    /\ bounded 53 1024 m e = true
    /\ (F2R (Zpos mlo) elo <= F2R (Zpos m) e <= F2R (Zpos mhi) ehi)%R.
Proof.
  intros Hlo Hhi Hx.
  destruct (SFdiv_pos_correct false ma ea false mb eb) as (v & Hrt & Hrep).
  exact (rounded_between _ v false _ mlo elo mhi ehi Hrt Hrep Hlo Hhi Hx).
Qed.

Lemma mul_between ma ea mb eb mlo elo mhi ehi :
  bounded 53 1024 ma ea = true -> bounded 53 1024 mb eb = true ->
  canonical (Zpos mlo) elo -> bounded 53 1024 mhi ehi = true ->
  (F2R (Zpos mlo) elo <= F2R (Zpos ma) ea * F2R (Zpos mb) eb
   <= F2R (Zpos mhi) ehi)%R ->
  exists m e,
    mul (S754_finite false ma ea) (S754_finite false mb eb)
    = S754_finite false m e
    /\ bounded 53 1024 m e = true
    /\ (F2R (Zpos mlo) elo <= F2R (Zpos m) e <= F2R (Zpos mhi) ehi)%R.
Proof.
  intros Ha Hb Hlo Hhi Hx.
  destruct (SFmul_finite_correct false ma ea false mb eb Ha Hb) as (v & Hrt & Hrep).
  exact (rounded_between _ v false _ mlo elo mhi ehi Hrt Hrep Hlo Hhi Hx).
Qed.

(** The quotient of a word remainder by its modulus. *)
Lemma fraction_between k n mn en mlo elo mhi ehi :
  0 < k < 2 ^ 53 ->
  of_Z n = S754_finite false mn en ->
  canonical (Zpos mlo) elo -> bounded 53 1024 mhi ehi = true ->
  (F2R (Zpos mlo) elo <= IZR k / F2R (Zpos mn) en <= F2R (Zpos mhi) ehi)%R ->
  exists m e,
    div (of_Z k) (of_Z n) = S754_finite false m e
    /\ bounded 53 1024 m e = true
    /\ (F2R (Zpos mlo) elo <= F2R (Zpos m) e <= F2R (Zpos mhi) ehi)%R.
Proof.
  intros Hk Hn Hlo Hhi Hx.
  destruct (of_Z_pos k Hk) as (mk & ek & Hfk & _ & HFk).
  rewrite Hfk, Hn. apply div_between; try assumption. now rewrite HFk.
Qed.

Lemma radius_range k :
  0 <= k < 1000 ->
  leb pzero (radius_of k) = true /\ ltb (radius_of k) (of_Z 1) = true.
Proof.
  intros Hk. destruct (Z.eq_dec k 0) as [->|Hne]; [split; reflexivity|].
  assert (Hk1 : (1 <= IZR k <= 999)%R) by (split; apply IZR_le; lia).
  destruct (fraction_between k 1000 8796093022208000 (-43)
              4503599627370496 (-62) 9007199254740991 (-53))
    as (m & e & Hf & Hb & Hlo & Hhi);
    [lia|reflexivity|reflexivity|reflexivity| |].
  { unfold F2R. bpow_num bpow_neg_pos. lra. }
  unfold radius_of. rewrite Hf. split; [reflexivity|].
  apply (proj2 (SFltb_pos_iff m e 4503599627370496 (-52) Hb eq_refl)).
  rewrite F2R_one. revert Hhi. unfold F2R. bpow_num bpow_neg_pos. lra.
Qed.

Lemma eccentricity_range k :
  0 <= k < 100 ->
  leb pzero (eccentricity_of k) = true
  /\ ltb (eccentricity_of k) (lit 5 10) = true.
Proof.
  intros Hk. destruct (Z.eq_dec k 0) as [->|Hne]; [split; reflexivity|].
  assert (Hk1 : (1 <= IZR k <= 99)%R) by (split; apply IZR_le; lia).
  destruct (fraction_between k 100 7036874417766400 (-46)
              4503599627370496 (-62) 9007199254740991 (-53))
    as (mq & eq & Hq & Hbq & Hlo & Hhi);
    [lia|reflexivity|reflexivity|reflexivity| |].
  { unfold F2R. bpow_num bpow_neg_pos. lra. }
  destruct (mul_between mq eq 4503599627370496 (-53)
              4503599627370496 (-63) 9007199254740991 (-54) Hbq)
    as (m & e & Hf & Hb & Hlo' & Hhi');
    [reflexivity|reflexivity|reflexivity| |].
  { revert Hlo Hhi. unfold F2R. bpow_num bpow_neg_pos. lra. }
  unfold eccentricity_of. rewrite Hq.
  change (lit 5 10) with (S754_finite false 4503599627370496 (-53)).
  rewrite Hf. split; [reflexivity|].
  apply (proj2 (SFltb_pos_iff m e 4503599627370496 (-53) Hb eq_refl)).
  revert Hhi'. unfold F2R. bpow_num bpow_neg_pos. lra.
Qed.

Lemma angle_range k :
  0 <= k < 10000 ->
  leb pzero (angle_of k) = true
  /\ ltb (angle_of k) Kepler432Lattice.two_pi = true.
Proof.
  intros Hk. destruct (Z.eq_dec k 0) as [->|Hne]; [split; reflexivity|].
  assert (Hk1 : (1 <= IZR k <= 9999)%R) by (split; apply IZR_le; lia).
  destruct (fraction_between k 10000 5497558138880000 (-39)
              4503599627370496 (-66) 9006300000000000 (-53))
    as (mq & eq & Hq & Hbq & Hlo & Hhi);
    [lia|reflexivity|reflexivity|reflexivity| |].
  { unfold F2R. bpow_num bpow_neg_pos. lra. }
  destruct (mul_between mq eq 4503599627370496 (-51)
              4503599627370496 (-65) 9006300000000000 (-52) Hbq)
    as (mt & et & Ht & Hbt & Hlo' & Hhi');
    [reflexivity|reflexivity|reflexivity| |].
  { revert Hlo Hhi. unfold F2R. bpow_num bpow_neg_pos. lra. }
  destruct (mul_between mt et 7074237752028440 (-51)
              4503599627370496 (-65) 7074237752028439 (-50) Hbt)
    as (m & e & Hf & Hb & Hlo'' & Hhi'');
    [reflexivity|reflexivity|reflexivity| |].
  { revert Hlo' Hhi'. unfold F2R. bpow_num bpow_neg_pos. lra. }
  unfold angle_of. rewrite Hq.
  change (of_Z 2) with (S754_finite false 4503599627370496 (-51)).
  rewrite Ht.
  change JSMath.PI with (S754_finite false 7074237752028440 (-51)).
  rewrite Hf. split; [reflexivity|].
  change Kepler432Lattice.two_pi with (S754_finite false 7074237752028440 (-50)).
  apply (proj2 (SFltb_pos_iff m e 7074237752028440 (-50) Hb eq_refl)).
  revert Hhi''. unfold F2R. bpow_num bpow_neg_pos. lra.
Qed.

End RangeFacts.

(** * The hash decoder *)

Module HashDecoder.
Import F64 JS Kepler432Lattice.

Lemma array_set_length a i v : length (array_set a i v) = length a.
Proof.
  revert i. induction a as [|b a IH]; intros [|i]; cbn [array_set length];
    try reflexivity. now rewrite IH.
Qed.

Lemma nth_array_set a i v k :
  (i < length a)%nat ->
  nth k (array_set a i v) 0 = if (k =? i)%nat then v else nth k a 0.
Proof.
  revert i k. induction a as [|b a IH]; intros i k Hi; cbn [length] in Hi.
  - lia.
  - destruct i as [|i], k as [|k]; cbn [array_set nth Nat.eqb]; try reflexivity.
    apply IH. lia.
Qed.

Lemma fill_bytes_length fuel cleanHash i bytes :
  length (fill_bytes fuel cleanHash i bytes) = length bytes.
Proof.
  revert i bytes. induction fuel as [|fuel IH]; intros i bytes;
    cbn [fill_bytes]; [reflexivity|].
  destruct (i <? Nat.min (length cleanHash) 64)%nat; [|reflexivity].
  now rewrite IH, array_set_length.
Qed.

(** The loop invariant: started at pair [j], the loop writes exactly
    the pairs from [j] on that lie inside the first 64 characters. *)
Lemma fill_bytes_nth fuel cleanHash j bytes k :
  length bytes = 32%nat -> (32 <= fuel + j)%nat ->
  nth k (fill_bytes fuel cleanHash (2 * j) bytes) 0
  = if ((j <=? k) && (2 * k <? Nat.min (length cleanHash) 64))%nat
    then decode_pair (substr cleanHash (2 * k) 2)
    else nth k bytes 0.
Proof.
  revert j bytes. induction fuel as [|fuel IH]; intros j bytes Hlen Hfuel;
    cbn [fill_bytes].
  - destruct (Nat.leb_spec j k); destruct (Nat.ltb_spec (2 * k) (Nat.min (length cleanHash) 64));
      cbn [andb]; try reflexivity. lia.
  - destruct (Nat.ltb_spec (2 * j) (Nat.min (length cleanHash) 64)) as [Hin|Hout].
    + replace (2 * j + 2)%nat with (2 * S j)%nat by lia.
      rewrite IH by (rewrite ?array_set_length; lia).
      replace (2 * j / 2)%nat with j by (rewrite Nat.mul_comm, Nat.div_mul; lia).
      rewrite nth_array_set by lia.
      destruct (Nat.leb_spec (S j) k); destruct (Nat.leb_spec j k);
        destruct (Nat.ltb_spec (2 * k) (Nat.min (length cleanHash) 64));
        destruct (Nat.eqb_spec k j); cbn [andb]; try reflexivity; try lia.
      subst k. reflexivity.
    + destruct (Nat.leb_spec j k);
        destruct (Nat.ltb_spec (2 * k) (Nat.min (length cleanHash) 64));
        cbn [andb]; try reflexivity. lia.
Qed.

Lemma nth_repeat_0 k n : nth k (repeat 0 n) 0 = 0.
Proof.
  revert k. induction n as [|n IH]; intros [|k]; cbn [repeat nth]; auto.
Qed.

Lemma hashToBuffer_length hash : length (hashToBuffer hash) = 32%nat.
Proof. unfold hashToBuffer. now rewrite fill_bytes_length, repeat_length. Qed.

Lemma hashToBuffer_nth hash k :
  nth k (hashToBuffer hash) 0
  = if (2 * k <? Nat.min (length (strip_prefix hash)) 64)%nat
    then decode_pair (substr (strip_prefix hash) (2 * k) 2)
    else 0.
Proof.
  unfold hashToBuffer.
  pose proof (fill_bytes_nth 32 (strip_prefix hash) 0 (repeat 0 32) k
                (repeat_length _ _) ltac:(lia)) as H.
  change (2 * 0)%nat with 0%nat in H. rewrite H.
  cbn [Nat.leb andb]. now rewrite nth_repeat_0.
Qed.

(** What a pair decodes to. *)

Lemma decode_pair_range pair : 0 <= decode_pair pair < 256.
Proof. unfold decode_pair, ToUint8. apply Z.mod_pos_bound. lia. Qed.

Lemma decode_pair_nan pair :
  is_nan (parseInt16 pair) = true -> decode_pair pair = 0.
Proof.
  unfold decode_pair, or_else, truthy. intros ->. reflexivity.
Qed.

Lemma byte_value_in v : 0 <= v < 256 -> In v byte_values.
Proof.
  intros H. unfold byte_values. apply in_map_iff. exists (Z.to_nat v).
  split; [lia|]. apply in_seq. lia.
Qed.

Lemma store_of_Z v :
  0 <= v < 256 ->
  ToUint8 (or_else (if v =? 0 then pzero else of_Z v) pzero) = v.
Proof.
  intros H. apply byte_value_in in H.
  assert (Hall : forallb
            (fun v => ToUint8 (or_else (if v =? 0 then pzero else of_Z v) pzero)
                      =? v) byte_values = true) by (vm_compute; reflexivity).
  rewrite forallb_forall in Hall. apply Z.eqb_eq. now apply Hall.
Qed.

Lemma hex_digit_inv c d :
  hex_digit c = Some d ->
  0 <= d < 16
  /\ is_white_space c = false
  /\ N.eqb c PLUS = false /\ N.eqb c MINUS = false
  /\ N.eqb c LOWER_X = false /\ N.eqb c UPPER_X = false.
Proof.
  unfold hex_digit, is_white_space, PLUS, MINUS, LOWER_X, UPPER_X.
  cbn [existsb].
  destruct (N.leb_spec 48 c); destruct (N.leb_spec c 57); cbn [andb];
    [intros [= <-]|..];
    [|destruct (N.leb_spec 97 c); destruct (N.leb_spec c 102); cbn [andb];
      [intros [= <-]|..];
      [|destruct (N.leb_spec 65 c); destruct (N.leb_spec c 70); cbn [andb];
        [intros [= <-]|..]; try discriminate..]..];
    (split; [lia|]);
    rewrite ?orb_false_iff, ?andb_false_iff, ?N.eqb_neq, ?N.leb_gt;
    repeat split; try lia; try (left; lia); try (right; lia).
Qed.

(** Two hexadecimal digits decode to the byte they spell. *)
Lemma decode_pair_hex c1 c2 d1 d2 :
  hex_digit c1 = Some d1 -> hex_digit c2 = Some d2 ->
  decode_pair [c1; c2] = 16 * d1 + d2.
Proof.
  intros H1 H2.
  destruct (hex_digit_inv _ _ H1) as (R1 & W1 & P1 & M1 & _).
  destruct (hex_digit_inv _ _ H2) as (R2 & _ & _ & _ & X2 & X2').
  unfold decode_pair, parseInt16. cbn [trim_start]. rewrite W1, P1, M1.
  cbn [orb strip_0x]. rewrite X2, X2'. cbn [orb]. rewrite andb_false_r.
  cbn [hex_run]. rewrite H1, H2. unfold hex_value. cbn [fold_left].
  replace (16 * (16 * 0 + d1) + d2) with (16 * d1 + d2) by lia.
  apply store_of_Z. lia.
Qed.

(** A hexadecimal digit followed by anything else decodes to the digit
    alone: [parseInt] stops at the first character it cannot use. *)
Lemma decode_pair_leading_digit c1 c2 d1 :
  hex_digit c1 = Some d1 -> hex_digit c2 = None ->
  decode_pair [c1; c2] = d1.
Proof.
  intros H1 H2.
  destruct (hex_digit_inv _ _ H1) as (R1 & W1 & P1 & M1 & _).
  unfold decode_pair, parseInt16. cbn [trim_start]. rewrite W1, P1, M1.
  cbn [orb strip_0x].
  destruct (N.eqb c1 DIGIT_0 && (N.eqb c2 LOWER_X || N.eqb c2 UPPER_X)) eqn:H0x.
  - apply andb_prop in H0x. destruct H0x as (H0 & _).
    apply N.eqb_eq in H0. subst c1. cbn in H1. injection H1 as <-. reflexivity.
  - cbn [hex_run]. rewrite H1, H2. unfold hex_value. cbn [fold_left].
    replace (16 * 0 + d1) with d1 by lia.
    apply store_of_Z. lia.
Qed.

Lemma strip_prefix_bafkrei rest : strip_prefix (str "bafkrei" ++ rest) = rest.
Proof. reflexivity. Qed.

Lemma strip_prefix_Qm rest : strip_prefix (str "Qm" ++ rest) = rest.
Proof. reflexivity. Qed.

Lemma strip_prefix_phash rest : strip_prefix (str "phash:" ++ rest) = rest.
Proof. reflexivity. Qed.

Lemma strip_prefix_none hash :
  starts_with (str "bafkrei") hash = false ->
  starts_with (str "Qm") hash = false ->
  starts_with (str "phash:") hash = false ->
  strip_prefix hash = hash.
Proof. unfold strip_prefix. now intros -> -> ->. Qed.

End HashDecoder.

(** * The orbital mapper *)

Module OrbitalMapper.
Import F64 JS Kepler432Lattice.

Section WithMath.
Context {M : MathImpl}.

Lemma hashToOrbit_r hash :
  r (hashToOrbit hash)
  = radius_of (getUint32_le (hashToBuffer hash) 0 mod 1000).
Proof. unfold hashToOrbit, radius_of. cbn [r]. reflexivity. Qed.

Lemma hashToOrbit_theta hash :
  theta (hashToOrbit hash)
  = angle_of (getUint32_le (hashToBuffer hash) 4 mod 10000).
Proof. unfold hashToOrbit, angle_of. cbn [theta]. reflexivity. Qed.

Lemma hashToOrbit_phi hash :
  phi (hashToOrbit hash)
  = angle_of (getUint32_le (hashToBuffer hash) 8 mod 10000).
Proof. unfold hashToOrbit, angle_of. cbn [phi]. reflexivity. Qed.

Lemma hashToOrbit_eccentricity hash :
  eccentricity (hashToOrbit hash)
  = eccentricity_of (getUint32_le (hashToBuffer hash) 12 mod 100).
Proof. unfold hashToOrbit, eccentricity_of. cbn [eccentricity]. reflexivity. Qed.

Lemma hashToOrbit_period hash :
  period (hashToOrbit hash) = orbit_period (r (hashToOrbit hash)).
Proof. unfold hashToOrbit. cbn [r period]. reflexivity. Qed.

Lemma hashToOrbit_velocity hash :
  velocity (hashToOrbit hash)
  = orbit_velocity (r (hashToOrbit hash)) (period (hashToOrbit hash)).
Proof. unfold hashToOrbit. cbn [r period velocity]. reflexivity. Qed.

(** At [r = +0] the period is [+0] and the velocity is [0/0]. *)
Lemma orbit_period_zero : orbit_period pzero = pzero.
Proof. reflexivity. Qed.

Lemma orbit_velocity_zero : orbit_velocity pzero pzero = nan.
Proof. reflexivity. Qed.

End WithMath.
End OrbitalMapper.

(** * The harmonic generator *)

Module Harmonics.
Import F64 JS Kepler432Lattice.

Lemma mul_pinf_not_finite a : is_finite (mul a pinf) = false.
Proof. destruct a as [[]|[]| |[] m e]; reflexivity. Qed.

Lemma Array_map_from_length {A B : Type} (f : A -> nat -> B) i a :
  length (Array_map_from f i a) = length a.
Proof.
  revert i. induction a as [|a0 a IH]; intros i; cbn [Array_map_from length];
    [reflexivity|]. now rewrite IH.
Qed.

Lemma Array_map_from_Forall {A B : Type} (f : A -> nat -> B) (P : B -> Prop) i a :
  (forall a0 j, P (f a0 j)) -> Forall P (Array_map_from f i a).
Proof.
  intros H. revert i. induction a as [|a0 a IH]; intros i; cbn [Array_map_from];
    constructor; auto.
Qed.

Section WithMath.
Context {M : MathImpl}.

Lemma kepler_factor_zero : JSMath.pow pzero (opp (lit 15 10)) = pinf.
Proof. reflexivity. Qed.

Lemma orbitalHarmonics_length coordinates eigenvalues :
  length (orbitalHarmonics coordinates eigenvalues) = length eigenvalues.
Proof. apply Array_map_from_length. Qed.

Lemma orbitalHarmonics_zero_radius coordinates eigenvalues :
  r coordinates = pzero ->
  Forall (fun f => is_finite f = false)
    (orbitalHarmonics coordinates eigenvalues).
Proof.
  intros Hr. unfold orbitalHarmonics, Array_map. rewrite Hr.
  apply Array_map_from_Forall. intros eigen i. cbv zeta.
  rewrite kepler_factor_zero. apply mul_pinf_not_finite.
Qed.

(** The first frequency of a sequence with a positive first
    eigenvalue, at the coordinates of the all-zero hash. *)
Lemma orbitalHarmonics_zero_hash_head :
  hd nan (orbitalHarmonics (hashToOrbit zero_hash) vector2_eigenvalues) = pinf.
Proof. reflexivity. Qed.

End WithMath.
End Harmonics.

(** * The factory, gravity, Lagrange points and the orrery's maps *)

Module Factory.
Import F64 JS Kepler432Lattice.

Section WithMath.
Context {M : MathImpl}.

(** The record the factory returns, without the completion wrapper. *)
Lemma createCelestialBody_eq cid proteinHash eigenvalues :
  createCelestialBody cid proteinHash eigenvalues
  = Normal
      {| cid := cid;
         soul := proteinHash;
         coordinates := hashToOrbit proteinHash;
         harmonics := eigenvalues;
         luminosity := div (of_Z 1) (add (of_Z 1) (mean eigenvalues));
         color := orbitalColor (hashToOrbit proteinHash);
         melody := orbitalHarmonics (hashToOrbit proteinHash) eigenvalues |}.
Proof. reflexivity. Qed.

Lemma mean_empty : mean [] = nan.
Proof. reflexivity. Qed.

End WithMath.
End Factory.

Module Gravity.
Import F64 JS Kepler432Lattice F64Facts.

Lemma distanceToSquared_sym a b :
  Vector3.distanceToSquared a b = Vector3.distanceToSquared b a.
Proof.
  unfold Vector3.distanceToSquared. cbv zeta.
  now rewrite (sub_square_sym (Vector3.vx a)), (sub_square_sym (Vector3.vy a)),
    (sub_square_sym (Vector3.vz a)).
Qed.

Lemma distanceTo_sym a b : Vector3.distanceTo a b = Vector3.distanceTo b a.
Proof. unfold Vector3.distanceTo. now rewrite distanceToSquared_sym. Qed.

Lemma sub_self_finite a : is_finite a = true -> mul (sub a a) (sub a a) = pzero.
Proof.
  destruct a as [[]|[]| |s m e]; intros H; try discriminate; try reflexivity.
  unfold sub. cbn [SFsub]. 
  replace (cond_Zopp s (Zpos (fst (shl_align m e (Z.min e e))))
           - cond_Zopp s (Zpos (fst (shl_align m e (Z.min e e))))) with 0 by lia.
  reflexivity.
Qed.

Lemma distanceTo_self a :
  is_finite (Vector3.vx a) = true -> is_finite (Vector3.vy a) = true ->
  is_finite (Vector3.vz a) = true ->
  Vector3.distanceTo a a = pzero.
Proof.
  intros Hx Hy Hz. unfold Vector3.distanceTo, Vector3.distanceToSquared. cbv zeta.
  now rewrite !sub_self_finite.
Qed.

Lemma gravitationalPull_sym a b :
  valid (luminosity a) = true -> valid (luminosity b) = true ->
  gravitationalPull a b = gravitationalPull b a.
Proof.
  intros Ha Hb. unfold gravitationalPull. cbv zeta.
  rewrite (distanceTo_sym (position b) (position a)).
  rewrite !mul_one_l by assumption.
  now rewrite (mul_comm (luminosity b)).
Qed.

Lemma gravitationalPull_self a :
  finite_position (coordinates a) = true -> gravitationalPull a a = pinf.
Proof.
  unfold finite_position. intros H.
  apply andb_prop in H. destruct H as (H & Hz).
  apply andb_prop in H. destruct H as (Hx & Hy).
  unfold gravitationalPull. cbv zeta.
  rewrite distanceTo_self by assumption. reflexivity.
Qed.

End Gravity.

Module Lagrange.
Import F64 JS Kepler432Lattice F64Facts.

Section WithMath.
Context {M : MathImpl}.

Lemma findLagrangePoints_eq primaryBody :
  findLagrangePoints primaryBody
  = let r := r (coordinates primaryBody) in
    let theta := theta (coordinates primaryBody) in
    let phi := phi (coordinates primaryBody) in
    [ sphericalToOrbital (mul r (lit 9 10)) theta phi;
      sphericalToOrbital (mul r (lit 11 10)) theta phi;
      sphericalToOrbital r (add theta JSMath.PI) phi;
      sphericalToOrbital r (add theta (div JSMath.PI (of_Z 3))) phi;
      sphericalToOrbital r (sub theta (div JSMath.PI (of_Z 3))) phi ].
Proof. reflexivity. Qed.

End WithMath.
End Lagrange.

Module OrreryFacts.
Import F64 JS Kepler432Lattice CosmicOrrery.

Lemma key_eqb_refl k : JSMap.key_eqb k k = true.
Proof. unfold JSMap.key_eqb. destruct (list_eq_dec N.eq_dec k k); congruence. Qed.

Lemma key_eqb_eq k k' : JSMap.key_eqb k k' = true <-> k = k'.
Proof.
  unfold JSMap.key_eqb. destruct (list_eq_dec N.eq_dec k k'); split; congruence.
Qed.

Lemma get_set_same {V : Type} (m : JSMap.t V) k v :
  JSMap.get (JSMap.set m k v) k = Some v.
Proof.
  induction m as [|[k' v'] m IH]; cbn [JSMap.set JSMap.get].
  - now rewrite key_eqb_refl.
  - destruct (JSMap.key_eqb k k') eqn:Hk; cbn [JSMap.get].
    + now rewrite key_eqb_refl.
    + now rewrite Hk.
Qed.

Lemma get_set_other {V : Type} (m : JSMap.t V) k k' v :
  k <> k' -> JSMap.get (JSMap.set m k v) k' = JSMap.get m k'.
Proof.
  intros Hne. induction m as [|[k0 v0] m IH]; cbn [JSMap.set JSMap.get].
  - destruct (JSMap.key_eqb k' k) eqn:Hk; [|reflexivity].
    apply key_eqb_eq in Hk. congruence.
  - destruct (JSMap.key_eqb k k0) eqn:Hk; cbn [JSMap.get].
    + apply key_eqb_eq in Hk. subst k0.
      destruct (JSMap.key_eqb k' k) eqn:Hk'; [|reflexivity].
      apply key_eqb_eq in Hk'. congruence.
    + now rewrite IH.
Qed.

End OrreryFacts.

(** * The orrery's calls, step by step *)

Module OrreryState.
Import F64 JS Kepler432Lattice CosmicOrrery OrreryFacts.

(** Numbers that JSON carries as they are come back as they were. *)
Lemma ToNumber_stringify x :
  json_exact x = true -> JSON.ToNumber (JSON.stringify x) = x.
Proof. destruct x as [[]|[]| |s m e]; intros H; try discriminate; reflexivity. Qed.

Lemma ToNumber_stringify_all l :
  forallb json_exact l = true ->
  map JSON.ToNumber (map JSON.stringify l) = l.
Proof.
  induction l as [|x l IH]; cbn [forallb map]; intros H; [reflexivity|].
  apply andb_prop in H. destruct H as (Hx & Hl).
  now rewrite ToNumber_stringify, IH.
Qed.

Section WithHost.
Context {M : MathImpl} {T : ToneImpl}.

(** [addCode], outcome by outcome: the visualization gets the body
    first; a throw of the audio library comes before the orrery's own
    map is written. *)
Lemma addCode_run proteinHash eigenvalues cid o body :
  createCelestialBody (contentId_of cid proteinHash) proteinHash eigenvalues
  = Normal body ->
  addCode proteinHash eigenvalues cid o
  = let contentId := contentId_of cid proteinHash in
    let seen := JSMap.set (visualization o) contentId body in
    match music o with
    | None =>
        ({| bodies := JSMap.set (bodies o) contentId body;
            visualization := seen; music := None |}, Normal body)
    | Some m =>
        match music_addCelestialVoice body m with
        | (m', Normal _) =>
            match birth_chord (MusicOfSpheres.birth_frequencies body) with
            | Normal _ =>
                ({| bodies := JSMap.set (bodies o) contentId body;
                    visualization := seen; music := Some m' |},
                 Normal body)
            | Throw e =>
                ({| bodies := bodies o; visualization := seen;
                    music := Some m' |}, Throw e)
            end
        | (m', Throw e) =>
            ({| bodies := bodies o; visualization := seen;
                music := Some m' |}, Throw e)
        end
    end.
Proof.
  intros Hb. unfold addCode. fold (contentId_of cid proteinHash).
  cbv zeta. unfold and_then at 1. unfold lift at 1. rewrite Hb.
  unfold and_then at 1. unfold visualization_addBody, and_then at 1.
  unfold lift. rewrite Hb.
  unfold and_then at 1, if_music. cbn [music bodies visualization].
  destruct (music o) as [m|] eqn:Hm.
  - destruct (music_addCelestialVoice body m) as [m' [[]|e]] eqn:Hv.
    + unfold music_playBirthChord.
      destruct (birth_chord (MusicOfSpheres.birth_frequencies body))
        as [[]|e]; reflexivity.
    + reflexivity.
  - reflexivity.
Qed.

(** One pass of the import loop, outcome by outcome. *)
Lemma import_entry_run bodyData o :
  import_entry bodyData o
  = match
      createCelestialBody_parsed (e_cid bodyData) (e_soul bodyData)
        (e_harmonics bodyData)
    with
    | Throw e => (o, Throw e)
    | Normal body =>
        let seen := JSMap.set (visualization o) (e_cid bodyData) body in
        match music o with
        | None =>
            ({| bodies := bodies o; visualization := seen; music := None |},
             Normal tt)
        | Some m =>
            match music_addCelestialVoice body m with
            | (m', Normal _) =>
                ({| bodies := JSMap.set (bodies o) (e_cid bodyData) body;
                    visualization := seen; music := Some m' |}, Normal tt)
            | (m', Throw e) =>
                ({| bodies := bodies o; visualization := seen;
                    music := Some m' |}, Throw e)
            end
        end
    end.
Proof.
  unfold import_entry, and_then at 1, visualization_addBody_parsed.
  unfold and_then at 1, lift.
  destruct (createCelestialBody_parsed (e_cid bodyData) (e_soul bodyData)
              (e_harmonics bodyData)) as [body|e] eqn:Hb; [|reflexivity].
  cbn [music]. cbv zeta.
  destruct (music o) as [m|] eqn:Hm; [|reflexivity].
  unfold and_then, lift.
  unfold if_music, bodies_set. cbn [music bodies visualization].
  destruct (music_addCelestialVoice body m) as [m' [[]|e]]; reflexivity.
Qed.

(** The factory on a parsed entry that has a soul and harmonics. *)
Lemma createCelestialBody_parsed_eq cid proteinHash eigenvalues :
  createCelestialBody_parsed cid (Some proteinHash) (Some eigenvalues)
  = createCelestialBody cid proteinHash (map JSON.ToNumber eigenvalues).
Proof. reflexivity. Qed.

(** An exported entry of a body the factory built from numbers that
    JSON carries: the import path rebuilds that body. *)
Lemma rebuild_exported kv :
  factory_built kv ->
  forallb json_exact (harmonics (snd kv)) = true ->
  createCelestialBody_parsed (e_cid (export_entry kv))
    (e_soul (export_entry kv)) (e_harmonics (export_entry kv))
  = Normal (snd kv).
Proof.
  destruct kv as [k b]. unfold factory_built. cbn [fst snd]. intros Hb Hx.
  cbn [export_entry e_cid e_soul e_harmonics].
  rewrite createCelestialBody_parsed_eq, ToNumber_stringify_all by assumption.
  exact Hb.
Qed.

(** The import path never reads the coordinates or the luminosity
    written in an entry. *)
Lemma import_entry_reads bodyData bodyData' o :
  e_cid bodyData = e_cid bodyData' ->
  e_soul bodyData = e_soul bodyData' ->
  e_harmonics bodyData = e_harmonics bodyData' ->
  import_entry bodyData o = import_entry bodyData' o.
Proof.
  intros H1 H2 H3. rewrite !import_entry_run. now rewrite H1, H2, H3.
Qed.

Lemma importState_one bodyData o :
  importState [bodyData] o = import_entry bodyData o.
Proof.
  cbn [importState]. unfold and_then, ret.
  destruct (import_entry bodyData o) as [o' [[]|e]]; reflexivity.
Qed.

End WithHost.
End OrreryState.
Module NaNFacts.
Import F64.

Lemma add_nan_l x : add nan x = nan.
Proof. destruct x as [[]|[]| |[] m e]; reflexivity. Qed.

Lemma add_nan_r x : add x nan = nan.
Proof. destruct x as [[]|[]| |[] m e]; reflexivity. Qed.

Lemma sub_nan_l x : sub nan x = nan.
Proof. destruct x as [[]|[]| |[] m e]; reflexivity. Qed.

Lemma sub_nan_r x : sub x nan = nan.
Proof. destruct x as [[]|[]| |[] m e]; reflexivity. Qed.

Lemma mul_nan_l x : mul nan x = nan.
Proof. destruct x as [[]|[]| |[] m e]; reflexivity. Qed.

Lemma mul_nan_r x : mul x nan = nan.
Proof. destruct x as [[]|[]| |[] m e]; reflexivity. Qed.

Lemma div_nan_l x : div nan x = nan.
Proof. destruct x as [[]|[]| |[] m e]; reflexivity. Qed.

Lemma div_nan_r x : div x nan = nan.
Proof. destruct x as [[]|[]| |[] m e]; reflexivity. Qed.

Lemma ltb_nan_r x : ltb x nan = false.
Proof. destruct x as [[]|[]| |[] m e]; reflexivity. Qed.

Lemma leb_nan_r x : leb x nan = false.
Proof. destruct x as [[]|[]| |[] m e]; reflexivity. Qed.

Lemma ltb_nan_l x : ltb nan x = false.
Proof. destruct x as [[]|[]| |[] m e]; reflexivity. Qed.

End NaNFacts.
(** * The trail array *)

Module TrailFacts.
Import F64 JS JSMore OrreryVisualization.

Lemma typed_set_length a i v : length (typed_set a i v) = length a.
Proof.
  revert i. induction a as [|x a IH]; intros [|i]; cbn [typed_set length];
    try reflexivity. now rewrite IH.
Qed.

Lemma nth_error_typed_set a i v k :
  nth_error (typed_set a i v) k
  = if (k =? i)%nat && (i <? length a)%nat then Some v else nth_error a k.
Proof.
  revert i k. induction a as [|x a IH]; intros i k.
  - cbn [typed_set length]. change (i <? 0)%nat with false.
    rewrite andb_false_r. now destruct i.
  - destruct i as [|i], k as [|k]; cbn [typed_set nth_error length];
      try reflexivity.
    rewrite IH. reflexivity.
Qed.

Lemma Float32Array_set_length a i v :
  length (Float32Array_set a i v) = length a.
Proof. apply typed_set_length. Qed.

(** One round of the loop: the three elements at [i], [i + 1],
    [i + 2] receive the three elements before them. *)
Lemma shift_step old i cur :
  (3 <= i)%nat -> (i + 3 <= length old)%nat ->
  trail_shifted old (i + 3) cur ->
  trail_shifted old i
    (let positions :=
       Float32Array_set cur i (typed_get cur (i - 3)) in
     let positions :=
       Float32Array_set positions (i + 1) (typed_get positions (i - 2)) in
     Float32Array_set positions (i + 2) (typed_get positions (i - 1))).
Proof.
  intros Hi Hlen (Hl & Hk). cbv zeta.
  assert (Hget : forall j, (j < i)%nat -> nth_error cur j = nth_error old j).
  { intros j Hj. rewrite Hk by lia.
    destruct (Nat.ltb_spec j (i + 3)); [reflexivity|lia]. }
  assert (Hsome : forall j, (j < length old)%nat ->
                    exists v, nth_error old j = Some v).
  { intros j Hj. destruct (nth_error old j) eqn:E; [eauto|].
    apply nth_error_None in E. lia. }
  destruct (Hsome (i - 3)%nat ltac:(lia)) as (v0 & E0).
  destruct (Hsome (i - 2)%nat ltac:(lia)) as (v1 & E1).
  destruct (Hsome (i - 1)%nat ltac:(lia)) as (v2 & E2).
  unfold Float32Array_set, typed_get.
  rewrite (Hget (i - 3)%nat) by lia. rewrite E0. cbn [ToNumber].
  rewrite nth_error_typed_set.
  replace ((i - 2 =? i)%nat) with false by (symmetry; apply Nat.eqb_neq; lia).
  cbn [andb]. rewrite (Hget (i - 2)%nat) by lia. rewrite E1. cbn [ToNumber].
  rewrite !nth_error_typed_set.
  replace ((i - 1 =? i + 1)%nat) with false by (symmetry; apply Nat.eqb_neq; lia).
  replace ((i - 1 =? i)%nat) with false by (symmetry; apply Nat.eqb_neq; lia).
  cbn [andb]. rewrite (Hget (i - 1)%nat) by lia. rewrite E2. cbn [ToNumber].
  split.
  { now rewrite !typed_set_length. }
  intros k Hklt. rewrite !nth_error_typed_set, !typed_set_length, Hl.
  replace (i + 2 <? length old)%nat with true by (symmetry; apply Nat.ltb_lt; lia).
  replace (i + 1 <? length old)%nat with true by (symmetry; apply Nat.ltb_lt; lia).
  replace (i <? length old)%nat with true by (symmetry; apply Nat.ltb_lt; lia).
  rewrite !andb_true_r.
  destruct (Nat.eqb_spec k (i + 2)) as [->|N2].
  { replace (i + 2 <? i)%nat with false by (symmetry; apply Nat.ltb_ge; lia).
    replace (i + 2 - 3)%nat with (i - 1)%nat by lia. now rewrite E2. }
  destruct (Nat.eqb_spec k (i + 1)) as [->|N1].
  { replace (i + 1 <? i)%nat with false by (symmetry; apply Nat.ltb_ge; lia).
    replace (i + 1 - 3)%nat with (i - 2)%nat by lia. now rewrite E1. }
  destruct (Nat.eqb_spec k i) as [->|N0].
  { rewrite Nat.ltb_irrefl. now rewrite E0. }
  rewrite Hk by lia.
  destruct (Nat.ltb_spec k (i + 3)), (Nat.ltb_spec k i); try reflexivity; lia.
Qed.

Lemma shift_trail_spec old q : forall fuel cur i,
  i = (3 * q)%nat -> (q < fuel)%nat -> (i + 3 <= length old)%nat ->
  trail_shifted old (i + 3) cur ->
  trail_shifted old 3 (shift_trail fuel cur i).
Proof.
  induction q as [|q IH]; intros fuel cur i Hi Hf Hlen Hinv.
  - destruct fuel as [|fuel]; [lia|]. subst i. cbn [shift_trail]. exact Hinv.
  - destruct fuel as [|fuel]; [lia|]. cbn [shift_trail].
    replace (3 <=? i)%nat with true by (symmetry; apply Nat.leb_le; lia).
    apply IH; [lia|lia|lia|].
    replace (i - 3 + 3)%nat with i by lia.
    apply shift_step; [lia|lia|exact Hinv].
Qed.

Lemma trail_shifted_start old : trail_shifted old (length old) old.
Proof.
  split; [reflexivity|]. intros k Hk.
  destruct (Nat.ltb_spec k (length old)); [reflexivity|lia].
Qed.

Lemma updateTrail_length positions p :
  length (updateTrail positions p) = length positions.
Proof.
  unfold updateTrail. cbv zeta. rewrite !Float32Array_set_length.
  generalize (length positions - 3)%nat. generalize (length positions) at 1.
  intros fuel. revert positions.
  induction fuel as [|fuel IH]; intros positions i; cbn [shift_trail];
    [reflexivity|].
  destruct (3 <=? i)%nat; [|reflexivity].
  rewrite IH. now rewrite !Float32Array_set_length.
Qed.

(** [updateTrail] on an array of [3 * (n + 1)] elements: the new
    position in front, then the old elements without the last three. *)
Lemma updateTrail_shift positions p n :
  length positions = (3 * S n)%nat ->
  updateTrail positions p
  = [fround (Vector3.vx p); fround (Vector3.vy p); fround (Vector3.vz p)]
    ++ map fround (firstn (3 * n) positions).
Proof.
  intros Hlen.
  pose proof (shift_trail_spec positions n (length positions) positions
                (3 * n)%nat eq_refl ltac:(lia) ltac:(lia)) as Hs.
  replace (3 * n + 3)%nat with (length positions) in Hs by lia.
  specialize (Hs (trail_shifted_start positions)).
  unfold updateTrail. cbv zeta.
  replace (length positions - 3)%nat with (3 * n)%nat by lia.
  destruct Hs as (Hl & Hk).
  set (cur := shift_trail (length positions) positions (3 * n)) in *.
  clearbody cur. apply nth_error_ext. intros k.
  unfold Float32Array_set. cbn [ToNumber].
  rewrite !nth_error_typed_set, !typed_set_length, Hl.
  replace (2 <? length positions)%nat with true by (symmetry; apply Nat.ltb_lt; lia).
  replace (1 <? length positions)%nat with true by (symmetry; apply Nat.ltb_lt; lia).
  replace (0 <? length positions)%nat with true by (symmetry; apply Nat.ltb_lt; lia).
  rewrite !andb_true_r.
  destruct k as [|[|[|k]]]; try reflexivity.
  change (nth_error cur (S (S (S k)))
          = nth_error (map fround (firstn (3 * n) positions)) k).
  destruct (Nat.ltb_spec (S (S (S k))) (length positions)) as [Hin|Hout].
  - rewrite Hk by assumption.
    change (S (S (S k)) <? 3)%nat with false. cbv iota.
    replace (S (S (S k)) - 3)%nat with k by lia.
    rewrite nth_error_map, nth_error_firstn.
    replace (k <? 3 * n)%nat with true by (symmetry; apply Nat.ltb_lt; lia).
    reflexivity.
  - transitivity (@None float).
    + apply nth_error_None. lia.
    + symmetry. apply nth_error_None. rewrite length_map, length_firstn. lia.
Qed.

End TrailFacts.
(** * Resonance and the animation frame *)

Module ResonanceFacts.
Import F64 JS JSMore NaNFacts OrreryVisualization.

Lemma closest_sacred_returns freq : exists c, closest_sacred freq = Normal c.
Proof. unfold closest_sacred, sacredFreqs, Array_reduce. eexists. reflexivity. Qed.

Section WithMath.
Context {M : MathImpl}.

Lemma harmonic_term_returns s freq i :
  exists s', harmonic_term (Normal s) freq i = Normal s'.
Proof.
  unfold harmonic_term. cbn [bind].
  destruct (closest_sacred_returns freq) as (c & ->). cbn [bind].
  eexists. reflexivity.
Qed.

Lemma harmonic_sum_returns hs i s :
  exists s', reduce_from harmonic_term i hs (Normal s) = Normal s'.
Proof.
  revert i s. induction hs as [|h hs IH]; intros i s; cbn [reduce_from].
  - eexists. reflexivity.
  - destruct (harmonic_term_returns s h i) as (s1 & ->). apply IH.
Qed.

Lemma calculateResonance_nan time data :
  calculateResonance time data = Normal nan.
Proof.
  unfold calculateResonance, Array_reduce_indexed. cbv zeta.
  destruct (harmonic_sum_returns (harmonics data) 0 pzero) as (s & ->).
  cbn [bind]. unfold plus, kohanist. cbn [ToNumber].
  rewrite add_nan_l. reflexivity.
Qed.

End WithMath.

(** A resonance that is NaN passes no threshold: the map of active
    rituals and the dispatched events stay as they are. *)
Lemma check_one_nan soulId position st ritual :
  RitualActivation.activeRituals
    (RitualActivation.check_one soulId nan position st ritual)
  = RitualActivation.activeRituals st
  /\ RitualActivation.dispatched
       (RitualActivation.check_one soulId nan position st ritual)
     = RitualActivation.dispatched st.
Proof.
  unfold RitualActivation.check_one. cbv zeta. rewrite leb_nan_r.
  destruct (JSMapMore.has _ _); [|split; reflexivity].
  unfold RitualActivation.deactivateRitual.
  destruct (JSMap.get _ _); split; reflexivity.
Qed.

Lemma checkActivation_nan st soulId position :
  RitualActivation.activeRituals
    (RitualActivation.checkActivation st soulId nan position)
  = RitualActivation.activeRituals st
  /\ RitualActivation.dispatched
       (RitualActivation.checkActivation st soulId nan position)
     = RitualActivation.dispatched st.
Proof.
  unfold RitualActivation.checkActivation.
  generalize RitualActivation.rituals. intros rs. revert st.
  induction rs as [|ritual rs IH]; intros st; cbn [fold_left].
  - split; reflexivity.
  - destruct (IH (RitualActivation.check_one soulId nan position st ritual))
      as (H1 & H2).
    destruct (check_one_nan soulId position st ritual) as (H3 & H4).
    split; congruence.
Qed.

Section Frames.
Context {M : MathImpl}.

Lemma update_body_spec time cid body rituals :
  exists body' rituals',
    update_body time cid body rituals = Normal (body', rituals')
    /\ resonance body' = Some nan
    /\ mesh_scale body' = nan_scale
    /\ data body' = data body
    /\ length (trail body') = length (trail body)
    /\ RitualActivation.activeRituals rituals'
       = RitualActivation.activeRituals rituals
    /\ RitualActivation.dispatched rituals'
       = RitualActivation.dispatched rituals.
Proof.
  unfold update_body. cbv zeta. rewrite calculateResonance_nan. cbn [bind].
  eexists. eexists. split; [reflexivity|].
  cbn [resonance mesh_scale data trail].
  split; [reflexivity|]. split.
  { rewrite mul_nan_l, add_nan_r, mul_nan_r. reflexivity. }
  split; [reflexivity|].
  split; [apply TrailFacts.updateTrail_length|].
  apply checkActivation_nan.
Qed.

Lemma update_all_spec time bs rituals :
  exists bs' rituals',
    update_all time bs rituals = Normal (bs', rituals')
    /\ map fst bs' = map fst bs
    /\ Forall (fun kb => resonance (snd kb) = Some nan
                         /\ mesh_scale (snd kb) = nan_scale) bs'
    /\ map (fun kb => data (snd kb)) bs' = map (fun kb => data (snd kb)) bs
    /\ RitualActivation.activeRituals rituals'
       = RitualActivation.activeRituals rituals
    /\ RitualActivation.dispatched rituals'
       = RitualActivation.dispatched rituals.
Proof.
  revert rituals. induction bs as [|[cid body] bs IH]; intros rituals;
    cbn [update_all].
  - eexists. eexists. split; [reflexivity|]. repeat split. constructor.
  - destruct (update_body_spec time cid body rituals)
      as (body' & r1 & -> & Hres & Hsc & Hd & _ & Ha1 & Hd1).
    cbn [bind snd fst].
    destruct (IH r1) as (bs' & r2 & -> & Hk & Hall & Hdat & Ha2 & Hd2).
    cbn [bind snd fst].
    eexists. eexists. split; [reflexivity|]. cbn [map fst snd].
    split; [now rewrite Hk|].
    split; [constructor; [split; assumption|assumption]|].
    split; [now rewrite Hd, Hdat|].
    split; congruence.
Qed.

Lemma animate_spec v :
  exists v',
    animate v = Normal v'
    /\ time v' = add (time v) (lit 1 1000)
    /\ map fst (bodies v') = map fst (bodies v)
    /\ Forall (fun kb => resonance (snd kb) = Some nan
                         /\ mesh_scale (snd kb) = nan_scale) (bodies v')
    /\ map (fun kb => data (snd kb)) (bodies v')
       = map (fun kb => data (snd kb)) (bodies v)
    /\ RitualActivation.activeRituals (ritualActivation v')
       = RitualActivation.activeRituals (ritualActivation v)
    /\ RitualActivation.dispatched (ritualActivation v')
       = RitualActivation.dispatched (ritualActivation v).
Proof.
  unfold animate, updateOrbits. cbn [time bodies ritualActivation].
  destruct (update_all_spec (add (time v) (lit 1 1000)) (bodies v)
              (ritualActivation v))
    as (bs' & r' & -> & Hk & Hall & Hd & Ha & Hdp).
  cbn [bind fst snd]. eexists. split; [reflexivity|].
  cbn [time bodies ritualActivation]. repeat split; assumption.
Qed.

Lemma frames_spec n : forall v,
  exists v',
    frames n v = Normal v'
    /\ map fst (bodies v') = map fst (bodies v)
    /\ map (fun kb => data (snd kb)) (bodies v')
       = map (fun kb => data (snd kb)) (bodies v)
    /\ RitualActivation.activeRituals (ritualActivation v')
       = RitualActivation.activeRituals (ritualActivation v)
    /\ RitualActivation.dispatched (ritualActivation v')
       = RitualActivation.dispatched (ritualActivation v)
    /\ ((0 < n)%nat ->
        Forall (fun kb => resonance (snd kb) = Some nan
                          /\ mesh_scale (snd kb) = nan_scale) (bodies v')).
Proof.
  induction n as [|n IH]; intros v; cbn [frames].
  - exists v. repeat split. lia.
  - destruct (animate_spec v) as (v1 & -> & _ & Hk1 & Hall1 & Hd1 & Ha1 & Hp1).
    cbn [bind].
    destruct (IH v1) as (v2 & E2 & Hk2 & Hd2 & Ha2 & Hp2 & Hall2).
    rewrite E2. exists v2. split; [reflexivity|].
    split; [congruence|]. split; [congruence|].
    split; [congruence|]. split; [congruence|].
    intros _. destruct n as [|n]; [|apply Hall2; lia].
    cbn [frames] in E2. injection E2 as <-. exact Hall1.
Qed.
End Frames.
End ResonanceFacts.
(** * Ritual activation *)

Module RitualFacts.
Import F64 JS JSMore RitualActivation OrreryFacts.

Lemma has_set_same {V : Type} (m : JSMap.t V) k v :
  JSMapMore.has (JSMap.set m k v) k = true.
Proof. unfold JSMapMore.has. now rewrite get_set_same. Qed.

Lemma has_set_mono {V : Type} (m : JSMap.t V) k v k' :
  JSMapMore.has m k' = true -> JSMapMore.has (JSMap.set m k v) k' = true.
Proof.
  unfold JSMapMore.has. intros H.
  destruct (list_eq_dec N.eq_dec k k') as [->|Hne].
  - now rewrite get_set_same.
  - now rewrite get_set_other.
Qed.

Lemma has_In_keys {V : Type} (m : JSMap.t V) k :
  JSMapMore.has m k = true -> In k (JSMapMore.keys m).
Proof.
  unfold JSMapMore.has, JSMapMore.keys.
  induction m as [|[k' v] m IH]; cbn [JSMap.get map In]; [discriminate|].
  destruct (JSMap.key_eqb k k') eqn:E.
  - apply key_eqb_eq in E. auto.
  - auto.
Qed.

Lemma set_absent {V : Type} (m : JSMap.t V) k v :
  JSMapMore.has m k = false -> JSMap.set m k v = m ++ [(k, v)].
Proof.
  unfold JSMapMore.has.
  induction m as [|[k' v'] m IH]; cbn [JSMap.get JSMap.set app];
    [reflexivity|].
  destruct (JSMap.key_eqb k k'); [discriminate|].
  intros H. now rewrite IH.
Qed.

Lemma includes_suffix a b : includes (a ++ b) b = true.
Proof.
  induction a as [|c a IH]; cbn [app].
  - destruct b as [|c b]; [reflexivity|]. cbn [includes].
    assert (H : forall s, starts_with s s = true).
    { induction s as [|d s IHs]; cbn [starts_with]; [reflexivity|].
      now rewrite N.eqb_refl. }
    now rewrite H.
  - cbn [includes]. rewrite IH. apply orb_true_r.
Qed.

(** [check_one] never removes a key. *)
Lemma check_one_keeps soulId resonance position st ritual k :
  JSMapMore.has (activeRituals st) k = true ->
  JSMapMore.has
    (activeRituals (check_one soulId resonance position st ritual)) k = true.
Proof.
  intros Hk. unfold check_one. cbv zeta.
  destruct (leb _ _).
  - destruct (JSMapMore.has (activeRituals st) (ritualKey soulId ritual));
      cbn [negb]; [assumption|].
    cbn [activateRitual activeRituals]. now apply has_set_mono.
  - destruct (JSMapMore.has (activeRituals st) (ritualKey soulId ritual));
      [|assumption].
    unfold deactivateRitual. now destruct (JSMap.get _ _).
Qed.

Lemma check_one_activates soulId resonance position st ritual :
  leb (resonanceThreshold ritual) resonance = true ->
  JSMapMore.has
    (activeRituals (check_one soulId resonance position st ritual))
    (ritualKey soulId ritual) = true.
Proof.
  intros Hle. unfold check_one. cbv zeta. rewrite Hle.
  destruct (JSMapMore.has (activeRituals st) (ritualKey soulId ritual)) eqn:E;
    cbn [negb]; [assumption|].
  cbn [activateRitual activeRituals]. apply has_set_same.
Qed.

Lemma fold_check_keeps soulId resonance position rs : forall st k,
  JSMapMore.has (activeRituals st) k = true ->
  JSMapMore.has
    (activeRituals (fold_left (check_one soulId resonance position) rs st)) k
  = true.
Proof.
  induction rs as [|ritual rs IH]; intros st k Hk; cbn [fold_left];
    [assumption|].
  apply IH. now apply check_one_keeps.
Qed.

Lemma fold_check_activates soulId resonance position rs : forall st ritual,
  In ritual rs ->
  leb (resonanceThreshold ritual) resonance = true ->
  JSMapMore.has
    (activeRituals (fold_left (check_one soulId resonance position) rs st))
    (ritualKey soulId ritual) = true.
Proof.
  induction rs as [|r0 rs IH]; intros st ritual Hin Hle; cbn [fold_left];
    [destruct Hin|].
  destruct Hin as [->|Hin].
  - apply fold_check_keeps. now apply check_one_activates.
  - now apply IH.
Qed.

Lemma check_one_size soulId resonance position st ritual :
  (length (activeRituals st)
   <= length (activeRituals (check_one soulId resonance position st ritual))
   <= length (activeRituals st) + 1)%nat.
Proof.
  unfold check_one. cbv zeta.
  destruct (leb _ _).
  - destruct (JSMapMore.has (activeRituals st) (ritualKey soulId ritual)) eqn:E;
      cbn [negb]; [lia|].
    cbn [activateRitual activeRituals]. rewrite set_absent by assumption.
    rewrite length_app. cbn [length]. lia.
  - destruct (JSMapMore.has (activeRituals st) (ritualKey soulId ritual));
      [|lia].
    unfold deactivateRitual. destruct (JSMap.get _ _); cbn [activeRituals]; lia.
Qed.

Lemma fold_check_size soulId resonance position rs : forall st,
  (length (activeRituals st)
   <= length (activeRituals
                (fold_left (check_one soulId resonance position) rs st))
   <= length (activeRituals st) + length rs)%nat.
Proof.
  induction rs as [|r0 rs IH]; intros st; cbn [fold_left length]; [lia|].
  pose proof (check_one_size soulId resonance position st r0).
  pose proof (IH (check_one soulId resonance position st r0)). lia.
Qed.

(** When every ritual the resonance passes is already active, a check
    changes neither the map nor the events. *)
Lemma fold_check_stable soulId resonance position rs : forall st,
  (forall ritual, In ritual rs ->
     leb (resonanceThreshold ritual) resonance = true ->
     JSMapMore.has (activeRituals st) (ritualKey soulId ritual) = true) ->
  activeRituals (fold_left (check_one soulId resonance position) rs st)
  = activeRituals st
  /\ dispatched (fold_left (check_one soulId resonance position) rs st)
     = dispatched st.
Proof.
  induction rs as [|r0 rs IH]; intros st Hall; cbn [fold_left];
    [split; reflexivity|].
  assert (H0 : activeRituals (check_one soulId resonance position st r0)
               = activeRituals st
               /\ dispatched (check_one soulId resonance position st r0)
                  = dispatched st).
  { unfold check_one. cbv zeta.
    destruct (leb (resonanceThreshold r0) resonance) eqn:Hle.
    - rewrite (Hall r0 (or_introl eq_refl) Hle). cbn [negb]. split; reflexivity.
    - destruct (JSMapMore.has _ _); [|split; reflexivity].
      unfold deactivateRitual. destruct (JSMap.get _ _); split; reflexivity. }
  destruct H0 as (Ha & Hd).
  destruct (IH (check_one soulId resonance position st r0)) as (Ha' & Hd').
  { intros ritual Hin Hle. rewrite Ha. apply Hall; [now right|assumption]. }
  split; congruence.
Qed.

(** The order of the doubles, for the comparisons of thresholds. *)
Lemma leb_trans_pos ma ea mb eb c :
  bounded 53 1024 ma ea = true -> bounded 53 1024 mb eb = true ->
  valid c = true ->
  leb (S754_finite false ma ea) (S754_finite false mb eb) = true ->
  leb (S754_finite false mb eb) c = true ->
  leb (S754_finite false ma ea) c = true.
Proof.
  intros Ha Hb Hc Hab Hbc.
  destruct c as [[]|[]| |[] mc ec]; try discriminate; try reflexivity.
  unfold valid in Hc. cbn [valid_binary] in Hc.
  unfold leb in *.
  apply (RoundingFacts.SFleb_pos_iff ma ea mc ec Ha Hc).
  apply (RoundingFacts.SFleb_pos_iff ma ea mb eb Ha Hb) in Hab.
  apply (RoundingFacts.SFleb_pos_iff mb eb mc ec Hb Hc) in Hbc.
  lra.
Qed.

Lemma threshold_finite ritual :
  In ritual rituals ->
  exists m e,
    resonanceThreshold ritual = S754_finite false m e
    /\ bounded 53 1024 m e = true.
Proof.
  intros H. repeat (destruct H as [<-|H]; [eexists; eexists; split;
                                            [vm_compute; reflexivity
                                            |reflexivity]|]).
  destruct H.
Qed.

End RitualFacts.
(** * Invariants of the orrery's map *)

Module OrreryInvariants.
Import F64 JS CosmicOrrery CosmicOrreryOps OrreryFacts RitualFacts.

Lemma has_false_not_in {V : Type} (m : JSMap.t V) k :
  JSMapMore.has m k = false -> ~ In k (map fst m).
Proof.
  unfold JSMapMore.has.
  induction m as [|[k' v] m IH]; cbn [JSMap.get map In fst]; [tauto|].
  destruct (JSMap.key_eqb k k') eqn:E; [discriminate|].
  intros H [Heq|Hin]; [|now apply IH].
  subst k'. now rewrite key_eqb_refl in E.
Qed.

Lemma not_in_has_false {V : Type} (m : JSMap.t V) k :
  ~ In k (map fst m) -> JSMapMore.has m k = false.
Proof.
  intros Hn. destruct (JSMapMore.has m k) eqn:E; [|reflexivity].
  apply has_In_keys in E. contradiction.
Qed.

Lemma set_present_keys {V : Type} (m : JSMap.t V) k v :
  JSMapMore.has m k = true -> map fst (JSMap.set m k v) = map fst m.
Proof.
  unfold JSMapMore.has.
  induction m as [|[k' v'] m IH]; cbn [JSMap.get JSMap.set map fst];
    [discriminate|].
  destruct (JSMap.key_eqb k k') eqn:E; cbn [map fst].
  - apply key_eqb_eq in E. now subst.
  - intros H. now rewrite IH.
Qed.

Lemma set_keys_NoDup {V : Type} (m : JSMap.t V) k v :
  NoDup (map fst m) -> NoDup (map fst (JSMap.set m k v)).
Proof.
  intros Hnd. destruct (JSMapMore.has m k) eqn:E.
  - now rewrite set_present_keys.
  - rewrite set_absent by assumption. rewrite map_app. cbn [map fst].
    apply NoDup_app; [assumption|repeat constructor; intros []|].
    intros a Ha [<-|[]]. now apply has_false_not_in in E.
Qed.

Lemma set_length {V : Type} (m : JSMap.t V) k v :
  length (JSMap.set m k v)
  = if JSMapMore.has m k then length m else S (length m).
Proof.
  destruct (JSMapMore.has m k) eqn:E.
  - rewrite <- (length_map fst), set_present_keys by assumption.
    apply length_map.
  - rewrite set_absent by assumption. rewrite length_app. cbn [length]. lia.
Qed.

Lemma set_Forall {V : Type} (P : jsstring * V -> Prop) (m : JSMap.t V) k v :
  Forall P m -> P (k, v) -> Forall P (JSMap.set m k v).
Proof.
  intros Hall Hp. induction Hall as [|[k' v'] m Hx Hall IH]; cbn [JSMap.set].
  - repeat constructor. assumption.
  - destruct (JSMap.key_eqb k k'); constructor; assumption.
Qed.

Section WithHost.
Context {M : MathImpl} {T : ToneImpl}.

Lemma factory_built_cid kv : factory_built kv -> cid (snd kv) = fst kv.
Proof.
  unfold factory_built. rewrite Factory.createCelestialBody_eq.
  intros H. injection H as H. rewrite <- H. reflexivity.
Qed.

(** What the factory returns is factory-built. *)
Lemma created_factory_built k proteinHash eigenvalues body :
  Kepler432Lattice.createCelestialBody k proteinHash eigenvalues
  = Normal body ->
  factory_built (k, body).
Proof.
  rewrite Factory.createCelestialBody_eq. intros H. injection H as <-.
  reflexivity.
Qed.

Lemma parsed_factory_built k soul harmonics body :
  createCelestialBody_parsed k soul harmonics = Normal body ->
  factory_built (k, body).
Proof.
  destruct soul as [proteinHash|], harmonics as [eigenvalues|];
    try discriminate.
  apply created_factory_built.
Qed.

(** The orrery's own map after [addCode]: as it was when the call
    threw, with the body filed when it returned. *)
Lemma addCode_bodies proteinHash eigenvalues cid o :
  exists body,
    Kepler432Lattice.createCelestialBody (contentId_of cid proteinHash)
      proteinHash eigenvalues = Normal body
    /\ ((exists e, snd (addCode proteinHash eigenvalues cid o) = Throw e)
        /\ bodies (fst (addCode proteinHash eigenvalues cid o)) = bodies o
        \/ snd (addCode proteinHash eigenvalues cid o) = Normal body
           /\ bodies (fst (addCode proteinHash eigenvalues cid o))
              = JSMap.set (bodies o) (contentId_of cid proteinHash) body).
Proof.
  eexists. split; [apply Factory.createCelestialBody_eq|].
  rewrite (OrreryState.addCode_run _ _ _ _ _
             (Factory.createCelestialBody_eq _ _ _)).
  cbv zeta. destruct (music o) as [m|]; [|right; split; reflexivity].
  destruct (music_addCelestialVoice _ m) as [m' [[]|e]].
  - destruct (birth_chord _) as [[]|e].
    + right. split; reflexivity.
    + left. split; [now exists e|reflexivity].
  - left. split; [now exists e|reflexivity].
Qed.

Lemma addCode_wf proteinHash eigenvalues cid o :
  orrery_wf o -> orrery_wf (fst (addCode proteinHash eigenvalues cid o)).
Proof.
  intros (Hnd & Hall).
  destruct (addCode_bodies proteinHash eigenvalues cid o)
    as (body & Hb & [(_ & E)|(_ & E)]); unfold orrery_wf; rewrite E.
  - split; assumption.
  - split; [now apply set_keys_NoDup|].
    apply set_Forall; [assumption|].
    exact (created_factory_built _ _ _ _ Hb).
Qed.

(** The orrery's own map after one pass of the import loop. *)
Lemma import_entry_bodies bodyData o :
  bodies (fst (import_entry bodyData o)) = bodies o
  \/ exists body,
       createCelestialBody_parsed (e_cid bodyData) (e_soul bodyData)
         (e_harmonics bodyData) = Normal body
       /\ snd (import_entry bodyData o) = Normal tt
       /\ bodies (fst (import_entry bodyData o))
          = JSMap.set (bodies o) (e_cid bodyData) body.
Proof.
  rewrite OrreryState.import_entry_run.
  destruct (createCelestialBody_parsed _ _ _) as [body|e];
    [|left; reflexivity].
  cbv zeta. destruct (music o) as [m|]; [|left; reflexivity].
  destruct (music_addCelestialVoice body m) as [m' [[]|e]];
    [|left; reflexivity].
  right. exists body. repeat split.
Qed.

Lemma import_entry_wf bodyData o :
  orrery_wf o -> orrery_wf (fst (import_entry bodyData o)).
Proof.
  intros (Hnd & Hall).
  destruct (import_entry_bodies bodyData o) as [E|(body & Hb & _ & E)];
    unfold orrery_wf; rewrite E.
  - split; assumption.
  - split; [now apply set_keys_NoDup|].
    apply set_Forall; [assumption|].
    exact (parsed_factory_built _ _ _ _ Hb).
Qed.

Lemma importState_wf state : forall o,
  orrery_wf o -> orrery_wf (fst (importState state o)).
Proof.
  induction state as [|bodyData state IH]; intros o Hwf;
    cbn [importState]; [exact Hwf|].
  unfold and_then.
  pose proof (import_entry_wf bodyData o Hwf) as H1.
  destruct (import_entry bodyData o) as [o1 [[]|e]]; cbn [fst] in *.
  - now apply IH.
  - exact H1.
Qed.

Lemma reachable_wf o : reachable o -> orrery_wf o.
Proof.
  induction 1 as [b|o p e c _ IH|o st _ IH|o _ IH|o _ IH].
  - split; cbn; constructor.
  - now apply addCode_wf.
  - now apply importState_wf.
  - split; cbn; constructor.
  - split; cbn; constructor.
Qed.

(** The voice is accepted: the library builds the synth (the music
    is not playing, so no chord is started). *)
Lemma voice_accepted body m :
  MusicOfSpheres.isPlaying m = false ->
  PolySynth_voice (MusicOfSpheres.getOscillatorType body)
    (MusicOfSpheres.voice_volume body) = Normal tt ->
  music_addCelestialVoice body m
  = (MusicOfSpheres.addCelestialVoice m body, Normal tt).
Proof.
  intros Hp Hv. unfold music_addCelestialVoice. rewrite Hv. cbv zeta.
  unfold MusicOfSpheres.addCelestialVoice at 2.
  cbn [MusicOfSpheres.isPlaying]. now rewrite Hp.
Qed.

Lemma voice_refused body m :
  MusicOfSpheres.isPlaying m = false ->
  PolySynth_voice (MusicOfSpheres.getOscillatorType body)
    (MusicOfSpheres.voice_volume body) <> Normal tt ->
  exists e, music_addCelestialVoice body m = (m, Throw e).
Proof.
  intros Hp Hv. unfold music_addCelestialVoice.
  destruct (PolySynth_voice _ _) as [[]|e]; [contradiction|].
  now exists e.
Qed.

(** Importing exported entries into an orrery whose music is not
    playing appends them, in order, to the orrery's map and to the
    visualization, when none of their keys is present yet and the
    library accepts every voice. *)
Lemma importState_appends entries : forall o m,
  music o = Some m -> MusicOfSpheres.isPlaying m = false ->
  Forall factory_built entries ->
  Forall (fun kv => forallb json_exact (harmonics (snd kv)) = true)
    entries ->
  Forall (fun kv =>
            PolySynth_voice (MusicOfSpheres.getOscillatorType (snd kv))
              (MusicOfSpheres.voice_volume (snd kv)) = Normal tt)
    entries ->
  NoDup (map fst entries) ->
  (forall k, In k (map fst entries) ->
     ~ In k (map fst (bodies o)) /\ ~ In k (map fst (visualization o))) ->
  snd (importState (map export_entry entries) o) = Normal tt
  /\ bodies (fst (importState (map export_entry entries) o))
     = bodies o ++ entries
  /\ visualization (fst (importState (map export_entry entries) o))
     = visualization o ++ entries.
Proof.
  induction entries as [|[k b] entries IH];
    intros o m Hm Hp Hall Hex Hacc Hnd Hfresh.
  - cbn [map importState ret fst snd]. rewrite !app_nil_r. repeat split.
  - cbn [map importState].
    apply Forall_cons_iff in Hall. destruct Hall as (Hb & Hall).
    apply Forall_cons_iff in Hex. destruct Hex as (Hx & Hex).
    apply Forall_cons_iff in Hacc. destruct Hacc as (Ha & Hacc).
    cbn [map fst] in Hnd. apply NoDup_cons_iff in Hnd.
    destruct Hnd as (Hnotin & Hnd).
    destruct (Hfresh k (or_introl eq_refl)) as (F1 & F2).
    cbn [snd] in Hx, Ha.
    unfold and_then. rewrite OrreryState.import_entry_run.
    rewrite (OrreryState.rebuild_exported (k, b) Hb Hx).
    cbn [snd]. cbv zeta. rewrite Hm.
    rewrite (voice_accepted b m Hp Ha).
    change (e_cid (export_entry (k, b))) with k.
    rewrite !set_absent by (now apply not_in_has_false).
    match goal with
    | |- context [importState _ ?o1] =>
        destruct (IH o1 (MusicOfSpheres.addCelestialVoice m b))
          as (E1 & E2 & E3);
        [reflexivity|exact Hp|assumption|assumption|assumption|assumption| |]
    end.
    + intros k' Hk'. cbn [bodies visualization]. rewrite !map_app.
      cbn [map fst]. rewrite !in_app_iff. cbn [In].
      destruct (Hfresh k' (or_intror Hk')) as (G1 & G2).
      assert (k <> k') by (intros ->; contradiction).
      tauto.
    + rewrite E1, E2, E3. cbn [bodies visualization].
      rewrite <- !app_assoc. repeat split.
Qed.

(** An import that returns has had every voice accepted. *)
Lemma importState_returned entries : forall o m,
  music o = Some m -> MusicOfSpheres.isPlaying m = false ->
  Forall factory_built entries ->
  Forall (fun kv => forallb json_exact (harmonics (snd kv)) = true)
    entries ->
  snd (importState (map export_entry entries) o) = Normal tt ->
  Forall (fun kv =>
            PolySynth_voice (MusicOfSpheres.getOscillatorType (snd kv))
              (MusicOfSpheres.voice_volume (snd kv)) = Normal tt)
    entries.
Proof.
  induction entries as [|[k b] entries IH]; intros o m Hm Hp Hall Hex;
    [constructor|].
  cbn [map importState].
  apply Forall_cons_iff in Hall. destruct Hall as (Hb & Hall).
  apply Forall_cons_iff in Hex. destruct Hex as (Hx & Hex).
  cbn [snd] in Hx.
  unfold and_then. rewrite OrreryState.import_entry_run.
  rewrite (OrreryState.rebuild_exported (k, b) Hb Hx).
  cbn [snd]. cbv zeta. rewrite Hm.
  destruct (PolySynth_voice (MusicOfSpheres.getOscillatorType b)
              (MusicOfSpheres.voice_volume b)) as [[]|e] eqn:Hv.
  - rewrite (voice_accepted b m Hp Hv). intros H.
    constructor; [exact Hv|].
    match type of H with
    | context [importState _ ?o1] =>
        apply (IH o1 (MusicOfSpheres.addCelestialVoice m b));
        [reflexivity|exact Hp|assumption|assumption|exact H]
    end.
  - destruct (voice_refused b m Hp) as (e' & ->); [congruence|].
    intros H. discriminate H.
Qed.

End WithHost.

(** A NaN luminosity makes the running mass NaN, and it stays NaN. *)
Lemma fold_accumulate_nan l : forall s,
  s_mass s = nan -> s_mass (fold_left accumulate l s) = nan.
Proof.
  induction l as [|b l IH]; intros s Hs; cbn [fold_left]; [assumption|].
  apply IH. cbn [accumulate s_mass]. rewrite Hs. apply NaNFacts.add_nan_l.
Qed.

Lemma fold_accumulate_dark l body : forall s,
  In body l -> is_nan (luminosity body) = true ->
  s_mass (fold_left accumulate l s) = nan.
Proof.
  induction l as [|b l IH]; intros s Hin Hn; [destruct Hin|].
  cbn [fold_left]. destruct Hin as [->|Hin].
  - apply fold_accumulate_nan. cbn [accumulate s_mass].
    destruct (luminosity body); try discriminate. apply NaNFacts.add_nan_r.
  - now apply IH.
Qed.

End OrreryInvariants.
(** * More on the lattice *)

Module ValidFacts.
Import Rounding RoundingFacts F64 F64Facts.

Lemma represents_valid s v f : represents s v f -> valid f = true.
Proof.
  intros [(_ & ->)|[(m & e & -> & Hb & _)|(_ & ->)]]; try reflexivity.
  exact Hb.
Qed.

Lemma binary_normalize_valid z e : valid (binary_normalize 53 1024 z e false) = true.
Proof.
  destruct z as [|p|p]; cbn [binary_normalize]; [reflexivity| |].
  - destruct (binary_round_correct false p e) as (v & _ & Hr).
    exact (represents_valid _ _ _ Hr).
  - destruct (binary_round_correct true p e) as (v & _ & Hr).
    exact (represents_valid _ _ _ Hr).
Qed.

Lemma of_Z_valid z : valid (of_Z z) = true.
Proof. apply binary_normalize_valid. Qed.

Lemma mul_valid a b : valid a = true -> valid b = true -> valid (mul a b) = true.
Proof.
  destruct a as [sa|sa| |sa ma ea], b as [sb|sb| |sb mb eb]; intros Ha Hb;
    try reflexivity.
  destruct (SFmul_finite_correct sa ma ea sb mb eb Ha Hb) as (v & _ & Hr).
  exact (represents_valid _ _ _ Hr).
Qed.

Lemma div_valid a b : valid (div a b) = true.
Proof.
  destruct a as [sa|sa| |sa ma ea], b as [sb|sb| |sb mb eb]; try reflexivity.
  destruct (SFdiv_pos_correct sa ma ea sb mb eb) as (v & _ & Hr).
  exact (represents_valid _ _ _ Hr).
Qed.

Lemma angle_of_valid k : valid (angle_of k) = true.
Proof.
  unfold angle_of. apply mul_valid; [|reflexivity].
  apply mul_valid; [apply div_valid|reflexivity].
Qed.

(** The remainder of a double by a larger one is the double itself. *)
Lemma rem_small mn en md ed :
  bounded 53 1024 mn en = true -> bounded 53 1024 md ed = true ->
  ltb (S754_finite false mn en) (S754_finite false md ed) = true ->
  rem (S754_finite false mn en) (S754_finite false md ed)
  = S754_finite false mn en.
Proof.
  intros Hn Hd Hlt.
  apply (SFltb_pos_iff mn en md ed Hn Hd) in Hlt.
  unfold rem.
  pose proof (shl_align_spec mn en (Z.min en ed)) as Ha.
  pose proof (shl_align_spec md ed (Z.min en ed)) as Hb.
  destruct (shl_align mn en (Z.min en ed)) as [ma ea].
  destruct (shl_align md ed (Z.min en ed)) as [mb eb].
  destruct Ha as (HFa & _ & Hea). destruct Hb as (HFb & _ & Heb).
  cbn [fst].
  assert (Ea : ea = Z.min en ed) by lia.
  assert (Eb : eb = Z.min en ed) by lia.
  rewrite Ea in HFa. rewrite Eb in HFb.
  assert (Hab : Zpos ma < Zpos mb).
  { apply (F2R_lt_inv _ _ (Z.min en ed)). rewrite HFa, HFb. exact Hlt. }
  rewrite Z.rem_small by lia. cbn [cond_Zopp binary_normalize].
  apply binary_round_representable; assumption.
Qed.

Lemma rem_in_range x md ed :
  valid x = true -> bounded 53 1024 md ed = true ->
  leb pzero x = true -> ltb x (S754_finite false md ed) = true ->
  rem x (S754_finite false md ed) = x.
Proof.
  intros Hv Hd Hle Hlt.
  destruct x as [[]|[]| |[] m e]; try discriminate; try reflexivity.
  now apply rem_small.
Qed.

Lemma angle_rem k :
  0 <= k < 10000 -> rem (angle_of k) Kepler432Lattice.two_pi = angle_of k.
Proof.
  intros Hk. destruct (RangeFacts.angle_range k Hk) as (Hle & Hlt).
  change Kepler432Lattice.two_pi with (S754_finite false 7074237752028440 (-50))
    in *.
  apply rem_in_range; [apply angle_of_valid|reflexivity|assumption|assumption].
Qed.

End ValidFacts.

Module LatticeFacts.
Import F64 JS Kepler432Lattice NaNFacts.

Lemma band_edges k : 0 <= k < 1000 -> band_edges_agree k = true.
Proof.
  intros Hk.
  assert (H : forallb band_edges_agree remainders_1000 = true)
    by (vm_compute; reflexivity).
  rewrite forallb_forall in H. apply H.
  unfold remainders_1000. apply in_map_iff. exists (Z.to_nat k).
  split; [lia|]. apply in_seq. lia.
Qed.

Lemma sqrt_nan : JSMath.sqrt nan = nan.
Proof. reflexivity. Qed.

(** A NaN difference in any coordinate makes the distance NaN. *)
Lemma distanceTo_nan a b :
  is_nan (Vector3.vx a) || is_nan (Vector3.vy a) || is_nan (Vector3.vz a)
  || (is_nan (Vector3.vx b) || is_nan (Vector3.vy b) || is_nan (Vector3.vz b))
  = true ->
  Vector3.distanceTo a b = nan.
Proof.
  intros H. unfold Vector3.distanceTo, Vector3.distanceToSquared. cbv zeta.
  assert (Hn : forall u, is_nan u = true -> u = nan)
    by (intros u Hu; destruct u; try discriminate; reflexivity).
  repeat (apply orb_prop in H; destruct H as [H|H]);
    apply Hn in H; rewrite H;
    rewrite ?sub_nan_l, ?sub_nan_r, ?mul_nan_l, ?add_nan_l, ?add_nan_r;
    reflexivity.
Qed.

(** The first sixteen bytes depend on the first 32 characters only. *)
Lemma substr_firstn s n i :
  (i + 2 <= n)%nat -> substr (firstn n s) i 2 = substr s i 2.
Proof.
  intros Hi. unfold substr. rewrite skipn_firstn_comm, firstn_firstn.
  f_equal. lia.
Qed.

Lemma firstn_length_lt {A : Type} (s : list A) n i :
  (i < n)%nat -> (i <? length (firstn n s))%nat = (i <? length s)%nat.
Proof.
  intros Hi. rewrite length_firstn.
  destruct (Nat.ltb_spec i (length s)), (Nat.ltb_spec i (Nat.min n (length s)));
    try reflexivity; lia.
Qed.

Lemma low_byte hash k :
  (k < 16)%nat ->
  nth k (hashToBuffer hash) 0
  = if (2 * k <? length (firstn 32 (strip_prefix hash)))%nat
    then decode_pair (substr (firstn 32 (strip_prefix hash)) (2 * k) 2)
    else 0.
Proof.
  intros Hk. rewrite HashDecoder.hashToBuffer_nth.
  rewrite substr_firstn by lia. rewrite firstn_length_lt by lia.
  destruct (Nat.ltb_spec (2 * k) (Nat.min (length (strip_prefix hash)) 64)),
    (Nat.ltb_spec (2 * k) (length (strip_prefix hash)));
    try reflexivity; lia.
Qed.

Lemma low_bytes_agree h1 h2 k :
  firstn 32 (strip_prefix h1) = firstn 32 (strip_prefix h2) ->
  (k < 16)%nat ->
  nth k (hashToBuffer h1) 0 = nth k (hashToBuffer h2) 0.
Proof. intros H Hk. rewrite !low_byte by assumption. now rewrite H. Qed.

Lemma words_agree h1 h2 offset :
  firstn 32 (strip_prefix h1) = firstn 32 (strip_prefix h2) ->
  (offset + 3 < 16)%nat ->
  getUint32_le (hashToBuffer h1) offset = getUint32_le (hashToBuffer h2) offset.
Proof.
  intros H Ho. unfold getUint32_le.
  now rewrite !(low_bytes_agree h1 h2) by (assumption || lia).
Qed.

Lemma pull_same_coordinates body1 body2 c :
  coordinates body1 = c -> coordinates body2 = c ->
  finite_position c = true ->
  gravitationalPull body1 body2 = pinf.
Proof.
  intros E1 E2 Hfin. unfold gravitationalPull, position. cbv zeta.
  rewrite E1, E2. unfold finite_position in Hfin.
  apply andb_prop in Hfin. destruct Hfin as (Hfin & Hz).
  apply andb_prop in Hfin. destruct Hfin as (Hx & Hy).
  rewrite Gravity.distanceTo_self by assumption. reflexivity.
Qed.

Section WithMath.
Context {M : MathImpl}.

Lemma hashToOrbit_words h1 h2 :
  getUint32_le (hashToBuffer h1) 0 = getUint32_le (hashToBuffer h2) 0 ->
  getUint32_le (hashToBuffer h1) 4 = getUint32_le (hashToBuffer h2) 4 ->
  getUint32_le (hashToBuffer h1) 8 = getUint32_le (hashToBuffer h2) 8 ->
  getUint32_le (hashToBuffer h1) 12 = getUint32_le (hashToBuffer h2) 12 ->
  hashToOrbit h1 = hashToOrbit h2.
Proof.
  intros H0 H4 H8 H12. unfold hashToOrbit. cbv zeta.
  now rewrite H0, H4, H8, H12.
Qed.

Lemma factory_coordinates cid proteinHash eigenvalues body :
  createCelestialBody cid proteinHash eigenvalues = Normal body ->
  coordinates body = hashToOrbit proteinHash.
Proof.
  intros H. rewrite Factory.createCelestialBody_eq in H.
  now injection H as <-.
Qed.

(** The Lagrange points of a body whose angles the remainder leaves
    alone and whose period and velocity are those of its radius. *)
Lemma lagrange_in_range body c :
  coordinates body = c ->
  rem (phi c) two_pi = phi c ->
  rem (theta c) two_pi = theta c ->
  period c = orbit_period (r c) ->
  velocity c = orbit_velocity (r c) (period c) ->
  let points := findLagrangePoints body in
  map phi points = [phi c; phi c; phi c; phi c; phi c]
  /\ map theta (firstn 2 points) = [theta c; theta c]
  /\ map r (skipn 2 points) = [r c; r c; r c]
  /\ map period (skipn 2 points) = [period c; period c; period c]
  /\ map velocity (skipn 2 points) = [velocity c; velocity c; velocity c].
Proof.
  intros Ec Rphi Rtheta Hper Hvel.
  cbv zeta. rewrite Lagrange.findLagrangePoints_eq. cbv zeta. rewrite Ec.
  cbn [map firstn skipn phi theta r period velocity sphericalToOrbital].
  rewrite Rphi, Rtheta, Hvel, Hper. repeat split.
Qed.

(** The frequencies are computed position by position. *)
Lemma Array_map_from_app {A B : Type} (f : A -> nat -> B) i a1 a2 :
  Array_map_from f i (a1 ++ a2)
  = Array_map_from f i a1 ++ Array_map_from f (i + length a1) a2.
Proof.
  revert i. induction a1 as [|x a1 IH]; intros i; cbn [app Array_map_from length].
  - now rewrite Nat.add_0_r.
  - rewrite IH. do 3 f_equal. lia.
Qed.

Lemma Array_map_from_nth {A B : Type} (f : A -> nat -> B) a : forall i k x,
  nth_error a k = Some x ->
  nth_error (Array_map_from f i a) k = Some (f x (i + k)%nat).
Proof.
  induction a as [|y a IH]; intros i [|k] x; cbn [nth_error Array_map_from];
    try discriminate.
  - intros H. injection H as <-. now rewrite Nat.add_0_r.
  - intros H. rewrite (IH (S i) k x H). do 2 f_equal. lia.
Qed.

End WithMath.
End LatticeFacts.
(** * The gravitational field, constellations, the fractal *)

Module FieldFacts.
Import F64 JS CosmicOrrery CosmicOrreryOps OrreryFacts RitualFacts
  OrreryInvariants.

Lemma index_pairs_spec n i j :
  In (i, j) (index_pairs n) <-> (i < j < n)%nat.
Proof.
  unfold index_pairs. rewrite in_flat_map. split.
  - intros (i0 & Hi0 & H). apply in_map_iff in H.
    destruct H as (j0 & E & Hj0). injection E as <- <-.
    apply in_seq in Hi0, Hj0. lia.
  - intros Hij. exists i. split; [apply in_seq; lia|].
    apply in_map_iff. exists j. split; [reflexivity|apply in_seq; lia].
Qed.

Section WithTone.
Context {T : ToneImpl}.

(** What one pass through the loop body logs. *)
Lemma field_step_logged audio bodies ij entry :
  In entry (fst (field_step audio bodies ij))
  <-> exists bi bj,
        nth_error bodies (fst ij) = Some bi
        /\ nth_error bodies (snd ij) = Some bj
        /\ entry = (fst ij, snd ij, Kepler432Lattice.gravitationalPull bi bj)
        /\ ltb (lit 1 10) (Kepler432Lattice.gravitationalPull bi bj) = true.
Proof.
  unfold field_step.
  destruct (nth_error bodies (fst ij)) as [bi|] eqn:Ei.
  2:{ split; [intros []|]. intros (? & ? & H & _). discriminate H. }
  destruct (nth_error bodies (snd ij)) as [bj|] eqn:Ej.
  2:{ split; [intros []|]. intros (? & ? & _ & H & _). discriminate H. }
  cbv zeta.
  destruct (ltb (lit 1 10) (Kepler432Lattice.gravitationalPull bi bj)) eqn:El;
    cbn [fst In].
  - split.
    + intros [<-|[]]. exists bi, bj. auto.
    + intros (bi' & bj' & H1 & H2 & -> & _).
      injection H1 as <-. injection H2 as <-. now left.
  - split; [intros []|].
    intros (bi' & bj' & H1 & H2 & _ & H).
    injection H1 as <-. injection H2 as <-. congruence.
Qed.

(** A pass that throws has logged its pair, and it is the resonance
    that threw. *)
Lemma field_step_thrown audio bodies ij e :
  snd (field_step audio bodies ij) = Throw e ->
  audio = true
  /\ exists bi bj,
       nth_error bodies (fst ij) = Some bi
       /\ nth_error bodies (snd ij) = Some bj
       /\ fst (field_step audio bodies ij)
          = [(fst ij, snd ij, Kepler432Lattice.gravitationalPull bi bj)]
       /\ resonance bi bj (Kepler432Lattice.gravitationalPull bi bj)
          = Throw e.
Proof.
  unfold field_step.
  destruct (nth_error bodies (fst ij)) as [bi|]; [|discriminate].
  destruct (nth_error bodies (snd ij)) as [bj|]; [|discriminate].
  cbv zeta.
  destruct (ltb (lit 1 10) (Kepler432Lattice.gravitationalPull bi bj));
    [|discriminate].
  destruct audio; [|discriminate]. cbn [fst snd]. intros H.
  split; [reflexivity|]. exists bi, bj. auto.
Qed.

Lemma field_loop_sound audio bodies pairs entry :
  In entry (fst (field_loop audio bodies pairs)) ->
  exists ij, In ij pairs /\ In entry (fst (field_step audio bodies ij)).
Proof.
  induction pairs as [|ij pairs IH]; cbn [field_loop]; [intros []|].
  destruct (field_step audio bodies ij) as [logged [[]|e]] eqn:Es.
  - destruct (field_loop audio bodies pairs) as [more c]. cbn [fst] in *.
    intros H. apply in_app_iff in H. destruct H as [H|H].
    + exists ij. rewrite Es. split; [now left|exact H].
    + destruct (IH H) as (ij' & Hin & H'). exists ij'.
      split; [now right|exact H'].
  - cbn [fst]. intros H. exists ij. rewrite Es. split; [now left|exact H].
Qed.

Lemma field_loop_complete audio bodies pairs :
  snd (field_loop audio bodies pairs) = Normal tt ->
  forall ij entry,
    In ij pairs -> In entry (fst (field_step audio bodies ij)) ->
    In entry (fst (field_loop audio bodies pairs)).
Proof.
  induction pairs as [|ij pairs IH]; cbn [field_loop]; [intros _ ? ? []|].
  destruct (field_step audio bodies ij) as [logged [[]|e]] eqn:Es.
  - destruct (field_loop audio bodies pairs) as [more c]. cbn [fst snd] in *.
    intros Hc ij' entry [<-|Hin] He; apply in_app_iff.
    + left. now rewrite Es in He.
    + right. now apply (IH Hc ij').
  - intros H. discriminate H.
Qed.

Lemma field_loop_silent bodies pairs :
  snd (field_loop false bodies pairs) = Normal tt.
Proof.
  induction pairs as [|ij pairs IH]; cbn [field_loop]; [reflexivity|].
  destruct (field_step false bodies ij) as [logged [[]|e]] eqn:Es.
  - destruct (field_loop false bodies pairs) as [more c]. exact IH.
  - apply (f_equal snd) in Es. cbn [snd] in Es.
    apply field_step_thrown in Es. destruct Es as (Es & _). discriminate Es.
Qed.

Lemma field_loop_thrown audio bodies pairs e :
  snd (field_loop audio bodies pairs) = Throw e ->
  audio = true
  /\ exists logged i j bi bj,
       fst (field_loop audio bodies pairs)
       = logged ++ [(i, j, Kepler432Lattice.gravitationalPull bi bj)]
       /\ nth_error bodies i = Some bi /\ nth_error bodies j = Some bj
       /\ resonance bi bj (Kepler432Lattice.gravitationalPull bi bj)
          = Throw e.
Proof.
  induction pairs as [|ij pairs IH]; cbn [field_loop]; [discriminate|].
  destruct (field_step audio bodies ij) as [logged [[]|e']] eqn:Es.
  - destruct (field_loop audio bodies pairs) as [more c]. cbn [fst snd] in *.
    intros Hc. destruct (IH Hc) as (Ha & l & i & j & bi & bj & E & R).
    split; [exact Ha|]. exists (logged ++ l), i, j, bi, bj.
    split; [|exact R]. now rewrite E, app_assoc.
  - cbn [fst snd]. intros H. injection H as ->.
    pose proof (f_equal snd Es) as Hs. cbn [snd] in Hs.
    apply field_step_thrown in Hs.
    destruct Hs as (Ha & bi & bj & Ei & Ej & El & R).
    rewrite Es in El. cbn [fst] in El.
    split; [exact Ha|]. exists [], (fst ij), (snd ij), bi, bj.
    split; [exact El|]. auto.
Qed.

Lemma field_of_two o b1 b2 :
  fst (calculateGravitationalField o [b1; b2])
  = if ltb (lit 1 10) (Kepler432Lattice.gravitationalPull b1 b2)
    then [(0%nat, 1%nat, Kepler432Lattice.gravitationalPull b1 b2)]
    else [].
Proof.
  unfold calculateGravitationalField, index_pairs.
  cbn [length seq flat_map map Nat.add Nat.sub app field_loop].
  unfold field_step. cbn [fst snd nth_error]. cbv zeta.
  destruct (ltb (lit 1 10) (Kepler432Lattice.gravitationalPull b1 b2));
    [|reflexivity].
  destruct (match music o with Some _ => true | None => false end);
    [|reflexivity].
  now destruct (resonance b1 b2 _) as [[]|e].
Qed.

End WithTone.

Section WithHasher.
Context {M : MathImpl} {T : ToneImpl}.
Variable computeHash : jsstring -> jsstring * list float.



End WithHasher.

Import SacredGeometry.

Lemma midpoint_planar a b :
  Vector3.vz a = pzero -> Vector3.vz b = pzero ->
  Vector3.vz (multiplyScalar (vadd a b) (lit 5 10)) = pzero.
Proof.
  intros Ha Hb. unfold multiplyScalar, vadd. cbn [Vector3.vz].
  rewrite Ha, Hb. reflexivity.
Qed.

Lemma generateSierpinski_spec depth : forall p1 p2 p3 sacred b,
  length (points (generateSierpinski p1 p2 p3 depth sacred b))
  = (length (points b) + 3 ^ S depth)%nat
  /\ length (sacredValues (generateSierpinski p1 p2 p3 depth sacred b))
     = (length (sacredValues b) + 3 ^ S depth)%nat
  /\ (Vector3.vz p1 = pzero -> Vector3.vz p2 = pzero ->
      Vector3.vz p3 = pzero ->
      Forall (fun p => Vector3.vz p = pzero) (points b) ->
      Forall (fun p => Vector3.vz p = pzero)
        (points (generateSierpinski p1 p2 p3 depth sacred b))).
Proof.
  induction depth as [|depth IH]; intros p1 p2 p3 sacred b;
    cbn [generateSierpinski].
  - cbn [points sacredValues]. rewrite !length_app. cbn [length Nat.pow].
    split; [lia|]. split; [lia|].
    intros H1 H2 H3 Hb. apply Forall_app. split; [assumption|].
    repeat constructor; assumption.
  - cbv zeta.
    set (m1 := multiplyScalar (vadd p1 p2) (lit 5 10)).
    set (m2 := multiplyScalar (vadd p2 p3) (lit 5 10)).
    set (m3 := multiplyScalar (vadd p3 p1) (lit 5 10)).
    set (b1 := generateSierpinski p1 m1 m3 depth (mul sacred (lit 11 10)) b).
    set (b2 := generateSierpinski m1 p2 m2 depth (mul sacred (lit 12 10)) b1).
    destruct (IH p1 m1 m3 (mul sacred (lit 11 10)) b) as (A1 & A2 & A3).
    destruct (IH m1 p2 m2 (mul sacred (lit 12 10)) b1) as (B1 & B2 & B3).
    destruct (IH m3 m2 p3 (mul sacred (lit 13 10)) b2) as (C1 & C2 & C3).
    fold b1 in A1, A2, A3. fold b2 in B1, B2, B3.
    rewrite C1, C2, B1, B2, A1, A2.
    change (3 ^ S (S depth))%nat with (3 * 3 ^ S depth)%nat.
    split; [lia|]. split; [lia|].
    intros H1 H2 H3 Hb.
    assert (Hm1 : Vector3.vz m1 = pzero) by now apply midpoint_planar.
    assert (Hm2 : Vector3.vz m2 = pzero) by now apply midpoint_planar.
    assert (Hm3 : Vector3.vz m3 = pzero) by now apply midpoint_planar.
    auto.
Qed.

Import RitualActivation.

Lemma info_of_active st soulId ritual :
  In ritual rituals ->
  JSMapMore.has (activeRituals st) (ritualKey soulId ritual) = true ->
  In {| info_name := name ritual; info_active := true;
        info_threshold := resonanceThreshold ritual |}
    (getRitualInfo st).
Proof.
  intros Hin Hhas. unfold getRitualInfo. apply in_map_iff.
  exists ritual. split; [|assumption]. f_equal.
  apply existsb_exists. exists (ritualKey soulId ritual).
  split; [now apply has_In_keys|].
  unfold ritualKey. rewrite app_assoc. apply includes_suffix.
Qed.

End FieldFacts.
(** * Import without audio, and what the visualization holds *)

Module ImportFacts.
Import F64 JS CosmicOrrery CosmicOrreryOps OrreryFacts RitualFacts
  OrreryInvariants.

Section WithHost.
Context {M : MathImpl} {T : ToneImpl}.

Lemma importable_parsed bodyData :
  if importable bodyData
  then exists body,
         createCelestialBody_parsed (e_cid bodyData) (e_soul bodyData)
           (e_harmonics bodyData) = Normal body
  else createCelestialBody_parsed (e_cid bodyData) (e_soul bodyData)
         (e_harmonics bodyData) = Throw TypeError.
Proof.
  unfold importable, createCelestialBody_parsed.
  destruct (e_soul bodyData), (e_harmonics bodyData); try reflexivity.
  eexists. apply Factory.createCelestialBody_eq.
Qed.

(** One pass of the import loop in an orrery without audio. *)
Lemma import_entry_silent bodyData o :
  music o = None ->
  bodies (fst (import_entry bodyData o)) = bodies o
  /\ music (fst (import_entry bodyData o)) = None
  /\ (forall k, JSMapMore.has (visualization o) k = true ->
        JSMapMore.has (visualization (fst (import_entry bodyData o))) k
        = true)
  /\ (if importable bodyData
      then snd (import_entry bodyData o) = Normal tt
           /\ JSMapMore.has (visualization (fst (import_entry bodyData o)))
                (e_cid bodyData) = true
      else import_entry bodyData o = (o, Throw TypeError)).
Proof.
  intros Hm. rewrite OrreryState.import_entry_run.
  pose proof (importable_parsed bodyData) as Hp.
  destruct (importable bodyData).
  - destruct Hp as (body & ->). cbv zeta. rewrite Hm.
    cbn [fst snd bodies music visualization].
    split; [reflexivity|]. split; [reflexivity|].
    split; [intros k; apply has_set_mono|].
    split; [reflexivity|apply has_set_same].
  - rewrite Hp. cbn [fst]. repeat split; auto.
Qed.

(** The loop goes no further than the first entry that throws. *)
Lemma importState_app good rest : forall o,
  importState (good ++ rest) o
  = match importState good o with
    | (o', Normal _) => importState rest o'
    | (o', Throw e) => (o', Throw e)
    end.
Proof.
  induction good as [|bodyData good IH]; intros o;
    cbn [app importState]; [reflexivity|].
  unfold and_then.
  destruct (import_entry bodyData o) as [o1 [[]|e]]; [apply IH|reflexivity].
Qed.

Lemma importState_silent state : forall o,
  music o = None ->
  bodies (fst (importState state o)) = bodies o
  /\ music (fst (importState state o)) = None
  /\ (forall k, JSMapMore.has (visualization o) k = true ->
        JSMapMore.has (visualization (fst (importState state o))) k = true)
  /\ (if forallb importable state
      then snd (importState state o) = Normal tt
           /\ forall bodyData, In bodyData state ->
                JSMapMore.has (visualization (fst (importState state o)))
                  (e_cid bodyData) = true
      else snd (importState state o) = Throw TypeError).
Proof.
  induction state as [|bodyData state IH]; intros o Hm;
    cbn [importState forallb].
  - cbn [ret fst snd]. repeat split; auto; intros ? [].
  - unfold and_then.
    destruct (import_entry_silent bodyData o Hm) as (Hb & Hm1 & Hk & Hi).
    destruct (importable bodyData); cbn [andb].
    + destruct Hi as (Hn & Hv).
      destruct (import_entry bodyData o) as [o1 c]. cbn [fst snd] in *.
      subst c. destruct (IH o1 Hm1) as (Hb2 & Hm2 & Hk2 & Hi2).
      split; [congruence|]. split; [assumption|]. split; [auto|].
      destruct (forallb importable state); [|assumption].
      destruct Hi2 as (Hn2 & Hv2). split; [assumption|].
      intros bd [<-|Hin]; auto.
    + rewrite Hi. cbn [fst snd]. repeat split; auto.
Qed.

End WithHost.
End ImportFacts.

(** * Volumes *)

Module VolumeFacts.
Import Rounding RoundingFacts F64 F64Facts RangeFacts.

Lemma SFleb_neg m1 e1 m2 e2 :
  leb (S754_finite true m1 e1) (S754_finite true m2 e2)
  = leb (S754_finite false m2 e2) (S754_finite false m1 e1).
Proof.
  unfold leb, SFleb, SFcompare.
  rewrite (Z.compare_antisym e1 e2).
  destruct (e1 ?= e2); cbn [CompOpp]; try reflexivity.
  change (PosDef.Pos.compare_cont Eq m1 m2) with (Pos.compare m1 m2).
  change (PosDef.Pos.compare_cont Eq m2 m1) with (Pos.compare m2 m1).
  now rewrite (Pos.compare_antisym m1 m2).
Qed.

Lemma bounded_ge_min m e :
  bounded 53 1024 m e = true -> (bpow (-1074) <= F2R (Zpos m) e)%R.
Proof.
  intros Hb. destruct (bounded_canonical _ _ Hb) as (Hc & _).
  destruct (canonical_digits (Zpos m) e ltac:(lia) Hc) as (_ & He & _).
  apply Rle_trans with (bpow e); [now apply bpow_le|].
  unfold F2R. pose proof (bpow_gt_0 e).
  assert (1 <= IZR (Zpos m))%R by (apply IZR_le; lia). nra.
Qed.

Lemma canonical_min : canonical 1 (-1074).
Proof. reflexivity. Qed.

(** [-T + v] for [0 <= v <= T]. *)
Lemma neg_plus_range mT eT mv ev :
  bounded 53 1024 mT eT = true -> bounded 53 1024 mv ev = true ->
  (F2R (Zpos mv) ev <= F2R (Zpos mT) eT)%R ->
  leb (S754_finite true mT eT)
    (add (S754_finite true mT eT) (S754_finite false mv ev)) = true
  /\ leb (add (S754_finite true mT eT) (S754_finite false mv ev)) pzero = true.
Proof.
  intros HbT Hbv Hle.
  unfold add, prec, emax. cbn [SFadd cond_Zopp].
  pose proof (shl_align_spec mT eT (Z.min eT ev)) as Ha.
  pose proof (shl_align_spec mv ev (Z.min eT ev)) as Hb.
  destruct (shl_align mT eT (Z.min eT ev)) as [ma ea].
  destruct (shl_align mv ev (Z.min eT ev)) as [mb eb].
  destruct Ha as (HFa & _ & Hea). destruct Hb as (HFb & _ & Heb).
  cbn [fst].
  assert (Ea : ea = Z.min eT ev) by lia.
  assert (Eb : eb = Z.min eT ev) by lia.
  rewrite Ea in HFa. rewrite Eb in HFb.
  set (ez := Z.min eT ev) in *.
  assert (Hba : Zpos mb <= Zpos ma).
  { apply (F2R_le_inv _ _ ez). rewrite HFa, HFb. exact Hle. }
  destruct (- Zpos ma + Zpos mb) as [|p|p] eqn:Ez; try lia.
  - split; reflexivity.
  - cbn [binary_normalize].
    destruct (binary_round_correct true p ez) as (v & Hrt & Hrep).
    assert (Hx : F2R (Zpos p) ez
                 = (F2R (Zpos mT) eT - F2R (Zpos mv) ev)%R).
    { rewrite <- HFa, <- HFb. unfold F2R.
      replace (Zpos p) with (Zpos ma - Zpos mb) by lia.
      rewrite minus_IZR. ring. }
    destruct (bounded_canonical _ _ Hbv) as (Hcv & _).
    destruct (canonical_digits (Zpos mv) ev ltac:(lia) Hcv) as (_ & Hev & _).
    destruct (bounded_canonical _ _ HbT) as (HcT & _).
    destruct (canonical_digits (Zpos mT) eT ltac:(lia) HcT) as (_ & HeT & _).
    destruct (rounded_between (F2R (Zpos p) ez) v true _ 1 (-1074)
                mT eT Hrt Hrep canonical_min HbT)
      as (m & e & Hf & Hbm & Hlo' & Hhi').
    { split.
      - unfold F2R at 1. rewrite Rmult_1_l.
        apply Rle_trans with (bpow ez); [apply bpow_le; unfold ez; lia|].
        unfold F2R. pose proof (bpow_gt_0 ez).
        assert (1 <= IZR (Zpos p))%R by (apply IZR_le; lia). nra.
      - rewrite Hx. pose proof (F2R_pos (Zpos mv) ev ltac:(lia)). lra. }
    rewrite Hf. split; [|reflexivity].
    rewrite SFleb_neg.
    apply (SFleb_pos_iff m e mT eT Hbm HbT). exact Hhi'.
Qed.

(** [-T + q * T] for [0 < q <= 1] and a double [T >= 1]. *)
Lemma offset_range mT eT q :
  bounded 53 1024 mT eT = true -> (1 <= F2R (Zpos mT) eT)%R ->
  valid q = true -> ltb pzero q = true -> leb q (of_Z 1) = true ->
  leb (S754_finite true mT eT)
    (add (S754_finite true mT eT) (mul q (S754_finite false mT eT))) = true
  /\ leb (add (S754_finite true mT eT) (mul q (S754_finite false mT eT)))
       pzero = true.
Proof.
  intros HbT HT Hv Hpos Hle.
  destruct q as [[]|[]| |[] ml el]; try discriminate.
  rewrite valid_finite in Hv.
  change (of_Z 1) with (S754_finite false 4503599627370496 (-52)) in Hle.
  apply (SFleb_pos_iff ml el 4503599627370496 (-52) Hv eq_refl) in Hle.
  rewrite F2R_one in Hle.
  pose proof (bounded_ge_min ml el Hv) as Hmin.
  destruct (mul_between ml el mT eT 1 (-1074) mT eT Hv HbT canonical_min HbT)
    as (mv & ev & Hmul & Hbv & Hlo & Hhi).
  { unfold F2R at 1. rewrite Rmult_1_l.
    pose proof (bpow_gt_0 (-1074)). nra. }
  rewrite Hmul. now apply neg_plus_range.
Qed.

Lemma F2R_ten : F2R 5629499534213120 (-49) = 10%R.
Proof. unfold F2R. bpow_num RangeFacts.bpow_neg_pos. lra. Qed.

(** [-10 + l * 10] for a luminosity [l] in (0, 1]. *)
Lemma minus_ten_plus l :
  valid l = true -> ltb pzero l = true -> leb l (of_Z 1) = true ->
  leb (opp (of_Z 10)) (add (opp (of_Z 10)) (mul l (of_Z 10))) = true
  /\ leb (add (opp (of_Z 10)) (mul l (of_Z 10))) pzero = true.
Proof.
  intros Hv Hpos Hle.
  change (of_Z 10) with (S754_finite false 5629499534213120 (-49)).
  change (opp (S754_finite false 5629499534213120 (-49)))
    with (S754_finite true 5629499534213120 (-49)).
  apply offset_range; try assumption; [reflexivity|].
  rewrite F2R_ten. lra.
Qed.

End VolumeFacts.
(** * Fade-outs, and bodies in the visualization *)

Module FadeFacts.
Import F64 JS JSMore RitualActivation OrreryFacts RitualFacts OrreryInvariants.

Lemma check_one_fading soulId resonance position st ritual k :
  In k (fading st) ->
  In k (fading (check_one soulId resonance position st ritual)).
Proof.
  intros Hk. unfold check_one. cbv zeta.
  destruct (leb _ _).
  - destruct (negb _); [exact Hk|exact Hk].
  - destruct (JSMapMore.has _ _); [|exact Hk].
    unfold deactivateRitual. destruct (JSMap.get _ _); [|exact Hk].
    cbn [fading]. apply in_or_app. now left.
Qed.

Lemma fold_check_fading soulId resonance position rs : forall st k,
  In k (fading st) ->
  In k (fading (fold_left (check_one soulId resonance position) rs st)).
Proof.
  induction rs as [|r0 rs IH]; intros st k Hk; cbn [fold_left];
    [exact Hk|].
  apply IH. now apply check_one_fading.
Qed.

Lemma check_one_fades soulId resonance position st ritual :
  JSMapMore.has (activeRituals st) (ritualKey soulId ritual) = true ->
  leb (resonanceThreshold ritual) resonance = false ->
  In (ritualKey soulId ritual)
    (fading (check_one soulId resonance position st ritual)).
Proof.
  intros Hhas Hle. unfold check_one. cbv zeta. rewrite Hle, Hhas.
  unfold deactivateRitual. unfold JSMapMore.has in Hhas.
  destruct (JSMap.get _ _); [|discriminate].
  cbn [fading]. apply in_or_app. right. now left.
Qed.

Lemma fold_check_fades soulId resonance position rs : forall st ritual,
  In ritual rs ->
  JSMapMore.has (activeRituals st) (ritualKey soulId ritual) = true ->
  leb (resonanceThreshold ritual) resonance = false ->
  In (ritualKey soulId ritual)
    (fading (fold_left (check_one soulId resonance position) rs st)).
Proof.
  induction rs as [|r0 rs IH]; intros st ritual Hin Hhas Hle;
    cbn [fold_left]; [destruct Hin|].
  destruct Hin as [->|Hin].
  - apply fold_check_fading. now apply check_one_fades.
  - apply IH; [assumption| |assumption]. now apply check_one_keeps.
Qed.

Lemma check_one_NoDup soulId resonance position st ritual :
  NoDup (JSMapMore.keys (activeRituals st)) ->
  NoDup (JSMapMore.keys
           (activeRituals (check_one soulId resonance position st ritual))).
Proof.
  intros Hnd. unfold check_one. cbv zeta.
  destruct (leb _ _).
  - destruct (negb _); [|exact Hnd].
    cbn [activateRitual activeRituals]. now apply set_keys_NoDup.
  - destruct (JSMapMore.has _ _); [|exact Hnd].
    unfold deactivateRitual. now destruct (JSMap.get _ _).
Qed.

Lemma fold_check_NoDup soulId resonance position rs : forall st,
  NoDup (JSMapMore.keys (activeRituals st)) ->
  NoDup (JSMapMore.keys
           (activeRituals
              (fold_left (check_one soulId resonance position) rs st))).
Proof.
  induction rs as [|r0 rs IH]; intros st Hnd; cbn [fold_left]; [exact Hnd|].
  apply IH. now apply check_one_NoDup.
Qed.

Lemma delete_removes {V : Type} (m : JSMap.t V) k :
  NoDup (map fst m) -> JSMapMore.has (JSMapMore.delete m k) k = false.
Proof.
  induction m as [|[k' v] m IH]; intros Hnd; cbn [JSMapMore.delete];
    [reflexivity|].
  cbn [map fst] in Hnd. apply NoDup_cons_iff in Hnd.
  destruct Hnd as (Hnotin & Hnd).
  destruct (JSMap.key_eqb k k') eqn:E.
  - apply key_eqb_eq in E. subst k'. now apply not_in_has_false.
  - unfold JSMapMore.has. cbn [JSMap.get]. rewrite E.
    exact (IH Hnd).
Qed.

Lemma delete_other {V : Type} (m : JSMap.t V) k k' :
  k <> k' -> JSMap.get (JSMapMore.delete m k) k' = JSMap.get m k'.
Proof.
  intros Hne. induction m as [|[k0 v] m IH]; cbn [JSMapMore.delete];
    [reflexivity|].
  destruct (JSMap.key_eqb k k0) eqn:E.
  - apply key_eqb_eq in E. subst k0. cbn [JSMap.get].
    destruct (JSMap.key_eqb k' k) eqn:E'; [|reflexivity].
    apply key_eqb_eq in E'. congruence.
  - cbn [JSMap.get]. now rewrite IH.
Qed.

Lemma get_In {V : Type} (m : JSMap.t V) k v :
  JSMap.get m k = Some v -> In (k, v) m.
Proof.
  induction m as [|[k' v'] m IH]; cbn [JSMap.get]; [discriminate|].
  destruct (JSMap.key_eqb k k') eqn:E.
  - apply key_eqb_eq in E. subst k'. intros H. injection H as <-. now left.
  - intros H. right. now apply IH.
Qed.

Lemma In_keys_get {V : Type} (m : JSMap.t V) k :
  In k (map fst m) -> exists v, JSMap.get m k = Some v.
Proof.
  intros Hin. destruct (JSMap.get m k) as [v|] eqn:E; [eauto|].
  assert (H : JSMapMore.has m k = false) by (unfold JSMapMore.has; now rewrite E).
  now apply has_false_not_in in H.
Qed.

End FadeFacts.
(** * Upper and lower case in hashes *)

Module CaseFacts.
Import F64 JS Kepler432Lattice HashDecoder.

Lemma hex_upper_cases c :
  hex_upper c = c
  \/ exists d, hex_digit c = Some d /\ hex_digit (hex_upper c) = Some d.
Proof.
  unfold hex_upper.
  destruct (N.leb_spec 97 c); destruct (N.leb_spec c 102); cbn [andb];
    try (now left).
  right. exists (Z.of_N c - 87). unfold hex_digit.
  replace (N.leb 48 c && N.leb c 57)%N with false
    by (symmetry; apply andb_false_iff; right; apply N.leb_gt; lia).
  replace (N.leb 97 c && N.leb c 102)%N with true
    by (symmetry; apply andb_true_iff; split; apply N.leb_le; lia).
  split; [reflexivity|].
  replace (N.leb 48 (c - 32) && N.leb (c - 32) 57)%N with false
    by (symmetry; apply andb_false_iff; right; apply N.leb_gt; lia).
  replace (N.leb 97 (c - 32) && N.leb (c - 32) 102)%N with false
    by (symmetry; apply andb_false_iff; left; apply N.leb_gt; lia).
  replace (N.leb 65 (c - 32) && N.leb (c - 32) 70)%N with true
    by (symmetry; apply andb_true_iff; split; apply N.leb_le; lia).
  f_equal. lia.
Qed.

Lemma hex_upper_digit c : hex_digit (hex_upper c) = hex_digit c.
Proof.
  destruct (hex_upper_cases c) as [->|(d & H1 & H2)]; [reflexivity|].
  congruence.
Qed.

Lemma hex_upper_space c : is_white_space (hex_upper c) = is_white_space c.
Proof.
  destruct (hex_upper_cases c) as [->|(d & H1 & H2)]; [reflexivity|].
  destruct (hex_digit_inv _ _ H1) as (_ & -> & _).
  now destruct (hex_digit_inv _ _ H2) as (_ & -> & _).
Qed.

Lemma hex_upper_eqb c k :
  In k [PLUS; MINUS; LOWER_X; UPPER_X; DIGIT_0] ->
  N.eqb (hex_upper c) k = N.eqb c k.
Proof.
  intros Hk.
  destruct (hex_upper_cases c) as [->|(d & H1 & H2)]; [reflexivity|].
  destruct (hex_digit_inv _ _ H1) as (_ & _ & A1 & A2 & A3 & A4).
  destruct (hex_digit_inv _ _ H2) as (_ & _ & B1 & B2 & B3 & B4).
  cbn [In] in Hk.
  destruct Hk as [<-|[<-|[<-|[<-|[<-|[]]]]]]; try congruence.
  unfold hex_upper.
  destruct (N.leb_spec 97 c); destruct (N.leb_spec c 102); cbn [andb];
    try reflexivity.
  unfold DIGIT_0.
  transitivity false; [apply N.eqb_neq; lia|symmetry; apply N.eqb_neq; lia].
Qed.

Lemma trim_start_upper s :
  trim_start (map hex_upper s) = map hex_upper (trim_start s).
Proof.
  induction s as [|c s IH]; cbn [map trim_start]; [reflexivity|].
  rewrite hex_upper_space. now destruct (is_white_space c).
Qed.

Lemma strip_0x_upper s :
  strip_0x (map hex_upper s) = map hex_upper (strip_0x s).
Proof.
  destruct s as [|c1 [|c2 s]]; cbn [map strip_0x]; try reflexivity.
  rewrite !hex_upper_eqb by (cbn; tauto).
  now destruct (N.eqb c1 DIGIT_0 && (N.eqb c2 LOWER_X || N.eqb c2 UPPER_X)).
Qed.

Lemma hex_run_upper s : hex_run (map hex_upper s) = hex_run s.
Proof.
  induction s as [|c s IH]; cbn [map hex_run]; [reflexivity|].
  rewrite hex_upper_digit, IH. reflexivity.
Qed.

Lemma parseInt16_upper s : parseInt16 (map hex_upper s) = parseInt16 s.
Proof.
  unfold parseInt16. cbv zeta. rewrite trim_start_upper.
  destruct (trim_start s) as [|c S]; cbn [map].
  - reflexivity.
  - rewrite !hex_upper_eqb by (cbn; tauto).
    change (hex_upper c :: map hex_upper S) with (map hex_upper (c :: S)).
    destruct (N.eqb c PLUS || N.eqb c MINUS);
      now rewrite strip_0x_upper, hex_run_upper.
Qed.

Lemma substr_upper s i n :
  substr (map hex_upper s) i n = map hex_upper (substr s i n).
Proof. unfold substr. now rewrite skipn_map, firstn_map. Qed.

(** The buffers of two hashes whose parts after the prefix differ in
    the case of hexadecimal letters only. *)
Lemma hashToBuffer_upper h1 h2 :
  strip_prefix h1 = map hex_upper (strip_prefix h2) ->
  hashToBuffer h1 = hashToBuffer h2.
Proof.
  intros H. apply (nth_ext _ _ 0 0).
  - now rewrite !hashToBuffer_length.
  - intros k _. rewrite !hashToBuffer_nth, H, length_map.
    destruct (2 * k <? Nat.min (length (strip_prefix h2)) 64)%nat;
      [|reflexivity].
    unfold decode_pair. now rewrite substr_upper, parseInt16_upper.
Qed.

End CaseFacts.

(** * Angles and the remainder *)

Module RemFacts.
Import Rounding RoundingFacts F64 F64Facts Kepler432Lattice.

Lemma bpow_lt_inv a b : (bpow a < bpow b)%R -> a < b.
Proof.
  intros H. destruct (Z_lt_le_dec a b) as [|Hle]; [assumption|].
  pose proof (bpow_le _ _ Hle). lra.
Qed.

(** A short mantissa at an exponent of the format is a double. *)
Lemma short_mantissa_representable p e :
  Zdigits2 (Zpos p) <= 53 -> -1074 <= e -> Zdigits2 (Zpos p) + e <= 1024 ->
  exists mb eb, bounded 53 1024 mb eb = true
                /\ F2R (Zpos mb) eb = F2R (Zpos p) e.
Proof.
  intros Hd He Hmax.
  pose proof (Zdigits2_pos (Zpos p) ltac:(lia)) as Hd0.
  set (d := Zdigits2 (Zpos p)) in *.
  set (eb := fexp64 (d + e)).
  assert (Heb : eb <= e /\ eb <= 971 /\ eb = Z.max (d + e - 53) (-1074)).
  { unfold eb. rewrite fexp64_eq. lia. }
  assert (Hpw : 0 < 2 ^ (e - eb)) by (apply Z.pow_pos_nonneg; lia).
  destruct (Zpos p * 2 ^ (e - eb)) as [|mb|mb] eqn:Hmb; try lia.
  exists mb, eb. split.
  - unfold bounded. apply andb_true_intro. split.
    + apply canonical_mantissa_iff. unfold canonical.
      rewrite <- Hmb, Zdigits2_shift by lia. fold d.
      replace (d + (e - eb) + eb) with (d + e) by lia. reflexivity.
    + apply Z.leb_le. lia.
  - rewrite <- Hmb, F2R_shift by lia. f_equal. lia.
Qed.

(** The remainder of a non-negative double by a positive one: it is
    exact, it lies below the divisor, and it differs from the dividend
    by a whole multiple of the divisor. *)
Lemma rem_pos mn en md ed :
  bounded 53 1024 mn en = true -> bounded 53 1024 md ed = true ->
  exists k : Z,
    0 <= k
    /\ ((rem (S754_finite false mn en) (S754_finite false md ed) = pzero
         /\ F2R (Zpos mn) en = (IZR k * F2R (Zpos md) ed)%R)
        \/ exists m e,
             rem (S754_finite false mn en) (S754_finite false md ed)
             = S754_finite false m e
             /\ bounded 53 1024 m e = true
             /\ (F2R (Zpos m) e < F2R (Zpos md) ed)%R
             /\ F2R (Zpos mn) en
                = (F2R (Zpos m) e + IZR k * F2R (Zpos md) ed)%R).
Proof.
  intros Hn Hd. unfold rem.
  pose proof (shl_align_spec mn en (Z.min en ed)) as Ha.
  pose proof (shl_align_spec md ed (Z.min en ed)) as Hb.
  destruct (shl_align mn en (Z.min en ed)) as [ma ea].
  destruct (shl_align md ed (Z.min en ed)) as [mb eb].
  destruct Ha as (HFa & Hda & Hea). destruct Hb as (HFb & Hdb & Heb).
  cbn [fst].
  assert (Ea : ea = Z.min en ed) by lia.
  assert (Eb : eb = Z.min en ed) by lia.
  rewrite Ea in HFa, Hda. rewrite Eb in HFb, Hdb.
  set (ez := Z.min en ed) in *.
  destruct (bounded_canonical _ _ Hn) as (Cn & _).
  destruct (bounded_canonical _ _ Hd) as (Cd & _).
  destruct (canonical_digits (Zpos mn) en ltac:(lia) Cn) as (Dn & En & _).
  destruct (canonical_digits (Zpos md) ed ltac:(lia) Cd) as (Dd & Ed & _).
  pose proof (Z.quot_rem' (Zpos ma) (Zpos mb)) as Hqr.
  pose proof (Z.rem_bound_pos (Zpos ma) (Zpos mb) ltac:(lia) ltac:(lia))
    as (Hr0 & Hrb).
  pose proof (Z.quot_pos (Zpos ma) (Zpos mb) ltac:(lia) ltac:(lia)) as Hq0.
  set (q := Z.quot (Zpos ma) (Zpos mb)) in *.
  assert (Hsplit : F2R (Zpos mn) en
                   = (F2R (Z.rem (Zpos ma) (Zpos mb)) ez
                      + IZR q * F2R (Zpos md) ed)%R).
  { rewrite <- HFa, <- HFb. unfold F2R. rewrite Hqr at 1.
    rewrite plus_IZR, mult_IZR. ring. }
  exists q. split; [exact Hq0|].
  destruct (Z.rem (Zpos ma) (Zpos mb)) as [|p|p] eqn:Er; try lia.
  - left. split; [reflexivity|].
    rewrite Hsplit. unfold F2R. cbn [IZR]. ring.
  - right. cbn [cond_Zopp binary_normalize].
    assert (Hlt : (F2R (Zpos p) ez < F2R (Zpos md) ed)%R).
    { rewrite <- HFb. apply F2R_lt. lia. }
    assert (Hle : (F2R (Zpos p) ez <= F2R (Zpos mn) en)%R).
    { rewrite Hsplit. pose proof (F2R_pos (Zpos md) ed ltac:(lia)).
      assert (0 <= IZR q)%R by (apply IZR_le; lia). nra. }
    assert (Hp : Zdigits2 (Zpos p) <= 53).
    { pose proof (Zdigits2_bounds (Zpos p) ltac:(lia)) as (Hp1 & _).
      destruct (Z_le_gt_dec (Zdigits2 (Zpos p)) 53) as [|Hgt]; [assumption|].
      assert (H53 : 2 ^ 53 <= 2 ^ (Zdigits2 (Zpos p) - 1))
        by (apply Z.pow_le_mono_r; lia).
      destruct (Z_le_gt_dec en ed) as [Hc|Hc].
      - (* the dividend is not shifted *)
        assert (Zdigits2 (Zpos ma) = Zdigits2 (Zpos mn)) by (unfold ez in *; lia).
        pose proof (Zdigits2_bounds (Zpos ma) ltac:(lia)) as (_ & Ha2).
        assert (2 ^ Zdigits2 (Zpos ma) <= 2 ^ 53)
          by (apply Z.pow_le_mono_r; lia).
        assert (Zpos p <= Zpos ma).
        { rewrite <- Er. apply Z.rem_le; lia. }
        lia.
      - assert (Zdigits2 (Zpos mb) = Zdigits2 (Zpos md)) by (unfold ez in *; lia).
        pose proof (Zdigits2_bounds (Zpos mb) ltac:(lia)) as (_ & Hb2).
        assert (2 ^ Zdigits2 (Zpos mb) <= 2 ^ 53)
          by (apply Z.pow_le_mono_r; lia).
        lia. }
    assert (Hez : -1074 <= ez) by (unfold ez; lia).
    assert (Hmax : Zdigits2 (Zpos p) + ez <= 1024).
    { pose proof (F2R_digits_ge (Zpos p) ez ltac:(lia)) as Hge.
      pose proof (bounded_lt_emax _ _ Hn) as Hlt'.
      assert (Hb' : (bpow (Zdigits2 (Zpos p) - 1 + ez) < bpow 1024)%R) by lra.
      apply bpow_lt_inv in Hb'. lia. }
    destruct (short_mantissa_representable p ez Hp Hez Hmax)
      as (m & e & Hbm & HF).
    exists m, e. split.
    { apply binary_round_representable; [assumption|now symmetry]. }
    split; [assumption|]. rewrite HF. split; [assumption|exact Hsplit].
Qed.

Lemma rem_reduces x :
  valid x = true -> is_finite x = true -> leb pzero x = true ->
  reduced_angle x (rem x two_pi).
Proof.
  intros Hv Hf Hle. unfold reduced_angle. split; [exact Hf|].
  change two_pi with (S754_finite false 7074237752028440 (-50)).
  destruct x as [s| | |[] mn en]; try discriminate.
  - split; [destruct s; reflexivity|]. exists 0.
    change (rem (S754_zero s) (S754_finite false 7074237752028440 (-50)))
      with (S754_zero s).
    cbn [value]. lra.
  - rewrite valid_finite in Hv.
    destruct (rem_pos mn en 7074237752028440 (-50) Hv eq_refl)
      as (k & Hk & [(E & HF)|(m & e & E & Hb & Hlt & HF)]); rewrite E.
    + split; [reflexivity|]. exists k. cbn [value cond_Zopp].
      rewrite HF. unfold pzero. cbn [value]. lra.
    + split.
      * unfold in_turn. rewrite valid_finite, Hb. cbn [andb].
        rewrite RangeFacts.leb_pzero_finite. cbn [andb].
        apply (proj2 (SFltb_pos_iff m e 7074237752028440 (-50) Hb eq_refl)).
        exact Hlt.
      * exists k. cbn [value cond_Zopp]. exact HF.
Qed.



(** What [in_turn] says of a double. *)
Lemma in_turn_cases a :
  in_turn a = true ->
  (exists s, a = S754_zero s)
  \/ exists m e, a = S754_finite false m e /\ bounded 53 1024 m e = true
                 /\ (F2R (Zpos m) e < F2R 7074237752028440 (-50))%R.
Proof.
  unfold in_turn. intros H.
  apply andb_prop in H. destruct H as (H & Hlt).
  apply andb_prop in H. destruct H as (Hv & Hle).
  destruct a as [s|[]| |[] m e]; try discriminate.
  - left. now exists s.
  - right. exists m, e. rewrite valid_finite in Hv.
    split; [reflexivity|]. split; [assumption|].
    change two_pi with (S754_finite false 7074237752028440 (-50)) in Hlt.
    now apply (SFltb_pos_iff m e 7074237752028440 (-50) Hv eq_refl).
Qed.

(** An angle of the first turn plus a positive offset of at most
    [PI]: the sum is a positive double. *)
Lemma add_offset a mo eo :
  in_turn a = true -> bounded 53 1024 mo eo = true ->
  (F2R (Zpos mo) eo <= F2R 7074237752028440 (-51))%R ->
  valid (add a (S754_finite false mo eo)) = true
  /\ is_finite (add a (S754_finite false mo eo)) = true
  /\ leb pzero (add a (S754_finite false mo eo)) = true.
Proof.
  intros Ha Hbo Ho.
  destruct (in_turn_cases a Ha) as [(s & ->)|(m & e & -> & Hb & Hlt)].
  - change (add (S754_zero s) (S754_finite false mo eo))
      with (S754_finite false mo eo).
    rewrite valid_finite. repeat split; assumption.
  - destruct (SFadd_pos_correct m e mo eo) as (v & Hrt & Hrep).
    destruct (bounded_canonical _ _ Hbo) as (Co & _).
    destruct (RangeFacts.rounded_between _ v false _ mo eo
                4503599627370496 (-48) Hrt Hrep Co eq_refl)
      as (m' & e' & Hf & Hb' & _).
    { pose proof (F2R_pos (Zpos m) e ltac:(lia)) as Hp.
      split; [lra|].
      revert Hlt Ho. unfold F2R. bpow_num RangeFacts.bpow_neg_pos. lra. }
    unfold add, prec, emax. rewrite Hf. rewrite valid_finite.
    repeat split; assumption.
Qed.

(** An angle of the first turn minus an offset it is not below: the
    difference is a double that is not negative. *)
Lemma sub_offset a mo eo :
  in_turn a = true -> bounded 53 1024 mo eo = true ->
  leb (S754_finite false mo eo) a = true ->
  valid (sub a (S754_finite false mo eo)) = true
  /\ is_finite (sub a (S754_finite false mo eo)) = true
  /\ leb pzero (sub a (S754_finite false mo eo)) = true.
Proof.
  intros Ha Hbo Hle.
  destruct (in_turn_cases a Ha) as [(s & ->)|(m & e & -> & Hb & Hlt)].
  - destruct s; discriminate Hle.
  - apply (SFleb_pos_iff mo eo m e Hbo Hb) in Hle.
    unfold sub, prec, emax. cbn [SFsub cond_Zopp].
    pose proof (shl_align_spec m e (Z.min e eo)) as Hx.
    pose proof (shl_align_spec mo eo (Z.min e eo)) as Hy.
    destruct (shl_align m e (Z.min e eo)) as [mx ex].
    destruct (shl_align mo eo (Z.min e eo)) as [my ey].
    destruct Hx as (HFx & _ & Hex). destruct Hy as (HFy & _ & Hey).
    cbn [fst].
    assert (Ex : ex = Z.min e eo) by lia.
    assert (Ey : ey = Z.min e eo) by lia.
    rewrite Ex in HFx. rewrite Ey in HFy.
    set (ez := Z.min e eo) in *.
    assert (Hyx : Zpos my <= Zpos mx).
    { apply (F2R_le_inv _ _ ez). rewrite HFx, HFy. exact Hle. }
    destruct (Zpos mx - Zpos my) as [|p|p] eqn:Ez; try lia.
    + repeat split.
    + cbn [binary_normalize].
      destruct (binary_round_correct false p ez) as (v & Hrt & Hrep).
      assert (Hd : F2R (Zpos p) ez
                   = (F2R (Zpos m) e - F2R (Zpos mo) eo)%R).
      { rewrite <- HFx, <- HFy. unfold F2R.
        replace (Zpos p) with (Zpos mx - Zpos my) by lia.
        rewrite minus_IZR. ring. }
      destruct (bounded_canonical _ _ Hb) as (Cm & _).
      destruct (bounded_canonical _ _ Hbo) as (Co & _).
      destruct (canonical_digits (Zpos m) e ltac:(lia) Cm) as (_ & He & _).
      destruct (canonical_digits (Zpos mo) eo ltac:(lia) Co) as (_ & Heo & _).
      destruct (RangeFacts.rounded_between (F2R (Zpos p) ez) v false _
                  1 (-1074) m e Hrt Hrep VolumeFacts.canonical_min Hb)
        as (m' & e' & Hf & Hb' & _).
      { split.
        - unfold F2R at 1. rewrite Rmult_1_l.
          apply Rle_trans with (bpow ez); [apply bpow_le; unfold ez; lia|].
          unfold F2R. pose proof (bpow_gt_0 ez).
          assert (1 <= IZR (Zpos p))%R by (apply IZR_le; lia). nra.
        - rewrite Hd. pose proof (F2R_pos (Zpos mo) eo ltac:(lia)). lra. }
      rewrite Hf, valid_finite. repeat split; assumption.
Qed.

End RemFacts.
(** * The claims *)

Import Kepler432Lattice.

(** Claim C1, as amended.  For every hash whose first decoded word
    gives [r = 0] (the all-zero hash is one), [hashToOrbit] returns
    period exactly [+0], a defined number, and velocity NaN: the
    velocity is [(2*PI*r) / period] with no case for a zero period, so
    at [r = 0] it is [0 / 0]. *)
Theorem C1_zero_radius_period_and_velocity (M : MathImpl) (hash : JS.jsstring) :
  JS.getUint32_le (hashToBuffer hash) 0 mod 1000 = 0 ->
  r (hashToOrbit hash) = F64.pzero
  /\ period (hashToOrbit hash) = F64.pzero
  /\ velocity (hashToOrbit hash) = F64.nan.
Proof.
  intros Hw.
  assert (Hr : r (hashToOrbit hash) = F64.pzero).
  { rewrite OrbitalMapper.hashToOrbit_r, Hw. reflexivity. }
  assert (Hp : period (hashToOrbit hash) = F64.pzero).
  { rewrite OrbitalMapper.hashToOrbit_period, Hr. reflexivity. }
  repeat split; try assumption.
  rewrite OrbitalMapper.hashToOrbit_velocity, Hp, Hr. reflexivity.
Qed.

Lemma C1_zero_radius_witness :
  JS.getUint32_le (hashToBuffer zero_hash) 0 mod 1000 = 0
  /\ r (hashToOrbit (M := RefMath.host) zero_hash) = F64.pzero
  /\ period (hashToOrbit (M := RefMath.host) zero_hash) = F64.pzero
  /\ velocity (hashToOrbit (M := RefMath.host) zero_hash) = F64.nan.
Proof.
  split; [reflexivity|].
  apply (C1_zero_radius_period_and_velocity RefMath.host zero_hash).
  reflexivity.
Defined.

(** Claim C1 as stated fails: at the hash of 64 zero characters the
    velocity is NaN, which is not the number 0. *)
Lemma C1_velocity_is_nan_at_zero_hash :
  F64.is_nan (velocity (hashToOrbit (M := RefMath.host) zero_hash)) = true
  /\ F64.eqb (velocity (hashToOrbit (M := RefMath.host) zero_hash)) F64.pzero
     = false.
Proof. split; reflexivity. Qed.

(** Claim C2, as amended.  For every eigenvalue sequence and every
    coordinates value with [r = 0], [orbitalHarmonics] returns a
    sequence of the same length none of whose elements is finite: the
    factor [r^(-1.5)] is [+Infinity] there and is multiplied in as it
    is, so each frequency is an infinity or NaN. *)
Theorem C2_zero_radius_harmonics_not_finite (M : MathImpl)
  (coordinates : OrbitalCoordinates) (eigenvalues : list F64.float) :
  r coordinates = F64.pzero ->
  length (orbitalHarmonics coordinates eigenvalues) = length eigenvalues
  /\ Forall (fun f => F64.is_finite f = false)
       (orbitalHarmonics coordinates eigenvalues).
Proof.
  intros Hr. split.
  - apply Harmonics.orbitalHarmonics_length.
  - now apply Harmonics.orbitalHarmonics_zero_radius.
Qed.

Lemma C2_zero_radius_witness :
  r (hashToOrbit (M := RefMath.host) zero_hash) = F64.pzero
  /\ length (orbitalHarmonics (M := RefMath.host)
               (hashToOrbit (M := RefMath.host) zero_hash) vector2_eigenvalues)
     = length vector2_eigenvalues
  /\ Forall (fun f => F64.is_finite f = false)
       (orbitalHarmonics (M := RefMath.host)
          (hashToOrbit (M := RefMath.host) zero_hash) vector2_eigenvalues).
Proof.
  split; [reflexivity|].
  apply (C2_zero_radius_harmonics_not_finite RefMath.host).
  reflexivity.
Defined.

(** Claim C2 as stated fails: eigenvalues [1.0, 0.5, 0.25, 0.125] at
    the [r = 0] coordinates of the all-zero hash give four infinite
    frequencies. *)
Lemma C2_vector2_frequencies_infinite :
  orbitalHarmonics (M := RefMath.host)
    (hashToOrbit (M := RefMath.host) zero_hash) vector2_eigenvalues
  = [F64.pinf; F64.pinf; F64.pinf; F64.pinf].
Proof. vm_compute. reflexivity. Qed.

(** Claim C3, as amended.  [createCelestialBody] rejects no input: for
    every hash string and every eigenvalue sequence, the empty one
    included, it returns a body and raises no error; the body keeps
    the given identifier, hash and eigenvalues. *)
Theorem C3_factory_rejects_nothing (M : MathImpl)
  (contentId proteinHash : JS.jsstring)
  (eigenvalues : list F64.float) :
  exists body,
    createCelestialBody contentId proteinHash eigenvalues = Normal body
    /\ cid body = contentId
    /\ soul body = proteinHash
    /\ harmonics body = eigenvalues.
Proof.
  rewrite Factory.createCelestialBody_eq. eexists. repeat split.
Qed.

(** Claim C3 as stated fails: the empty eigenvalue sequence is not
    rejected; construction returns a body whose luminosity is NaN. *)
Lemma C3_empty_eigenvalues_accepted :
  createCelestialBody (M := RefMath.host) testCID zero_hash []
  <> Throw InvalidInput
  /\ exists body,
       createCelestialBody (M := RefMath.host) testCID zero_hash []
       = Normal body
       /\ F64.is_nan (luminosity body) = true.
Proof.
  split; [discriminate|]. eexists. split; reflexivity.
Qed.


(** Claim C4, as amended.  The hash decoder is total.  It strips the
    first matching prefix among [bafkrei], [Qm], [phash:] and fills a
    32-byte buffer from the two-character slices of the first 64
    remaining characters; bytes beyond the input stay 0 and characters
    beyond the 64th are never read.  A slice decodes by
    [parseInt(slice, 16) || 0]: two hexadecimal digits give the byte
    they spell, a slice in which [parseInt] finds no digit gives 0, and
    a hexadecimal digit followed by another character gives the value
    of that digit alone (not 0).  The buffer is read as little-endian
    32-bit words. *)
Theorem C4_hash_decoder (hash : JS.jsstring) (k : nat) :
  (k < 32)%nat ->
  length (hashToBuffer hash) = 32%nat
  /\ nth k (hashToBuffer hash) 0
     = (if (2 * k <? Nat.min (length (strip_prefix hash)) 64)%nat
        then decode_pair (JS.substr (strip_prefix hash) (2 * k) 2)
        else 0)
  /\ 0 <= nth k (hashToBuffer hash) 0 < 256
  /\ (forall rest, strip_prefix (JS.str "bafkrei" ++ rest) = rest)
  /\ (forall rest, strip_prefix (JS.str "Qm" ++ rest) = rest)
  /\ (forall rest, strip_prefix (JS.str "phash:" ++ rest) = rest)
  /\ (forall c1 c2 d1 d2,
         JS.hex_digit c1 = Some d1 -> JS.hex_digit c2 = Some d2 ->
         decode_pair [c1; c2] = 16 * d1 + d2)
  /\ (forall pair,
         F64.is_nan (JS.parseInt16 pair) = true -> decode_pair pair = 0)
  /\ (forall c1 c2 d1,
         JS.hex_digit c1 = Some d1 -> JS.hex_digit c2 = None ->
         decode_pair [c1; c2] = d1)
  /\ (forall offset,
         JS.getUint32_le (hashToBuffer hash) offset
         = nth offset (hashToBuffer hash) 0
           + 2 ^ 8 * nth (offset + 1) (hashToBuffer hash) 0
           + 2 ^ 16 * nth (offset + 2) (hashToBuffer hash) 0
           + 2 ^ 24 * nth (offset + 3) (hashToBuffer hash) 0).
Proof.
  intros Hk.
  split; [apply HashDecoder.hashToBuffer_length|].
  split; [apply HashDecoder.hashToBuffer_nth|].
  split.
  { rewrite HashDecoder.hashToBuffer_nth.
    destruct (2 * k <? _)%nat; [apply HashDecoder.decode_pair_range|lia]. }
  split; [apply HashDecoder.strip_prefix_bafkrei|].
  split; [apply HashDecoder.strip_prefix_Qm|].
  split; [apply HashDecoder.strip_prefix_phash|].
  split; [apply HashDecoder.decode_pair_hex|].
  split; [apply HashDecoder.decode_pair_nan|].
  split; [apply HashDecoder.decode_pair_leading_digit|].
  reflexivity.
Qed.

Lemma C4_hash_decoder_witness :
  (1 < 32)%nat
  /\ nth 1 (hashToBuffer testCID) 0
     = (if (2 * 1 <? Nat.min (length (strip_prefix testCID)) 64)%nat
        then decode_pair (JS.substr (strip_prefix testCID) (2 * 1) 2)
        else 0).
Proof.
  split; [lia|].
  refine (proj1 (proj2 (C4_hash_decoder testCID 1 _))). lia.
Defined.

(** Claim C4 as stated fails: in the CID of the lattice's own test
    vector the second slice is [AP], which is not a pair of
    hexadecimal digits, and it decodes to byte 10, not 0. *)
Lemma C4_non_hex_pair_decodes_to_10 :
  JS.substr (strip_prefix testCID) 2 2 = JS.str "AP"
  /\ is_hex_pair (JS.substr (strip_prefix testCID) 2 2) = false
  /\ nth 1 (hashToBuffer testCID) 0 = 10.
Proof. repeat split. Qed.

(** Claim C6.  For every hash string the coordinates [hashToOrbit]
    returns satisfy [0 <= r < 1], [0 <= theta < 2*PI],
    [0 <= phi < 2*PI] and [0 <= eccentricity < 0.5], in the comparisons
    of binary64 (the double [2 * Math.PI] is below the real number
    2*pi). *)
Theorem C6_orbit_ranges (M : MathImpl) (hash : JS.jsstring) :
  let c := hashToOrbit hash in
  F64.leb F64.pzero (r c) = true /\ F64.ltb (r c) (F64.of_Z 1) = true
  /\ F64.leb F64.pzero (theta c) = true /\ F64.ltb (theta c) two_pi = true
  /\ F64.leb F64.pzero (phi c) = true /\ F64.ltb (phi c) two_pi = true
  /\ F64.leb F64.pzero (eccentricity c) = true
  /\ F64.ltb (eccentricity c) (F64.lit 5 10) = true.
Proof.
  cbv zeta.
  rewrite OrbitalMapper.hashToOrbit_r, OrbitalMapper.hashToOrbit_theta,
    OrbitalMapper.hashToOrbit_phi, OrbitalMapper.hashToOrbit_eccentricity.
  pose proof (RangeFacts.radius_range
                (JS.getUint32_le (hashToBuffer hash) 0 mod 1000)
                (Z.mod_pos_bound _ 1000 eq_refl)) as (H1 & H2).
  pose proof (RangeFacts.angle_range
                (JS.getUint32_le (hashToBuffer hash) 4 mod 10000)
                (Z.mod_pos_bound _ 10000 eq_refl)) as (H3 & H4).
  pose proof (RangeFacts.angle_range
                (JS.getUint32_le (hashToBuffer hash) 8 mod 10000)
                (Z.mod_pos_bound _ 10000 eq_refl)) as (H5 & H6).
  pose proof (RangeFacts.eccentricity_range
                (JS.getUint32_le (hashToBuffer hash) 12 mod 100)
                (Z.mod_pos_bound _ 100 eq_refl)) as (H7 & H8).
  repeat split; assumption.
Qed.

(** Claim C5, as amended.  Exporting a body the factory built from
    eigenvalues that are all finite numbers other than [-0], as the
    record of its cid, soul, coordinates, harmonics and luminosity, and
    importing that record rebuilds a body equal to the original in
    every field: the import path runs the factory again on
    [(cid, soul, harmonics)] and does not read the coordinates and the
    luminosity written in the record.  The visualization holds the
    rebuilt body; when audio is enabled the import completes as the
    audio library's answer to the body's voice does, and when it
    returns the orrery's own map and the music system hold the body
    too.  No other key is touched. *)
Theorem C5_export_import_round_trip (M : MathImpl) (T : ToneImpl)
  (contentId proteinHash : JS.jsstring) (eigenvalues : list F64.float)
  (body : CelestialBody) (source target : CosmicOrrery.Orrery) :
  createCelestialBody contentId proteinHash eigenvalues = Normal body ->
  forallb json_exact eigenvalues = true ->
  CosmicOrrery.bodies source = [(contentId, body)] ->
  let result :=
    CosmicOrrery.importState (CosmicOrrery.exportState source) target in
  JSMap.get (CosmicOrrery.visualization (fst result)) contentId = Some body
  /\ (CosmicOrrery.music target = None -> snd result = Normal tt)
  /\ (forall m,
        CosmicOrrery.music target = Some m ->
        snd result = snd (CosmicOrrery.music_addCelestialVoice body m)
        /\ (snd result = Normal tt ->
            JSMap.get (CosmicOrrery.bodies (fst result)) contentId = Some body
            /\ exists m',
                 CosmicOrrery.music (fst result) = Some m'
                 /\ JSMap.get (MusicOfSpheres.synths m') contentId
                    = Some
                        {| MusicOfSpheres.oscillator :=
                             MusicOfSpheres.getOscillatorType body;
                           MusicOfSpheres.volume :=
                             MusicOfSpheres.voice_volume body |}))
  /\ (forall k, k <> contentId ->
        JSMap.get (CosmicOrrery.bodies (fst result)) k
        = JSMap.get (CosmicOrrery.bodies target) k
        /\ JSMap.get (CosmicOrrery.visualization (fst result)) k
           = JSMap.get (CosmicOrrery.visualization target) k)
  /\ (forall stored_coordinates stored_luminosity,
        CosmicOrrery.importState
          [{| CosmicOrrery.e_cid := contentId;
              CosmicOrrery.e_soul := Some proteinHash;
              CosmicOrrery.e_coordinates := stored_coordinates;
              CosmicOrrery.e_harmonics :=
                Some (map JSON.stringify eigenvalues);
              CosmicOrrery.e_luminosity := stored_luminosity |}] target
        = result).
Proof.
  intros Hb Hx Hsrc result.
  assert (Hs : soul body = proteinHash /\ harmonics body = eigenvalues
               /\ cid body = contentId).
  { rewrite Factory.createCelestialBody_eq in Hb. injection Hb as <-.
    repeat split. }
  destruct Hs as (Hsoul & Hharm & Hcid).
  assert (Hfb : CosmicOrrery.factory_built (contentId, body)).
  { unfold CosmicOrrery.factory_built. cbn [fst snd].
    now rewrite Hsoul, Hharm. }
  assert (Hre := OrreryState.rebuild_exported (contentId, body) Hfb).
  cbn [snd] in Hre. rewrite Hharm in Hre. specialize (Hre Hx).
  assert (Hres : result
                 = CosmicOrrery.import_entry
                     (CosmicOrrery.export_entry (contentId, body)) target).
  { unfold result, CosmicOrrery.exportState. rewrite Hsrc. cbn [map].
    apply OrreryState.importState_one. }
  assert (Hrun := OrreryState.import_entry_run
                    (CosmicOrrery.export_entry (contentId, body)) target).
  rewrite Hre in Hrun. cbv zeta in Hrun.
  change (CosmicOrrery.e_cid (CosmicOrrery.export_entry (contentId, body)))
    with contentId in Hrun.
  rewrite <- Hres in Hrun. clear Hres.
  split; [|split; [|split; [|split]]].
  - rewrite Hrun.
    destruct (CosmicOrrery.music target) as [m|].
    + destruct (CosmicOrrery.music_addCelestialVoice body m) as [m' [[]|e]];
        cbn [fst CosmicOrrery.visualization];
        apply OrreryFacts.get_set_same.
    + cbn [fst CosmicOrrery.visualization]. apply OrreryFacts.get_set_same.
  - intros Hm. rewrite Hrun, Hm. reflexivity.
  - intros m Hm. rewrite Hrun, Hm.
    unfold CosmicOrrery.music_addCelestialVoice.
    destruct (PolySynth_voice (MusicOfSpheres.getOscillatorType body)
                (MusicOfSpheres.voice_volume body)) as [[]|e].
    + cbv zeta.
      destruct (MusicOfSpheres.isPlaying
                  (MusicOfSpheres.addCelestialVoice m body)).
      * destruct (celestial_chord body) as [[]|e];
          cbn [fst snd]; (split; [reflexivity|]); intros Hn;
          [|discriminate Hn].
        cbn [CosmicOrrery.bodies CosmicOrrery.music].
        split; [apply OrreryFacts.get_set_same|].
        eexists. split; [reflexivity|].
        unfold MusicOfSpheres.addCelestialVoice. cbn [MusicOfSpheres.synths].
        rewrite Hcid. apply OrreryFacts.get_set_same.
      * cbn [fst snd]. split; [reflexivity|]. intros _.
        cbn [CosmicOrrery.bodies CosmicOrrery.music].
        split; [apply OrreryFacts.get_set_same|].
        eexists. split; [reflexivity|].
        unfold MusicOfSpheres.addCelestialVoice. cbn [MusicOfSpheres.synths].
        rewrite Hcid. apply OrreryFacts.get_set_same.
    + cbn [fst snd]. split; [reflexivity|]. intros Hn. discriminate Hn.
  - intros k Hk. rewrite Hrun.
    destruct (CosmicOrrery.music target) as [m|].
    + destruct (CosmicOrrery.music_addCelestialVoice body m) as [m' [[]|e]];
        cbn [fst CosmicOrrery.visualization CosmicOrrery.bodies];
        (split; [|apply OrreryFacts.get_set_other; congruence]);
        [apply OrreryFacts.get_set_other; congruence|reflexivity].
    + cbn [fst CosmicOrrery.visualization CosmicOrrery.bodies].
      split; [reflexivity|apply OrreryFacts.get_set_other; congruence].
  - intros sc sl. rewrite OrreryState.importState_one.
    unfold result, CosmicOrrery.exportState. rewrite Hsrc. cbn [map].
    rewrite OrreryState.importState_one.
    apply OrreryState.import_entry_reads;
      cbn [CosmicOrrery.export_entry CosmicOrrery.e_cid CosmicOrrery.e_soul
           CosmicOrrery.e_harmonics]; congruence.
Qed.

Lemma C5_export_import_witness :
  createCelestialBody (M := RefMath.host) testCID testCID sample_eigenvalues
  = Normal sample_body
  /\ forallb json_exact sample_eigenvalues = true
  /\ CosmicOrrery.bodies one_body_orrery = [(testCID, sample_body)]
  /\ JSMap.get
       (CosmicOrrery.visualization
          (fst (CosmicOrrery.importState (M := RefMath.host)
                  (T := RefTone.strict)
                  (CosmicOrrery.exportState one_body_orrery)
                  (CosmicOrrery.create true))))
       testCID
     = Some sample_body.
Proof.
  split; [reflexivity|]. split; [reflexivity|]. split; [reflexivity|].
  exact (proj1 (C5_export_import_round_trip RefMath.host RefTone.strict
                  testCID testCID sample_eigenvalues sample_body
                  one_body_orrery (CosmicOrrery.create true)
                  eq_refl eq_refl eq_refl)).
Defined.

(** Claim C5 as stated fails: a body built from eigenvalues
    [[0.5, NaN]] has luminosity NaN; [JSON.stringify] writes the NaN
    as [null], and the body the import rebuilds from [[0.5, null]], with
    audio and without, has luminosity 0.8. *)
Lemma C5_nan_eigenvalue_is_not_reproduced :
  createCelestialBody (M := RefMath.host) testCID testCID clouded_eigenvalues
  = Normal clouded_body
  /\ CosmicOrrery.bodies clouded_orrery = [(testCID, clouded_body)]
  /\ F64.is_nan (luminosity clouded_body) = true
  /\ exists rebuilt,
       JSMap.get
         (CosmicOrrery.bodies
            (fst (CosmicOrrery.importState (M := RefMath.host)
                    (T := RefTone.quiet)
                    (CosmicOrrery.exportState clouded_orrery)
                    (CosmicOrrery.create true))))
         testCID
       = Some rebuilt
       /\ JSMap.get
            (CosmicOrrery.visualization
               (fst (CosmicOrrery.importState (M := RefMath.host)
                       (T := RefTone.quiet)
                       (CosmicOrrery.exportState clouded_orrery)
                       (CosmicOrrery.create false))))
            testCID
          = Some rebuilt
       /\ luminosity rebuilt = F64.lit 8 10
       /\ rebuilt <> clouded_body.
Proof.
  split; [reflexivity|]. split; [reflexivity|]. split; [reflexivity|].
  eexists. split; [vm_compute; reflexivity|].
  split; [vm_compute; reflexivity|]. split; [vm_compute; reflexivity|].
  intros H. apply (f_equal luminosity) in H. vm_compute in H. discriminate H.
Qed.

(** Claim C7, as amended.  [gravitationalPull] returns the same
    double for a pair in either order, and the two compare equal with
    [==] whenever that double is a number (it is NaN when a luminosity
    or a coordinate is NaN).  A body whose position is finite, paired
    with itself, and any pair whose computed distance is exactly 0,
    gives [+Infinity]; every other pair gives
    [G * luminosity a * luminosity b / distance^2] with [G = 1], the
    distance being the square root of [dx*dx + dy*dy + dz*dz] for the
    differences of the bodies' [x], [y] and [z].  (Luminosities are
    well-formed doubles.) *)
Theorem C7_gravitational_pull (a b : CelestialBody) :
  F64.valid (luminosity a) = true -> F64.valid (luminosity b) = true ->
  let dx := F64.sub (x (coordinates a)) (x (coordinates b)) in
  let dy := F64.sub (y (coordinates a)) (y (coordinates b)) in
  let dz := F64.sub (z (coordinates a)) (z (coordinates b)) in
  let distance :=
    JSMath.sqrt
      (F64.add (F64.add (F64.mul dx dx) (F64.mul dy dy)) (F64.mul dz dz)) in
  gravitationalPull a b = gravitationalPull b a
  /\ (F64.is_nan (gravitationalPull a b) = false ->
      F64.eqb (gravitationalPull a b) (gravitationalPull b a) = true)
  /\ (finite_position (coordinates a) = true ->
      gravitationalPull a a = F64.pinf)
  /\ (F64.eqb distance F64.pzero = true -> gravitationalPull a b = F64.pinf)
  /\ (F64.eqb distance F64.pzero = false ->
      gravitationalPull a b
      = F64.div (F64.mul (F64.mul (F64.of_Z 1) (luminosity a)) (luminosity b))
          (F64.mul distance distance)
      /\ gravitationalPull a b
         = F64.div (F64.mul (luminosity a) (luminosity b))
             (F64.mul distance distance)).
Proof.
  intros Ha Hb dx dy dz distance.
  pose proof (Gravity.gravitationalPull_sym a b Ha Hb) as Hsym.
  split; [exact Hsym|]. split.
  { intros Hn. rewrite <- Hsym. now apply F64Facts.eqb_refl. }
  split; [apply Gravity.gravitationalPull_self|].
  unfold gravitationalPull. cbv zeta.
  change (Vector3.distanceTo (position a) (position b)) with distance.
  split; intros Hd; rewrite Hd; [reflexivity|].
  split; [reflexivity|]. now rewrite F64Facts.mul_one_l.
Qed.

Lemma C7_gravitational_pull_witness :
  F64.valid (luminosity lagrange_primary) = true
  /\ F64.valid (luminosity outer_primary) = true
  /\ gravitationalPull lagrange_primary outer_primary
     = gravitationalPull outer_primary lagrange_primary.
Proof.
  split; [reflexivity|]. split; [reflexivity|].
  exact (proj1 (C7_gravitational_pull lagrange_primary outer_primary
                  eq_refl eq_refl)).
Defined.

(** Claim C7 as stated fails: the body the factory builds from no
    eigenvalues has luminosity NaN, its pull on the body of the test
    CID is NaN in either order, and NaN does not compare equal to
    itself; and a body with a NaN coordinate, paired with itself, gives
    NaN, not [+Infinity]. *)
Lemma C7_nan_pull_is_not_equal_to_itself :
  createCelestialBody (M := RefMath.host) far_hash far_hash []
  = Normal eclipsed_body
  /\ F64.eqb (gravitationalPull eclipsed_body sample_body)
       (gravitationalPull sample_body eclipsed_body) = false
  /\ F64.eqb (gravitationalPull adrift_body adrift_body) F64.pinf = false.
Proof. repeat split. Qed.

(** Claim C8, as amended.  For every primary body
    [findLagrangePoints] returns exactly 5 coordinates with
    eccentricity 0 and radii [r*0.9], [r*1.1], [r], [r], [r].  For a
    primary whose angles lie in [[0, 2*PI)] every phi and the thetas of
    the first four points are reduced modulo [2*PI]: they lie in
    [[0, 2*PI)] and differ from [phi], and from [theta], [theta],
    [theta + PI] and [theta + PI/3], by whole turns; so does the fifth
    theta, from [theta - PI/3], when [theta] is not below [PI/3].  For a
    primary with [r = 0.4] and [theta = 1.0] the radii are the doubles
    0.36000000000000004 ([0.4 * 0.9]), 0.44000000000000006
    ([0.4 * 1.1]), 0.4, 0.4, 0.4, and the first four thetas are [1.0],
    [1.0], [1.0 + PI] and [1.0 + PI/3]. *)
Theorem C8_lagrange_points (M : MathImpl) (primaryBody : CelestialBody) :
  let c := coordinates primaryBody in
  let points := findLagrangePoints primaryBody in
  length points = 5%nat
  /\ map eccentricity points
     = [F64.pzero; F64.pzero; F64.pzero; F64.pzero; F64.pzero]
  /\ map r points
     = [F64.mul (r c) (F64.lit 9 10); F64.mul (r c) (F64.lit 11 10);
        r c; r c; r c]
  /\ (in_turn (theta c) = true -> in_turn (phi c) = true ->
      Forall (reduced_angle (phi c)) (map phi points)
      /\ Forall2 reduced_angle
           [theta c; theta c; F64.add (theta c) JSMath.PI;
            F64.add (theta c) (F64.div JSMath.PI (F64.of_Z 3))]
           (firstn 4 (map theta points))
      /\ (F64.leb (F64.div JSMath.PI (F64.of_Z 3)) (theta c) = true ->
          reduced_angle
            (F64.sub (theta c) (F64.div JSMath.PI (F64.of_Z 3)))
            (theta (nth 4 points origin))))
  /\ (r c = F64.lit 4 10 -> theta c = F64.of_Z 1 ->
      map r points
      = [S754_finite false 6485183463413515 (-54);
         S754_finite false 7926335344172074 (-54);
         F64.lit 4 10; F64.lit 4 10; F64.lit 4 10]
      /\ firstn 4 (map theta points)
         = [F64.of_Z 1; F64.of_Z 1;
            F64.add (F64.of_Z 1) JSMath.PI;
            F64.add (F64.of_Z 1) (F64.div JSMath.PI (F64.of_Z 3))]).
Proof.
  cbv zeta. rewrite Lagrange.findLagrangePoints_eq. cbv zeta.
  cbn [length map r theta phi eccentricity sphericalToOrbital firstn nth].
  repeat (split; [reflexivity|]).
  split.
  - intros Ht Hp.
    assert (Hturn : forall a, in_turn a = true ->
                      F64.valid a = true /\ F64.is_finite a = true
                      /\ F64.leb F64.pzero a = true).
    { intros a Ha. unfold in_turn in Ha.
      apply andb_prop in Ha. destruct Ha as (Ha & Hlt).
      apply andb_prop in Ha. destruct Ha as (Hv & Hle).
      repeat split; try assumption.
      destruct a as [|[]| |]; try discriminate; reflexivity. }
    assert (Hred : forall a, in_turn a = true ->
                     reduced_angle a (F64.rem a two_pi)).
    { intros a Ha. destruct (Hturn a Ha) as (Hv & Hf & Hle).
      now apply RemFacts.rem_reduces. }
    split.
    { repeat (apply Forall_cons; [now apply Hred|]). apply Forall_nil. }
    split.
    + apply Forall2_cons; [now apply Hred|].
      apply Forall2_cons; [now apply Hred|].
      apply Forall2_cons.
      { change JSMath.PI with (S754_finite false 7074237752028440 (-51)).
        destruct (RemFacts.add_offset (theta (coordinates primaryBody))
                    7074237752028440 (-51) Ht eq_refl (Rle_refl _))
          as (Hv & Hf & Hle).
        now apply RemFacts.rem_reduces. }
      apply Forall2_cons; [|apply Forall2_nil].
      change (F64.div JSMath.PI (F64.of_Z 3))
        with (S754_finite false 4716158501352293 (-52)).
      destruct (RemFacts.add_offset (theta (coordinates primaryBody))
                  4716158501352293 (-52) Ht eq_refl) as (Hv & Hf & Hle).
      { unfold Rounding.F2R. Rounding.bpow_num RangeFacts.bpow_neg_pos. lra. }
      now apply RemFacts.rem_reduces.
    + change (F64.div JSMath.PI (F64.of_Z 3))
        with (S754_finite false 4716158501352293 (-52)).
      intros Hge.
      destruct (RemFacts.sub_offset (theta (coordinates primaryBody))
                  4716158501352293 (-52) Ht eq_refl Hge) as (Hv & Hf & Hle).
      now apply RemFacts.rem_reduces.
  - intros Hr Ht. rewrite Hr, Ht. split; vm_compute; reflexivity.
Qed.

Lemma C8_lagrange_points_witness :
  in_turn (theta (coordinates lagrange_primary)) = true
  /\ in_turn (phi (coordinates lagrange_primary)) = true
  /\ Forall (reduced_angle (phi (coordinates lagrange_primary)))
       (map phi (findLagrangePoints (M := RefMath.host) lagrange_primary))
  /\ map r (findLagrangePoints (M := RefMath.host) lagrange_primary)
     = [S754_finite false 6485183463413515 (-54);
        S754_finite false 7926335344172074 (-54);
        F64.lit 4 10; F64.lit 4 10; F64.lit 4 10].
Proof.
  split; [reflexivity|]. split; [reflexivity|].
  pose proof (C8_lagrange_points RefMath.host lagrange_primary) as H.
  cbv zeta in H. destruct H as (_ & _ & _ & Hang & Hvec).
  split.
  - exact (proj1 (Hang eq_refl eq_refl)).
  - exact (proj1 (Hvec eq_refl eq_refl)).
Defined.

(** Claim C8 as stated fails: for the primary with [r = 0.4] the first
    two radii are not the doubles 0.36 and 0.44. *)
Lemma C8_radii_are_not_036_and_044 :
  let points := findLagrangePoints (M := RefMath.host) lagrange_primary in
  F64.eqb (r (nth 0 points origin)) (F64.lit 36 100) = false
  /\ F64.eqb (r (nth 1 points origin)) (F64.lit 44 100) = false.
Proof. split; vm_compute; reflexivity. Qed.

(** The trailing point of that primary is where the reduction is
    missed: [%] keeps the sign of the dividend, so the theta of the
    fifth point stays the negative double [1.0 - PI/3], outside
    [[0, 2*PI)]. *)
Lemma lagrange_trailing_theta_negative :
  let points := findLagrangePoints (M := RefMath.host) lagrange_primary in
  theta (nth 4 points origin)
  = F64.sub (F64.of_Z 1) (F64.div JSMath.PI (F64.of_Z 3))
  /\ F64.ltb (theta (nth 4 points origin)) F64.pzero = true.
Proof. split; vm_compute; reflexivity. Qed.

(** Claim C9, as amended.  Every body the factory returns satisfies
    [luminosity = 1 / (1 + mean harmonics)], stores the input
    eigenvalues as its harmonics, and has a melody as long as its
    harmonics.  The luminosity lies in (0, 1] whenever that mean is a
    finite number that is not negative. *)
Theorem C9_factory_luminosity (M : MathImpl)
  (contentId proteinHash : JS.jsstring)
  (eigenvalues : list F64.float) (body : CelestialBody) :
  createCelestialBody contentId proteinHash eigenvalues = Normal body ->
  luminosity body
  = F64.div (F64.of_Z 1) (F64.add (F64.of_Z 1) (mean (harmonics body)))
  /\ harmonics body = eigenvalues
  /\ length (melody body) = length (harmonics body)
  /\ (F64.valid (mean eigenvalues) = true ->
      F64.is_finite (mean eigenvalues) = true ->
      F64.leb F64.pzero (mean eigenvalues) = true ->
      F64.ltb F64.pzero (luminosity body) = true
      /\ F64.leb (luminosity body) (F64.of_Z 1) = true).
Proof.
  intros Hb. rewrite Factory.createCelestialBody_eq in Hb. injection Hb as <-.
  cbn [luminosity harmonics melody].
  split; [reflexivity|]. split; [reflexivity|].
  split; [apply Harmonics.orbitalHarmonics_length|].
  apply F64Facts.luminosity_range.
Qed.

Lemma C9_factory_luminosity_witness :
  createCelestialBody (M := RefMath.host) testCID testCID sample_eigenvalues
  = Normal sample_body
  /\ luminosity sample_body
     = F64.div (F64.of_Z 1)
         (F64.add (F64.of_Z 1) (mean (harmonics sample_body))).
Proof.
  split; [reflexivity|].
  exact (proj1 (C9_factory_luminosity RefMath.host testCID testCID
                  sample_eigenvalues sample_body eq_refl)).
Defined.

(** Claim C9 as stated fails: the single eigenvalue -0.5 gives
    luminosity 2, outside (0, 1]. *)
Lemma C9_negative_mean_gives_luminosity_2 :
  exists body,
    createCelestialBody (M := RefMath.host) testCID testCID
      [F64.opp (F64.lit 5 10)] = Normal body
    /\ luminosity body = F64.of_Z 2
    /\ F64.leb (luminosity body) (F64.of_Z 1) = false.
Proof. eexists. repeat split. Qed.

(** Claim C10.  [findLagrangePoints] does not clamp the radii: the
    outer point has radius [r * 1.1], so for every primary whose [r]
    exceeds 10/11 its radius is at least 1. *)
Theorem C10_outer_point_radius (M : MathImpl) (primaryBody : CelestialBody) :
  F64.valid (r (coordinates primaryBody)) = true ->
  F64.ltb (F64.lit 10 11) (r (coordinates primaryBody)) = true ->
  let outer := nth 1 (findLagrangePoints primaryBody) origin in
  r outer = F64.mul (r (coordinates primaryBody)) (F64.lit 11 10)
  /\ F64.leb (F64.of_Z 1) (r outer) = true.
Proof.
  intros Hv Hlt. cbv zeta. rewrite Lagrange.findLagrangePoints_eq. cbv zeta.
  cbn [nth r sphericalToOrbital]. split; [reflexivity|].
  now apply F64Facts.mul_11_10_ge_1.
Qed.

Lemma C10_outer_point_radius_witness :
  F64.valid (r (coordinates outer_primary)) = true
  /\ F64.ltb (F64.lit 10 11) (r (coordinates outer_primary)) = true
  /\ F64.leb (F64.of_Z 1)
       (r (nth 1 (findLagrangePoints (M := RefMath.host) outer_primary) origin))
     = true.
Proof.
  split; [reflexivity|]. split; [reflexivity|].
  exact (proj2 (C10_outer_point_radius RefMath.host outer_primary
                  eq_refl eq_refl)).
Defined.

(** A hash the factory accepts reaches that range: the first word 999
    gives [r = 0.999], and the outer point of that body has radius
    above 1. *)
Lemma outer_point_beyond_unit_from_hash :
  exists body,
    createCelestialBody (M := RefMath.host) far_hash far_hash
      sample_eigenvalues = Normal body
    /\ r (coordinates body) = F64.lit 999 1000
    /\ F64.ltb (F64.of_Z 1)
         (r (nth 1 (findLagrangePoints (M := RefMath.host) body) origin))
       = true.
Proof. eexists. repeat split. Qed.
(** * Further properties of the code *)

(** Property X1.  For every hash, the colour [orbitalColor] gives the
    coordinates [hashToOrbit] computes is fixed by the remainder [k] of
    the first word by 1000: hot blue below 200, white below 400,
    yellow below 600, orange below 800 and red from 800 on.  The
    radius is the double [k / 1000]; compared with the doubles 0.2,
    0.4, 0.6 and 0.8 it falls on the same side as [k] does of 200,
    400, 600 and 800. *)
Theorem color_band_of_hash (M : MathImpl) (hash : JS.jsstring) :
  orbitalColor (hashToOrbit hash)
  = band_color (JS.getUint32_le (hashToBuffer hash) 0 mod 1000).
Proof.
  unfold orbitalColor. cbv zeta. rewrite OrbitalMapper.hashToOrbit_r.
  set (k := JS.getUint32_le (hashToBuffer hash) 0 mod 1000).
  pose proof (LatticeFacts.band_edges k (Z.mod_pos_bound _ 1000 eq_refl)) as H.
  unfold band_edges_agree in H.
  repeat (apply andb_prop in H; destruct H as (H & ?)).
  repeat match goal with
         | E : Bool.eqb _ _ = true |- _ => apply Bool.eqb_prop in E; rewrite E
         end.
  unfold band_color, hot_blue, white, yellow, orange, red_dwarf.
  now destruct (k <? 200), (k <? 400), (k <? 600), (k <? 800).
Qed.

(** Property X2.  The oscillator [getOscillatorType] picks for a body
    and the colour [orbitalColor] gives its coordinates follow the
    same bands of the radius: sine with hot blue, triangle with white,
    sawtooth with yellow, and square with orange or red (a NaN radius
    gives square and red).  The five colours are pairwise distinct. *)
Theorem oscillator_follows_color (body : CelestialBody) :
  match MusicOfSpheres.getOscillatorType body with
  | MusicOfSpheres.sine => orbitalColor (coordinates body) = hot_blue
  | MusicOfSpheres.triangle => orbitalColor (coordinates body) = white
  | MusicOfSpheres.sawtooth => orbitalColor (coordinates body) = yellow
  | MusicOfSpheres.square =>
      orbitalColor (coordinates body) = orange
      \/ orbitalColor (coordinates body) = red_dwarf
  end
  /\ NoDup [hot_blue; white; yellow; orange; red_dwarf]
  /\ (F64.is_nan (r (coordinates body)) = true ->
      MusicOfSpheres.getOscillatorType body = MusicOfSpheres.square
      /\ orbitalColor (coordinates body) = red_dwarf).
Proof.
  unfold MusicOfSpheres.getOscillatorType, orbitalColor. cbv zeta.
  split; [|split].
  - destruct (F64.ltb (r (coordinates body)) (F64.lit 2 10)); [reflexivity|].
    destruct (F64.ltb (r (coordinates body)) (F64.lit 4 10)); [reflexivity|].
    destruct (F64.ltb (r (coordinates body)) (F64.lit 6 10)); [reflexivity|].
    destruct (F64.ltb (r (coordinates body)) (F64.lit 8 10)); [now left|now right].
  - repeat constructor; cbn [In]; intros H;
      repeat (destruct H as [H|H]; [vm_compute in H; discriminate H|]);
      exact H.
  - intros Hn. destruct (r (coordinates body)); try discriminate.
    split; reflexivity.
Qed.

(** Property X3.  Two bodies built from the same protein hash, under
    any content ids and with any eigenvalues, sit at the same
    position: when that position is finite their gravitational pull is
    [+Infinity], and [calculateGravitationalField] reports the pair,
    with audio or without and whatever the audio library does. *)
Theorem same_soul_pull_is_infinite (M : MathImpl) (T : ToneImpl)
  (o : CosmicOrrery.Orrery) (cid1 cid2 proteinHash : JS.jsstring)
  (eigenvalues1 eigenvalues2 : list F64.float) (body1 body2 : CelestialBody) :
  createCelestialBody cid1 proteinHash eigenvalues1 = Normal body1 ->
  createCelestialBody cid2 proteinHash eigenvalues2 = Normal body2 ->
  finite_position (hashToOrbit proteinHash) = true ->
  gravitationalPull body1 body2 = F64.pinf
  /\ fst (CosmicOrreryOps.calculateGravitationalField o [body1; body2])
     = [(0%nat, 1%nat, F64.pinf)].
Proof.
  intros H1 H2 Hfin.
  pose proof (LatticeFacts.pull_same_coordinates body1 body2
                (hashToOrbit proteinHash)
                (LatticeFacts.factory_coordinates _ _ _ _ H1)
                (LatticeFacts.factory_coordinates _ _ _ _ H2) Hfin) as Hp.
  split; [exact Hp|].
  rewrite FieldFacts.field_of_two, Hp. reflexivity.
Qed.

Lemma same_soul_pull_is_infinite_witness :
  finite_position (hashToOrbit (M := RefMath.host) testCID) = true
  /\ forall body1 body2,
       createCelestialBody (M := RefMath.host) testCID testCID
         sample_eigenvalues = Normal body1 ->
       createCelestialBody (M := RefMath.host) zero_hash testCID
         vector2_eigenvalues = Normal body2 ->
       gravitationalPull body1 body2 = F64.pinf.
Proof.
  split; [reflexivity|]. intros body1 body2 H1 H2.
  exact (proj1 (same_soul_pull_is_infinite RefMath.host RefTone.strict
                  (CosmicOrrery.create true) testCID zero_hash
                  testCID sample_eigenvalues vector2_eigenvalues body1 body2
                  H1 H2 eq_refl)).
Defined.

(** Property X4.  When a Cartesian coordinate of either body is NaN,
    [gravitationalPull] returns NaN (the distance is NaN, which is not
    [=== 0]), and [calculateGravitationalField] does not report the
    pair. *)
Theorem nan_position_pull_is_nan (T : ToneImpl) (o : CosmicOrrery.Orrery)
  (body1 body2 : CelestialBody) :
  has_nan_position (coordinates body1)
  || has_nan_position (coordinates body2) = true ->
  gravitationalPull body1 body2 = F64.nan
  /\ fst (CosmicOrreryOps.calculateGravitationalField o [body1; body2]) = [].
Proof.
  intros H.
  assert (Hp : gravitationalPull body1 body2 = F64.nan).
  { unfold gravitationalPull. cbv zeta.
    rewrite (LatticeFacts.distanceTo_nan (position body1) (position body2) H).
    cbn [F64.eqb SFeqb SFcompare F64.nan].
    rewrite NaNFacts.mul_nan_l. apply NaNFacts.div_nan_r. }
  split; [exact Hp|].
  rewrite FieldFacts.field_of_two, Hp. reflexivity.
Qed.

Lemma nan_position_pull_is_nan_witness :
  has_nan_position (coordinates adrift_body)
  || has_nan_position (coordinates lagrange_primary) = true
  /\ gravitationalPull adrift_body lagrange_primary = F64.nan.
Proof.
  split; [reflexivity|].
  exact (proj1 (nan_position_pull_is_nan RefTone.strict
                  (CosmicOrrery.create true) adrift_body lagrange_primary
                  eq_refl)).
Defined.

(** Property X5.  For a body the factory built, the angles are
    already in [0, 2*PI), so the remainder [sphericalToOrbital] takes
    leaves them as they are: all five Lagrange points keep the body's
    phi, and the inner and outer points keep its theta.  The three
    co-orbital points (opposite, leading, trailing) have the body's
    radius, period and velocity. *)
Theorem lagrange_points_of_built_body (M : MathImpl)
  (contentId proteinHash : JS.jsstring) (eigenvalues : list F64.float)
  (body : CelestialBody) :
  createCelestialBody contentId proteinHash eigenvalues = Normal body ->
  let c := coordinates body in
  let points := findLagrangePoints body in
  map phi points = [phi c; phi c; phi c; phi c; phi c]
  /\ map theta (firstn 2 points) = [theta c; theta c]
  /\ map r (skipn 2 points) = [r c; r c; r c]
  /\ map period (skipn 2 points) = [period c; period c; period c]
  /\ map velocity (skipn 2 points) = [velocity c; velocity c; velocity c].
Proof.
  intros Hb.
  pose proof (ValidFacts.angle_rem
                (JS.getUint32_le (hashToBuffer proteinHash) 8 mod 10000)
                (Z.mod_pos_bound _ 10000 eq_refl)) as Rphi.
  pose proof (ValidFacts.angle_rem
                (JS.getUint32_le (hashToBuffer proteinHash) 4 mod 10000)
                (Z.mod_pos_bound _ 10000 eq_refl)) as Rtheta.
  rewrite <- OrbitalMapper.hashToOrbit_phi in Rphi.
  rewrite <- OrbitalMapper.hashToOrbit_theta in Rtheta.
  rewrite (LatticeFacts.factory_coordinates _ _ _ _ Hb).
  exact (LatticeFacts.lagrange_in_range body (hashToOrbit proteinHash)
           (LatticeFacts.factory_coordinates _ _ _ _ Hb) Rphi Rtheta
           (OrbitalMapper.hashToOrbit_period proteinHash)
           (OrbitalMapper.hashToOrbit_velocity proteinHash)).
Qed.

Lemma lagrange_points_of_built_body_witness :
  createCelestialBody (M := RefMath.host) testCID testCID sample_eigenvalues
  = Normal sample_body
  /\ map phi (findLagrangePoints (M := RefMath.host) sample_body)
     = [phi (coordinates sample_body); phi (coordinates sample_body);
        phi (coordinates sample_body); phi (coordinates sample_body);
        phi (coordinates sample_body)].
Proof.
  split; [reflexivity|].
  exact (proj1 (lagrange_points_of_built_body RefMath.host testCID testCID
                  sample_eigenvalues sample_body eq_refl)).
Defined.

(** Property X6.  [hashToOrbit] reads the first 16 bytes of the
    buffer only: two hashes whose first 32 characters after the
    stripped prefix agree map to the same coordinates, whatever
    follows. *)
Theorem orbit_from_first_32_characters (M : MathImpl) (h1 h2 : JS.jsstring) :
  firstn 32 (strip_prefix h1) = firstn 32 (strip_prefix h2) ->
  hashToOrbit h1 = hashToOrbit h2.
Proof.
  intros H.
  apply LatticeFacts.hashToOrbit_words;
    apply LatticeFacts.words_agree; (assumption || lia).
Qed.

Lemma orbit_from_first_32_characters_witness :
  firstn 32 (strip_prefix zero_hash) = firstn 32 (strip_prefix zero_then_f_hash)
  /\ zero_hash <> zero_then_f_hash
  /\ hashToOrbit (M := RefMath.host) zero_hash
     = hashToOrbit (M := RefMath.host) zero_then_f_hash.
Proof.
  split; [reflexivity|]. split; [discriminate|].
  exact (orbit_from_first_32_characters RefMath.host zero_hash
           zero_then_f_hash eq_refl).
Defined.

(** Property X7.  [orbitalHarmonics] computes each frequency from the
    eigenvalue at the same index alone: the first [n] frequencies of a
    list are the frequencies of its first [n] eigenvalues (so the birth
    chord, [melody.slice(0, 4)], depends on the first four eigenvalues
    only), and a NaN eigenvalue gives a NaN frequency at its index at
    every coordinates. *)
Theorem harmonics_position_by_position (M : MathImpl)
  (coordinates : OrbitalCoordinates) (eigenvalues : list F64.float) :
  (forall n, firstn n (orbitalHarmonics coordinates eigenvalues)
             = orbitalHarmonics coordinates (firstn n eigenvalues))
  /\ (forall i, nth_error eigenvalues i = Some F64.nan ->
                nth_error (orbitalHarmonics coordinates eigenvalues) i
                = Some F64.nan)
  /\ (forall contentId proteinHash body,
        createCelestialBody contentId proteinHash eigenvalues = Normal body ->
        MusicOfSpheres.birth_frequencies body
        = orbitalHarmonics (hashToOrbit proteinHash) (firstn 4 eigenvalues)).
Proof.
  assert (Hfirst : forall c n,
             firstn n (orbitalHarmonics c eigenvalues)
             = orbitalHarmonics c (firstn n eigenvalues)).
  { intros c n. rewrite <- (firstn_skipn n eigenvalues) at 1.
    unfold orbitalHarmonics, Array_map. cbv zeta.
    rewrite LatticeFacts.Array_map_from_app.
    rewrite firstn_app.
    rewrite Harmonics.Array_map_from_length.
    rewrite firstn_all2 by (rewrite Harmonics.Array_map_from_length, length_firstn; lia).
    replace (n - length (firstn n eigenvalues))%nat with
      (n - Nat.min n (length eigenvalues))%nat by now rewrite length_firstn.
    destruct (Nat.le_ge_cases n (length eigenvalues)) as [Hle|Hge].
    - replace (n - Nat.min n (length eigenvalues))%nat with 0%nat by lia.
      cbn [firstn]. now rewrite app_nil_r.
    - rewrite skipn_all2 by lia. cbn [Array_map_from].
      rewrite firstn_nil. now rewrite app_nil_r. }
  split; [apply Hfirst|]. split.
  - intros i Hi. unfold orbitalHarmonics, Array_map. cbv zeta.
    rewrite (LatticeFacts.Array_map_from_nth _ _ _ _ _ Hi). cbv beta.
    now rewrite NaNFacts.mul_nan_r, !NaNFacts.mul_nan_l.
  - intros contentId proteinHash body Hb.
    rewrite Factory.createCelestialBody_eq in Hb. injection Hb as <-.
    unfold MusicOfSpheres.birth_frequencies. cbn [melody]. apply Hfirst.
Qed.

(** Property X8.  [addCode] builds the body with the factory for the
    given cid, or for the protein hash when no cid is given or the cid
    is the empty string, and hands it to the visualization, which
    holds it from then on.  Without audio the call returns the body
    and the orrery's map holds it.  With audio the call returns
    exactly when the audio library accepts the body's voice and its
    birth chord; a throw of the library comes before the orrery's map
    is written, which is then as it was.  No other key of either map
    is touched. *)
Theorem addCode_files_body (M : MathImpl) (T : ToneImpl)
  (o : CosmicOrrery.Orrery) (proteinHash : JS.jsstring)
  (eigenvalues : list F64.float) (cid : option JS.jsstring) :
  let contentId := contentId_of cid proteinHash in
  let result := CosmicOrrery.addCode proteinHash eigenvalues cid o in
  exists body,
    createCelestialBody contentId proteinHash eigenvalues = Normal body
    /\ JSMap.get (CosmicOrrery.visualization (fst result)) contentId
       = Some body
    /\ (snd result = Normal body
        /\ JSMap.get (CosmicOrrery.bodies (fst result)) contentId = Some body
        \/ (exists e, snd result = Throw e)
           /\ CosmicOrrery.bodies (fst result) = CosmicOrrery.bodies o)
    /\ (CosmicOrrery.music o = None ->
        snd result = Normal body
        /\ CosmicOrrery.music (fst result) = None)
    /\ (forall m,
          CosmicOrrery.music o = Some m ->
          (snd result = Normal body
           <-> snd (CosmicOrrery.music_addCelestialVoice body m) = Normal tt
               /\ birth_chord (MusicOfSpheres.birth_frequencies body)
                  = Normal tt))
    /\ (forall k, k <> contentId ->
          JSMap.get (CosmicOrrery.bodies (fst result)) k
          = JSMap.get (CosmicOrrery.bodies o) k
          /\ JSMap.get (CosmicOrrery.visualization (fst result)) k
             = JSMap.get (CosmicOrrery.visualization o) k)
    /\ contentId_of None proteinHash = proteinHash
    /\ contentId_of (Some []) proteinHash = proteinHash.
Proof.
  cbv zeta.
  assert (Hb : exists body,
             createCelestialBody (contentId_of cid proteinHash) proteinHash
               eigenvalues = Normal body)
    by (eexists; apply Factory.createCelestialBody_eq).
  destruct Hb as (body & Hb). exists body. split; [exact Hb|].
  rewrite (OrreryState.addCode_run _ _ _ _ _ Hb). cbv zeta.
  destruct (CosmicOrrery.music o) as [m|].
  - assert (H5 : forall m0, Some m = Some m0 ->
                   CosmicOrrery.music_addCelestialVoice body m0
                   = CosmicOrrery.music_addCelestialVoice body m)
      by (intros m0 E; injection E as <-; reflexivity).
    destruct (CosmicOrrery.music_addCelestialVoice body m) as [m' [[]|e]].
    + destruct (birth_chord (MusicOfSpheres.birth_frequencies body))
        as [[]|e];
        cbn [fst snd CosmicOrrery.bodies CosmicOrrery.visualization
             CosmicOrrery.music].
      * split; [apply OrreryFacts.get_set_same|].
        split; [left; split; [reflexivity|apply OrreryFacts.get_set_same]|].
        split; [discriminate|].
        split.
        { intros m0 Hm0. rewrite (H5 m0 Hm0). cbn [snd]. tauto. }
        split; [|split; reflexivity].
        intros k Hk. split; apply OrreryFacts.get_set_other; congruence.
      * split; [apply OrreryFacts.get_set_same|].
        split; [right; split; [now exists e|reflexivity]|].
        split; [discriminate|].
        split.
        { intros m0 Hm0. split; [discriminate|]. intros (_ & H).
          discriminate H. }
        split; [|split; reflexivity].
        intros k Hk.
        split; [reflexivity|apply OrreryFacts.get_set_other; congruence].
    + cbn [fst snd CosmicOrrery.bodies CosmicOrrery.visualization
           CosmicOrrery.music].
      split; [apply OrreryFacts.get_set_same|].
      split; [right; split; [now exists e|reflexivity]|].
      split; [discriminate|].
      split.
      { intros m0 Hm0. rewrite (H5 m0 Hm0). cbn [snd].
        split; [discriminate|]. intros (H & _). discriminate H. }
      split; [|split; reflexivity].
      intros k Hk.
      split; [reflexivity|apply OrreryFacts.get_set_other; congruence].
  - cbn [fst snd CosmicOrrery.bodies CosmicOrrery.visualization
         CosmicOrrery.music].
    split; [apply OrreryFacts.get_set_same|].
    split; [left; split; [reflexivity|apply OrreryFacts.get_set_same]|].
    split; [intros _; split; reflexivity|].
    split; [discriminate|].
    split; [|split; reflexivity].
    intros k Hk. split; apply OrreryFacts.get_set_other; congruence.
Qed.

(** Property X9.  In every state an orrery reaches from creation by
    [addCode], [importState], [clear] and [dispose], whether the calls
    return or throw and whatever the audio library does, the orrery's
    map
    holds no key twice, and every entry is stored under its own cid and
    is exactly what the factory builds from that cid and the soul and
    harmonics the entry carries; [exportState] writes one entry per
    body counted by [getStatistics]. *)
Theorem reachable_orrery_well_formed (M : MathImpl) (T : ToneImpl)
  (o : CosmicOrrery.Orrery) :
  reachable o ->
  NoDup (map fst (CosmicOrrery.bodies o))
  /\ Forall (fun kv =>
               cid (snd kv) = fst kv
               /\ createCelestialBody (fst kv) (soul (snd kv))
                    (harmonics (snd kv))
                  = Normal (snd kv))
       (CosmicOrrery.bodies o)
  /\ length (CosmicOrrery.exportState o)
     = CosmicOrreryOps.totalBodies (CosmicOrreryOps.getStatistics o)
  /\ map CosmicOrrery.e_cid (CosmicOrrery.exportState o)
     = map fst (CosmicOrrery.bodies o).
Proof.
  intros Hr. destruct (OrreryInvariants.reachable_wf o Hr) as (Hnd & Hall).
  split; [exact Hnd|]. split.
  - apply Forall_forall. intros kv Hin.
    rewrite Forall_forall in Hall. specialize (Hall kv Hin).
    split; [now apply OrreryInvariants.factory_built_cid|exact Hall].
  - unfold CosmicOrrery.exportState, CosmicOrreryOps.getStatistics.
    cbn [CosmicOrreryOps.totalBodies]. unfold JSMapMore.size.
    split; [apply length_map|].
    rewrite map_map. apply map_ext. now intros [k b].
Qed.

Lemma reachable_orrery_well_formed_witness :
  reachable (M := RefMath.host) (T := RefTone.strict) one_body_orrery
  /\ NoDup (map fst (CosmicOrrery.bodies one_body_orrery))
  /\ length (CosmicOrrery.bodies one_body_orrery) = 1%nat.
Proof.
  assert (H : reachable (M := RefMath.host) (T := RefTone.strict)
                one_body_orrery).
  { exact (reach_addCode (M := RefMath.host) (T := RefTone.strict)
             (CosmicOrrery.create true) testCID sample_eigenvalues None
             (reach_create true)). }
  split; [exact H|]. split; [|reflexivity].
  exact (proj1 (reachable_orrery_well_formed RefMath.host RefTone.strict
                  one_body_orrery H)).
Defined.

(** Property X10.  In an orrery without audio [importState] leaves
    the orrery's own map as it was, whatever the entries hold, so a
    following [exportState] writes what it would have written before
    the import.  For entries whose cid is a string (and whose
    harmonics, when an array, holds numbers and [null]s), the call
    returns exactly when every entry has a soul
    that is a string and harmonics that are an array, and every entry
    then has a body in the visualization.  Otherwise it throws a
    [TypeError] at the first entry that lacks one of the two: the
    entries before it have their bodies in the visualization, and the
    entries after it are not read. *)
Theorem importState_without_audio (M : MathImpl) (T : ToneImpl)
  (o : CosmicOrrery.Orrery) (state : list CosmicOrrery.Entry) :
  CosmicOrrery.music o = None ->
  let result := CosmicOrrery.importState state o in
  CosmicOrrery.bodies (fst result) = CosmicOrrery.bodies o
  /\ CosmicOrrery.exportState (fst result) = CosmicOrrery.exportState o
  /\ (snd result = Normal tt <-> forallb importable state = true)
  /\ (snd result = Normal tt \/ snd result = Throw TypeError)
  /\ (snd result = Normal tt ->
      forall bodyData, In bodyData state ->
        JSMapMore.has (CosmicOrrery.visualization (fst result))
          (CosmicOrrery.e_cid bodyData) = true)
  /\ (forall good bad rest,
        state = good ++ bad :: rest ->
        forallb importable good = true -> importable bad = false ->
        result = (fst (CosmicOrrery.importState good o), Throw TypeError)
        /\ forall bodyData, In bodyData good ->
             JSMapMore.has (CosmicOrrery.visualization (fst result))
               (CosmicOrrery.e_cid bodyData) = true).
Proof.
  intros Hm result.
  destruct (ImportFacts.importState_silent state o Hm)
    as (Hb & _ & _ & Hi). fold result in Hb, Hi.
  split; [exact Hb|].
  split; [unfold CosmicOrrery.exportState; now rewrite Hb|].
  split.
  { destruct (forallb importable state).
    - destruct Hi as (Hn & _). split; auto.
    - rewrite Hi. split; discriminate. }
  split.
  { destruct (forallb importable state); [left; apply Hi|right; exact Hi]. }
  split.
  { intros Hn. destruct (forallb importable state).
    - apply Hi.
    - rewrite Hi in Hn. discriminate Hn. }
  intros good bad rest -> Hg Hbad.
  destruct (ImportFacts.importState_silent good o Hm)
    as (_ & Hm1 & _ & Hi1). rewrite Hg in Hi1. destruct Hi1 as (Hn1 & Hv1).
  assert (E : result
              = (fst (CosmicOrrery.importState good o), Throw TypeError)).
  { unfold result. rewrite ImportFacts.importState_app.
    destruct (CosmicOrrery.importState good o) as [o1 c]. cbn [fst snd] in *.
    subst c. cbn [CosmicOrrery.importState]. unfold CosmicOrrery.and_then.
    destruct (ImportFacts.import_entry_silent bad o1 Hm1)
      as (_ & _ & _ & Hbd). rewrite Hbad in Hbd. now rewrite Hbd. }
  split; [exact E|]. rewrite E. exact Hv1.
Qed.

Lemma importState_without_audio_witness :
  CosmicOrrery.music (CosmicOrrery.create false) = None
  /\ snd (CosmicOrrery.importState (M := RefMath.host) (T := RefTone.strict)
            (CosmicOrrery.exportState one_body_orrery)
            (CosmicOrrery.create false))
     = Normal tt
  /\ CosmicOrrery.bodies
       (fst (CosmicOrrery.importState (M := RefMath.host)
               (T := RefTone.strict)
               (CosmicOrrery.exportState one_body_orrery)
               (CosmicOrrery.create false)))
     = [].
Proof.
  split; [reflexivity|].
  pose proof (importState_without_audio RefMath.host RefTone.strict
                (CosmicOrrery.create false)
                (CosmicOrrery.exportState one_body_orrery) eq_refl) as H.
  cbv zeta in H. destruct H as (Hb & _ & Hn & _).
  split; [apply Hn; reflexivity|exact Hb].
Defined.

(** Property X11.  Exporting a well-formed orrery whose harmonics are
    all finite numbers other than [-0], and importing the entries into
    a new orrery with audio, returns exactly when the audio library
    accepts the voice of every body; the import has then reproduced
    the map entry for entry, in the same order, in the orrery's map and
    in the visualization, and exporting again gives the same
    entries. *)
Theorem export_import_state_round_trip (M : MathImpl) (T : ToneImpl)
  (o : CosmicOrrery.Orrery) :
  orrery_wf o ->
  Forall (fun kv => forallb json_exact (harmonics (snd kv)) = true)
    (CosmicOrrery.bodies o) ->
  let result :=
    CosmicOrrery.importState (CosmicOrrery.exportState o)
      (CosmicOrrery.create true) in
  (snd result = Normal tt
   <-> Forall
         (fun kv =>
            PolySynth_voice (MusicOfSpheres.getOscillatorType (snd kv))
              (MusicOfSpheres.voice_volume (snd kv)) = Normal tt)
         (CosmicOrrery.bodies o))
  /\ (snd result = Normal tt ->
      CosmicOrrery.bodies (fst result) = CosmicOrrery.bodies o
      /\ CosmicOrrery.visualization (fst result) = CosmicOrrery.bodies o
      /\ CosmicOrrery.exportState (fst result) = CosmicOrrery.exportState o).
Proof.
  intros (Hnd & Hall) Hex result.
  assert (Hacc : snd result = Normal tt ->
                 Forall
                   (fun kv =>
                      PolySynth_voice
                        (MusicOfSpheres.getOscillatorType (snd kv))
                        (MusicOfSpheres.voice_volume (snd kv)) = Normal tt)
                   (CosmicOrrery.bodies o)).
  { apply (OrreryInvariants.importState_returned (CosmicOrrery.bodies o)
             (CosmicOrrery.create true) MusicOfSpheres.create
             eq_refl eq_refl Hall Hex). }
  assert (Happ : Forall
                   (fun kv =>
                      PolySynth_voice
                        (MusicOfSpheres.getOscillatorType (snd kv))
                        (MusicOfSpheres.voice_volume (snd kv)) = Normal tt)
                   (CosmicOrrery.bodies o) ->
                 snd result = Normal tt
                 /\ CosmicOrrery.bodies (fst result) = CosmicOrrery.bodies o
                 /\ CosmicOrrery.visualization (fst result)
                    = CosmicOrrery.bodies o).
  { intros Ha.
    apply (OrreryInvariants.importState_appends (CosmicOrrery.bodies o)
             (CosmicOrrery.create true) MusicOfSpheres.create
             eq_refl eq_refl Hall Hex Ha Hnd).
    intros k _. cbn. tauto. }
  split; [split; [exact Hacc|intros Ha; apply (Happ Ha)]|].
  intros Hn. destruct (Happ (Hacc Hn)) as (_ & Hb & Hv).
  split; [exact Hb|]. split; [exact Hv|].
  unfold CosmicOrrery.exportState. now rewrite Hb.
Qed.

Lemma export_import_state_round_trip_witness :
  orrery_wf (M := RefMath.host) one_body_orrery
  /\ Forall (fun kv => forallb json_exact (harmonics (snd kv)) = true)
       (CosmicOrrery.bodies one_body_orrery)
  /\ CosmicOrrery.bodies
       (fst (CosmicOrrery.importState (M := RefMath.host)
               (T := RefTone.strict)
               (CosmicOrrery.exportState one_body_orrery)
               (CosmicOrrery.create true)))
     = CosmicOrrery.bodies one_body_orrery.
Proof.
  assert (H : orrery_wf (M := RefMath.host) one_body_orrery).
  { split.
    - repeat constructor. intros [].
    - repeat constructor. }
  assert (Hx : Forall
                 (fun kv => forallb json_exact (harmonics (snd kv)) = true)
                 (CosmicOrrery.bodies one_body_orrery)).
  { repeat constructor. }
  split; [exact H|]. split; [exact Hx|].
  pose proof (export_import_state_round_trip RefMath.host RefTone.strict
                one_body_orrery H Hx) as R.
  cbv zeta in R. destruct R as (Hiff & Hret).
  apply Hret. apply Hiff. repeat constructor.
Defined.

(** Property X12.  A single body whose luminosity is NaN (the factory
    returns one for an empty eigenvalue list) makes [getStatistics]
    report a NaN total mass, and, the test [totalMass > 0] failing, the
    origin as centre of mass, whatever else the orrery holds. *)
Theorem statistics_with_nan_luminosity (o : CosmicOrrery.Orrery)
  (k : JS.jsstring) (body : CelestialBody) :
  In (k, body) (CosmicOrrery.bodies o) ->
  F64.is_nan (luminosity body) = true ->
  CosmicOrreryOps.totalMass (CosmicOrreryOps.getStatistics o) = F64.nan
  /\ CosmicOrreryOps.centerOfMass (CosmicOrreryOps.getStatistics o)
     = {| Vector3.vx := F64.pzero; Vector3.vy := F64.pzero;
          Vector3.vz := F64.pzero |}
  /\ CosmicOrreryOps.totalBodies (CosmicOrreryOps.getStatistics o)
     = length (CosmicOrrery.bodies o).
Proof.
  intros Hin Hn. unfold CosmicOrreryOps.getStatistics. cbv zeta.
  cbn [CosmicOrreryOps.totalMass CosmicOrreryOps.centerOfMass
       CosmicOrreryOps.totalBodies].
  rewrite (OrreryInvariants.fold_accumulate_dark
             (JSMapMore.values (CosmicOrrery.bodies o)) body).
  - repeat split.
  - unfold JSMapMore.values. apply in_map_iff. now exists (k, body).
  - exact Hn.
Qed.

Lemma statistics_with_nan_luminosity_witness :
  exists body,
    In (testCID, body) (CosmicOrrery.bodies dark_orrery)
    /\ harmonics body = []
    /\ F64.is_nan (luminosity body) = true
    /\ CosmicOrreryOps.totalMass (CosmicOrreryOps.getStatistics dark_orrery)
       = F64.nan.
Proof.
  eexists. split; [left; reflexivity|]. split; [reflexivity|].
  split; [reflexivity|].
  refine (proj1 (statistics_with_nan_luminosity dark_orrery testCID _ _ _)).
  - left. reflexivity.
  - reflexivity.
Defined.

(** Property X13.  [calculateGravitationalField] takes the
    strong-gravity branch only for index pairs [i < j] whose pull
    compares above 0.1: never for a body with itself, never for a pair
    in both orders, and never when the pull is NaN.  Unless
    [playResonance] throws it takes the branch for every such pair,
    and without audio nothing throws.  When [playResonance] throws,
    the pair it was called for is the last one logged: the loops end
    there. *)
Theorem gravitational_field_pairs (T : ToneImpl) (o : CosmicOrrery.Orrery)
  (bodies : list CelestialBody) (i j : nat) (pull : F64.float) :
  let field := CosmicOrreryOps.calculateGravitationalField o bodies in
  let strong :=
    (i < j < length bodies)%nat
    /\ exists bi bj,
         nth_error bodies i = Some bi /\ nth_error bodies j = Some bj
         /\ pull = gravitationalPull bi bj
         /\ F64.ltb (F64.lit 1 10) pull = true in
  (In (i, j, pull) (fst field) -> strong)
  /\ (snd field = Normal tt -> strong -> In (i, j, pull) (fst field))
  /\ (CosmicOrrery.music o = None -> snd field = Normal tt)
  /\ (forall e,
        snd field = Throw e ->
        CosmicOrrery.music o <> None
        /\ exists logged i' j' bi bj,
             fst field = logged ++ [(i', j', gravitationalPull bi bj)]
             /\ nth_error bodies i' = Some bi
             /\ nth_error bodies j' = Some bj
             /\ resonance bi bj (gravitationalPull bi bj) = Throw e)
  /\ ~ In (i, i, pull) (fst field)
  /\ ~ In (i, j, F64.nan) (fst field)
  /\ (In (i, j, pull) (fst field) ->
      forall pull', ~ In (j, i, pull') (fst field)).
Proof.
  cbv zeta. unfold CosmicOrreryOps.calculateGravitationalField.
  set (audio := match CosmicOrrery.music o with
                | Some _ => true
                | None => false
                end).
  assert (Hsound : forall i0 j0 p,
            In (i0, j0, p)
              (fst (CosmicOrreryOps.field_loop audio bodies
                      (CosmicOrreryOps.index_pairs (length bodies)))) ->
            (i0 < j0 < length bodies)%nat
            /\ exists bi bj,
                 nth_error bodies i0 = Some bi /\ nth_error bodies j0 = Some bj
                 /\ p = gravitationalPull bi bj
                 /\ F64.ltb (F64.lit 1 10) p = true).
  { intros i0 j0 p H. apply FieldFacts.field_loop_sound in H.
    destruct H as ([i1 j1] & Hin & H).
    apply FieldFacts.index_pairs_spec in Hin.
    apply FieldFacts.field_step_logged in H. cbn [fst snd] in H.
    destruct H as (bi & bj & Ei & Ej & E & El). injection E as -> -> ->.
    split; [exact Hin|]. exists bi, bj. auto. }
  split; [apply Hsound|]. split.
  { intros Hn (Hij & bi & bj & Ei & Ej & -> & El).
    apply (FieldFacts.field_loop_complete audio bodies _ Hn (i, j)).
    - now apply FieldFacts.index_pairs_spec.
    - apply FieldFacts.field_step_logged. cbn [fst snd]. exists bi, bj. auto. }
  split.
  { intros Hm. unfold audio. rewrite Hm. apply FieldFacts.field_loop_silent. }
  split.
  { intros e He. apply FieldFacts.field_loop_thrown in He.
    destruct He as (Ha & He). split; [|exact He].
    unfold audio in Ha. destruct (CosmicOrrery.music o); [discriminate|].
    discriminate Ha. }
  split; [intros H; apply Hsound in H; lia|].
  split.
  { intros H. apply Hsound in H. destruct H as (_ & bi & bj & _ & _ & _ & H).
    rewrite NaNFacts.ltb_nan_r in H. discriminate H. }
  intros H pull' H'. apply Hsound in H, H'. lia.
Qed.


(** Property X15.  [calculateResonance] returns NaN for every body
    and at every time: it starts from [data.kohanist], a property no
    celestial body has, and the [undefined] it reads turns the sum,
    and with it the clamped result, into NaN. *)
Theorem calculateResonance_is_nan (M : MathImpl) (time : F64.float)
  (data : CelestialBody) :
  OrreryVisualization.calculateResonance time data = Normal F64.nan.
Proof. apply ResonanceFacts.calculateResonance_nan. Qed.

(** Property X16.  Animation frames never activate a ritual: after
    any number of frames the map of active rituals and the list of
    dispatched [ritualActivated] events are what they were, the bodies
    are the same bodies under the same keys, and from the first frame
    on every body's stored resonance is NaN and its mesh is scaled by
    NaN. *)
Theorem frames_never_activate_rituals (M : MathImpl) (n : nat)
  (v : OrreryVisualization.t) :
  exists v',
    OrreryVisualization.frames n v = Normal v'
    /\ RitualActivation.activeRituals (OrreryVisualization.ritualActivation v')
       = RitualActivation.activeRituals
           (OrreryVisualization.ritualActivation v)
    /\ RitualActivation.dispatched (OrreryVisualization.ritualActivation v')
       = RitualActivation.dispatched (OrreryVisualization.ritualActivation v)
    /\ map fst (OrreryVisualization.bodies v')
       = map fst (OrreryVisualization.bodies v)
    /\ map (fun kb => OrreryVisualization.data (snd kb))
         (OrreryVisualization.bodies v')
       = map (fun kb => OrreryVisualization.data (snd kb))
           (OrreryVisualization.bodies v)
    /\ ((0 < n)%nat ->
        Forall (fun kb =>
                  OrreryVisualization.resonance (snd kb) = Some F64.nan
                  /\ OrreryVisualization.mesh_scale (snd kb) = nan_scale)
          (OrreryVisualization.bodies v')).
Proof.
  destruct (ResonanceFacts.frames_spec n v)
    as (v' & E & Hk & Hd & Ha & Hp & Hall).
  exists v'. repeat split; assumption.
Qed.

(** Property X17.  [checkActivation] activates, for the given soul,
    every ritual whose threshold the resonance reaches, and removes
    nothing: keys that were active stay in the map (a ritual whose
    resonance dropped is only set fading), so the count of active
    rituals never decreases and grows by at most four per call.
    Checking again with the same soul and resonance changes neither
    the map nor the dispatched events. *)
Theorem checkActivation_activates_and_keeps (st : RitualActivation.t)
  (soulId : JS.jsstring) (resonance : F64.float) (position : Vector3.t) :
  let st' := RitualActivation.checkActivation st soulId resonance position in
  (forall ritual, In ritual RitualActivation.rituals ->
     F64.leb (RitualActivation.resonanceThreshold ritual) resonance = true ->
     JSMapMore.has (RitualActivation.activeRituals st')
       (RitualActivation.ritualKey soulId ritual) = true)
  /\ (forall k, JSMapMore.has (RitualActivation.activeRituals st) k = true ->
                JSMapMore.has (RitualActivation.activeRituals st') k = true)
  /\ (RitualActivation.getActiveRitualCount st
      <= RitualActivation.getActiveRitualCount st'
      <= RitualActivation.getActiveRitualCount st + 4)%nat
  /\ (forall position',
        RitualActivation.activeRituals
          (RitualActivation.checkActivation st' soulId resonance position')
        = RitualActivation.activeRituals st'
        /\ RitualActivation.dispatched
             (RitualActivation.checkActivation st' soulId resonance position')
           = RitualActivation.dispatched st').
Proof.
  cbv zeta. unfold RitualActivation.checkActivation.
  split; [intros ritual; apply RitualFacts.fold_check_activates|].
  split; [intros k; apply RitualFacts.fold_check_keeps|].
  split.
  { exact (RitualFacts.fold_check_size soulId resonance position
             RitualActivation.rituals st). }
  intros position'. apply RitualFacts.fold_check_stable.
  intros ritual Hin Hle. now apply RitualFacts.fold_check_activates.
Qed.

(** Property X18.  The thresholds are nested.  A well-formed
    resonance that reaches 0.98 leaves all four rituals of the soul
    active; one that reaches 0.95 leaves Golden Awakening, Love
    Frequency and Liberation active; one that reaches 0.90, Love
    Frequency and Liberation; one that reaches 0.85, Liberation. *)
Theorem ritual_thresholds_nested (st : RitualActivation.t)
  (soulId : JS.jsstring) (resonance : F64.float) (position : Vector3.t)
  (passed ritual : RitualActivation.RitualTrigger) :
  F64.valid resonance = true ->
  In passed RitualActivation.rituals ->
  In ritual RitualActivation.rituals ->
  F64.leb (RitualActivation.resonanceThreshold ritual)
    (RitualActivation.resonanceThreshold passed) = true ->
  F64.leb (RitualActivation.resonanceThreshold passed) resonance = true ->
  JSMapMore.has
    (RitualActivation.activeRituals
       (RitualActivation.checkActivation st soulId resonance position))
    (RitualActivation.ritualKey soulId ritual) = true.
Proof.
  intros Hv Hp Hr Hle Hpass.
  apply RitualFacts.fold_check_activates; [exact Hr|].
  destruct (RitualFacts.threshold_finite passed Hp) as (mp & ep & Ep & Hbp).
  destruct (RitualFacts.threshold_finite ritual Hr) as (mr & er & Er & Hbr).
  rewrite Ep in Hle, Hpass. rewrite Er in Hle |- *.
  exact (RitualFacts.leb_trans_pos mr er mp ep resonance Hbr Hbp Hv Hle Hpass).
Qed.

Lemma ritual_thresholds_nested_witness :
  F64.valid (F64.of_Z 1) = true
  /\ F64.leb (RitualActivation.resonanceThreshold RitualActivation.liberation)
       (RitualActivation.resonanceThreshold RitualActivation.divine_connection)
     = true
  /\ F64.leb
       (RitualActivation.resonanceThreshold RitualActivation.divine_connection)
       (F64.of_Z 1) = true
  /\ JSMapMore.has
       (RitualActivation.activeRituals
          (RitualActivation.checkActivation RitualActivation.create testCID
             (F64.of_Z 1) (position sample_body)))
       (RitualActivation.ritualKey testCID RitualActivation.liberation) = true.
Proof.
  split; [reflexivity|]. split; [reflexivity|]. split; [reflexivity|].
  apply (ritual_thresholds_nested RitualActivation.create testCID (F64.of_Z 1)
           (position sample_body) RitualActivation.divine_connection
           RitualActivation.liberation eq_refl).
  - cbn. tauto.
  - cbn. tauto.
  - reflexivity.
  - reflexivity.
Defined.

(** Property X19.  [getRitualInfo] lists the four rituals in their
    declared order with their names and thresholds.  A ritual that is
    active for some soul is reported active; with no active ritual all
    four are reported inactive. *)
Theorem getRitualInfo_reports_activated (st : RitualActivation.t) :
  map RitualActivation.info_name (RitualActivation.getRitualInfo st)
  = map RitualActivation.name RitualActivation.rituals
  /\ map RitualActivation.info_threshold (RitualActivation.getRitualInfo st)
     = map RitualActivation.resonanceThreshold RitualActivation.rituals
  /\ (forall soulId ritual,
        In ritual RitualActivation.rituals ->
        JSMapMore.has (RitualActivation.activeRituals st)
          (RitualActivation.ritualKey soulId ritual) = true ->
        In {| RitualActivation.info_name := RitualActivation.name ritual;
              RitualActivation.info_active := true;
              RitualActivation.info_threshold :=
                RitualActivation.resonanceThreshold ritual |}
          (RitualActivation.getRitualInfo st))
  /\ (RitualActivation.activeRituals st = [] ->
      Forall (fun info => RitualActivation.info_active info = false)
        (RitualActivation.getRitualInfo st)).
Proof.
  split; [|split; [|split]].
  - unfold RitualActivation.getRitualInfo. rewrite map_map. reflexivity.
  - unfold RitualActivation.getRitualInfo. rewrite map_map. reflexivity.
  - intros soulId ritual. apply FieldFacts.info_of_active.
  - intros He. unfold RitualActivation.getRitualInfo. rewrite He.
    repeat constructor.
Qed.

(** Property X20.  [updateTrail] is a shift register.  On a position
    array of [3 * (n + 1)] elements (the trail has 90) it leaves the
    new mesh position in the first three places, followed by the old
    contents without their last three elements; each value written
    passes through the array's conversion to a 32-bit float.  The
    length does not change. *)
Theorem updateTrail_shifts (positions : list F64.float)
  (at_position : Vector3.t) (n : nat) :
  length positions = (3 * S n)%nat ->
  OrreryVisualization.updateTrail positions at_position
  = [JSMore.fround (Vector3.vx at_position);
     JSMore.fround (Vector3.vy at_position);
     JSMore.fround (Vector3.vz at_position)]
    ++ map JSMore.fround (firstn (3 * n) positions)
  /\ length (OrreryVisualization.updateTrail positions at_position)
     = length positions.
Proof.
  intros Hlen. split.
  - now apply TrailFacts.updateTrail_shift.
  - apply TrailFacts.updateTrail_length.
Qed.

Lemma updateTrail_shifts_witness :
  length OrreryVisualization.createTrail = (3 * 30)%nat
  /\ OrreryVisualization.updateTrail OrreryVisualization.createTrail
       {| Vector3.vx := F64.of_Z 1; Vector3.vy := F64.of_Z 2;
          Vector3.vz := F64.of_Z 3 |}
     = [JSMore.fround (F64.of_Z 1); JSMore.fround (F64.of_Z 2);
        JSMore.fround (F64.of_Z 3)]
       ++ map JSMore.fround (firstn (3 * 29) OrreryVisualization.createTrail).
Proof.
  split; [reflexivity|].
  exact (proj1 (updateTrail_shifts OrreryVisualization.createTrail
                  {| Vector3.vx := F64.of_Z 1; Vector3.vy := F64.of_Z 2;
                     Vector3.vz := F64.of_Z 3 |} 29 eq_refl)).
Defined.

(** Property X21.  [createSierpinskiFractal] at depth [d] produces
    [3^(d+1)] points (729 at the depth 5 the rituals use) and exactly
    one [sacred] value per point, and every point lies in the plane
    [z = 0]. *)
Theorem sierpinski_point_count (depth : nat) :
  let b := SacredGeometry.createSierpinskiFractal depth in
  length (SacredGeometry.points b) = (3 ^ S depth)%nat
  /\ length (SacredGeometry.sacredValues b)
     = length (SacredGeometry.points b)
  /\ Forall (fun p => Vector3.vz p = F64.pzero) (SacredGeometry.points b).
Proof.
  cbv zeta. unfold SacredGeometry.createSierpinskiFractal. cbv zeta.
  match goal with
  | |- context [SacredGeometry.generateSierpinski ?p1 ?p2 ?p3 _ ?s ?b] =>
      destruct (FieldFacts.generateSierpinski_spec depth p1 p2 p3 s b)
        as (H1 & H2 & H3)
  end.
  rewrite H1, H2. cbn [SacredGeometry.points SacredGeometry.sacredValues length].
  split; [reflexivity|]. split; [reflexivity|].
  apply H3; try reflexivity. constructor.
Qed.

(** Property X22.  The volume [addCelestialVoice] gives a voice,
    [-10 + luminosity * 10], lies between -10 and 0 for every
    luminosity in (0, 1], and the voice is stored under the body's cid
    with the oscillator of the body's band. *)
Theorem voice_volume_range (m : MusicOfSpheres.t) (body : CelestialBody) :
  F64.valid (luminosity body) = true ->
  F64.ltb F64.pzero (luminosity body) = true ->
  F64.leb (luminosity body) (F64.of_Z 1) = true ->
  exists voice,
    JSMap.get (MusicOfSpheres.synths (MusicOfSpheres.addCelestialVoice m body))
      (cid body) = Some voice
    /\ MusicOfSpheres.oscillator voice = MusicOfSpheres.getOscillatorType body
    /\ F64.leb (F64.opp (F64.of_Z 10)) (MusicOfSpheres.volume voice) = true
    /\ F64.leb (MusicOfSpheres.volume voice) F64.pzero = true.
Proof.
  intros Hv Hpos Hle. eexists. split.
  - unfold MusicOfSpheres.addCelestialVoice. cbn [MusicOfSpheres.synths].
    apply OrreryFacts.get_set_same.
  - cbn [MusicOfSpheres.oscillator MusicOfSpheres.volume].
    split; [reflexivity|].
    exact (VolumeFacts.minus_ten_plus (luminosity body) Hv Hpos Hle).
Qed.

Lemma voice_volume_range_witness :
  F64.valid (luminosity sample_body) = true
  /\ F64.ltb F64.pzero (luminosity sample_body) = true
  /\ F64.leb (luminosity sample_body) (F64.of_Z 1) = true
  /\ exists voice,
       JSMap.get
         (MusicOfSpheres.synths
            (MusicOfSpheres.addCelestialVoice MusicOfSpheres.create
               sample_body))
         (cid sample_body) = Some voice
       /\ F64.leb (F64.opp (F64.of_Z 10)) (MusicOfSpheres.volume voice) = true.
Proof.
  split; [reflexivity|]. split; [reflexivity|]. split; [reflexivity|].
  destruct (voice_volume_range MusicOfSpheres.create sample_body
              eq_refl eq_refl eq_refl) as (voice & Hg & _ & Hlo & _).
  exists voice. split; assumption.
Defined.

(** Property X23.  When the resonance of a soul is below the
    threshold of a ritual that is active for it, [checkActivation]
    starts a fade-out for the ritual and leaves it in the map of
    active rituals; the key leaves the map when the fade-out
    completes, and the other keys are kept. *)
Theorem low_resonance_starts_fade (st : RitualActivation.t)
  (soulId : JS.jsstring) (resonance : F64.float) (position : Vector3.t)
  (ritual : RitualActivation.RitualTrigger) :
  In ritual RitualActivation.rituals ->
  NoDup (JSMapMore.keys (RitualActivation.activeRituals st)) ->
  JSMapMore.has (RitualActivation.activeRituals st)
    (RitualActivation.ritualKey soulId ritual) = true ->
  F64.leb (RitualActivation.resonanceThreshold ritual) resonance = false ->
  let key := RitualActivation.ritualKey soulId ritual in
  let st' := RitualActivation.checkActivation st soulId resonance position in
  JSMapMore.has (RitualActivation.activeRituals st') key = true
  /\ In key (RitualActivation.fading st')
  /\ JSMapMore.has
       (RitualActivation.activeRituals
          (RitualActivation.fade_complete st' key)) key = false
  /\ (forall k, k <> key ->
        JSMap.get
          (RitualActivation.activeRituals
             (RitualActivation.fade_complete st' key)) k
        = JSMap.get (RitualActivation.activeRituals st') k).
Proof.
  intros Hin Hnd Hhas Hle. cbv zeta. unfold RitualActivation.checkActivation.
  split; [now apply RitualFacts.fold_check_keeps|].
  split; [now apply FadeFacts.fold_check_fades|].
  cbn [RitualActivation.fade_complete RitualActivation.activeRituals].
  split.
  - apply FadeFacts.delete_removes.
    exact (FadeFacts.fold_check_NoDup soulId resonance position
             RitualActivation.rituals st Hnd).
  - intros k Hk. apply FadeFacts.delete_other. congruence.
Qed.

Lemma low_resonance_starts_fade_witness :
  NoDup (JSMapMore.keys (RitualActivation.activeRituals awakened))
  /\ JSMapMore.has (RitualActivation.activeRituals awakened)
       (RitualActivation.ritualKey testCID RitualActivation.liberation) = true
  /\ F64.leb (RitualActivation.resonanceThreshold RitualActivation.liberation)
       (F64.lit 5 10) = false
  /\ In (RitualActivation.ritualKey testCID RitualActivation.liberation)
       (RitualActivation.fading
          (RitualActivation.checkActivation awakened testCID (F64.lit 5 10)
             (position sample_body))).
Proof.
  assert (Hnd : NoDup (JSMapMore.keys (RitualActivation.activeRituals awakened))).
  { vm_compute. repeat constructor; cbn [In]; intuition discriminate. }
  split; [exact Hnd|]. split; [reflexivity|]. split; [reflexivity|].
  refine (proj1 (proj2 (low_resonance_starts_fade awakened testCID
                          (F64.lit 5 10) (position sample_body)
                          RitualActivation.liberation _ Hnd eq_refl
                          eq_refl))).
  cbn. tauto.
Defined.

(** Property X24.  [OrreryVisualization.addBody] never throws.  It
    returns the factory's body and stores it under the cid with the
    mesh at the body's Cartesian position and a trail of 90 zeros; the
    clock and the rituals are left alone.  [getResonance] is undefined
    for the body until a frame has run, and NaN after any number of
    frames. *)
Theorem visualization_addBody_places_mesh (M : MathImpl)
  (v : OrreryVisualization.t) (contentId proteinHash : JS.jsstring)
  (eigenvalues : list F64.float) :
  exists v' bodyData body,
    OrreryVisualization.addBody v contentId proteinHash eigenvalues
    = Normal (v', bodyData)
    /\ createCelestialBody contentId proteinHash eigenvalues = Normal bodyData
    /\ OrreryVisualization.getBody v' contentId = Some body
    /\ OrreryVisualization.data body = bodyData
    /\ OrreryVisualization.mesh_position body = position bodyData
    /\ OrreryVisualization.trail body = repeat F64.pzero 90
    /\ OrreryVisualization.getResonance v' contentId = None
    /\ OrreryVisualization.time v' = OrreryVisualization.time v
    /\ OrreryVisualization.ritualActivation v'
       = OrreryVisualization.ritualActivation v
    /\ (forall n, (0 < n)%nat ->
          exists v'',
            OrreryVisualization.frames n v' = Normal v''
            /\ OrreryVisualization.getResonance v'' contentId
               = Some F64.nan).
Proof.
  unfold OrreryVisualization.addBody.
  rewrite Factory.createCelestialBody_eq. cbn [bind].
  eexists. eexists. eexists. split; [reflexivity|]. split; [reflexivity|].
  unfold OrreryVisualization.getBody, OrreryVisualization.getResonance.
  cbn [OrreryVisualization.bodies OrreryVisualization.time
       OrreryVisualization.ritualActivation].
  rewrite OrreryFacts.get_set_same.
  split; [reflexivity|].
  cbn [OrreryVisualization.data OrreryVisualization.mesh_position
       OrreryVisualization.trail OrreryVisualization.resonance].
  repeat (split; [reflexivity|]).
  intros n Hn.
  match goal with
  | |- context [OrreryVisualization.frames n ?v1] =>
      destruct (ResonanceFacts.frames_spec n v1)
        as (v2 & E & Hk & _ & _ & _ & Hall)
  end.
  exists v2. split; [exact E|].
  specialize (Hall Hn).
  cbn [OrreryVisualization.bodies] in Hk.
  destruct (FadeFacts.In_keys_get (OrreryVisualization.bodies v2) contentId)
    as (b & Hb).
  { rewrite Hk. apply RitualFacts.has_In_keys. apply RitualFacts.has_set_same. }
  rewrite Hb. apply FadeFacts.get_In in Hb.
  rewrite Forall_forall in Hall. exact (proj1 (Hall _ Hb)).
Qed.

(** Property X26.  The hash decoder reads hexadecimal letters without
    regard to case: after any of the three prefixes (or in a hash that
    carries none), writing [A]-[F] for [a]-[f] changes neither the
    buffer nor the coordinates [hashToOrbit] computes. *)
Theorem hex_letters_case_insensitive (M : MathImpl) (rest : JS.jsstring) :
  (forall prefix,
     In prefix [JS.str "bafkrei"; JS.str "Qm"; JS.str "phash:"] ->
     hashToBuffer (prefix ++ map hex_upper rest) = hashToBuffer (prefix ++ rest)
     /\ hashToOrbit (prefix ++ map hex_upper rest)
        = hashToOrbit (prefix ++ rest))
  /\ (strip_prefix rest = rest ->
      strip_prefix (map hex_upper rest) = map hex_upper rest ->
      hashToBuffer (map hex_upper rest) = hashToBuffer rest
      /\ hashToOrbit (map hex_upper rest) = hashToOrbit rest).
Proof.
  assert (Ho : forall h1 h2,
             hashToBuffer h1 = hashToBuffer h2 ->
             hashToOrbit h1 = hashToOrbit h2).
  { intros h1 h2 E. apply LatticeFacts.hashToOrbit_words; now rewrite E. }
  split.
  - intros prefix Hp.
    assert (E : hashToBuffer (prefix ++ map hex_upper rest)
                = hashToBuffer (prefix ++ rest)).
    { apply CaseFacts.hashToBuffer_upper. cbn [In] in Hp.
      destruct Hp as [<-|[<-|[<-|[]]]].
      - now rewrite !HashDecoder.strip_prefix_bafkrei.
      - now rewrite !HashDecoder.strip_prefix_Qm.
      - now rewrite !HashDecoder.strip_prefix_phash. }
    split; [exact E|now apply Ho].
  - intros H1 H2.
    assert (E : hashToBuffer (map hex_upper rest) = hashToBuffer rest).
    { apply CaseFacts.hashToBuffer_upper. now rewrite H1, H2. }
    split; [exact E|now apply Ho].
Qed.

Lemma hex_letters_case_insensitive_witness :
  map hex_upper lower_hash_tail = JS.str "DEADBEEF00C0FFEE"
  /\ hashToOrbit (M := RefMath.host)
       (JS.str "Qm" ++ map hex_upper lower_hash_tail)
     = hashToOrbit (M := RefMath.host) (JS.str "Qm" ++ lower_hash_tail).
Proof.
  split; [reflexivity|].
  refine (proj2 (proj1 (hex_letters_case_insensitive RefMath.host
                          lower_hash_tail) (JS.str "Qm") _)).
  cbn. tauto.
Defined.
